(** * three-loader: octree streaming and decode engine

    A shallow embedding of [src/workers/decoder-worker-internal.ts] (the point
    decoder) and [src/loading/octree-loader.ts] (hierarchy decoder, node loader
    and octree nodes), with the properties of the specification stated over it.

    JavaScript numbers are IEEE-754 binary64 values: they are modelled by the
    Standard Library's [spec_float] at precision 53, so every arithmetic step of
    the decoder rounds as the engine does.  Integers read from a [DataView] are
    kept as [Z] and converted with [of_Z] where the code does arithmetic on
    them.  Typed arrays are lists updated by index; the objects used as
    dictionaries are finite maps. *)

From Stdlib Require Import ZArith List Bool String Ascii Lia.
From Stdlib Require Import Init.Byte.
From Stdlib Require Import Floats.SpecFloat.
From stdpp Require Import base option list gmap strings.

(** ** Exceptions *)

Module JS.

Inductive error := RangeError | TypeError | NetworkError.

Inductive result (A : Type) :=
| Ok (a : A)
| Throw (e : error).
Arguments Ok {A} a.
Arguments Throw {A} e.

Definition bind {A B} (m : result A) (k : A -> result B) : result B :=
  match m with
  | Ok a => k a
  | Throw e => Throw e
  end.

Definition is_ok {A} (m : result A) : bool :=
  match m with Ok _ => true | Throw _ => false end.

(** [for (const a of l) { s = f a s }], leaving the loop at the first throw. *)
Fixpoint foldM {A S} (f : A -> S -> result S) (l : list A) (s : S) : result S :=
  match l with
  | [] => Ok s
  | a :: l' => bind (f a s) (foldM f l')
  end.

End JS.

Notation "'let!' x ':=' m 'in' k" := (JS.bind m (fun x => k))
  (at level 10, x pattern, m at level 100, k at level 200).

(** ** Numbers *)

Module Num.

Definition number := spec_float.

Definition prec : Z := 53.
Definition emax : Z := 1024.

Definition NaN : number := S754_nan.
Definition zero : number := S754_zero false.
Definition infinity : number := S754_infinity false.

Definition fadd : number -> number -> number := SFadd prec emax.
Definition fsub : number -> number -> number := SFsub prec emax.
Definition fmul : number -> number -> number := SFmul prec emax.
Definition fdiv : number -> number -> number := SFdiv prec emax.

(** An integer as a number (exact below 2^53). *)
Definition of_Z (z : Z) : number := binary_normalize prec emax z 0 false.
Definition of_nat (n : nat) : number := of_Z (Z.of_nat n).

(** [a === b], [a < b] on numbers. *)
Definition feqb : number -> number -> bool := SFeqb.
Definition fltb : number -> number -> bool := SFltb.

(** [ToNumber] of a property that may be [undefined]. *)
Definition ToNumber (v : option number) : number :=
  match v with Some n => n | None => NaN end.

(** [Math.min(a, b)]. *)
Definition Math_min (a b : number) : number :=
  match SFcompare a b with
  | None => NaN
  | Some Lt => a
  | Some Gt => b
  | Some Eq => match a with S754_zero true => a | _ => b end
  end.

(** [Math.fround]: the value a [Float32Array] element holds after a store,
    given again as a binary64 number. *)
Definition fround (v : number) : number :=
  match v with
  | S754_finite s m e =>
      match binary_round 24 128 s m e with
      | S754_finite s' m' e' => binary_round prec emax s' m' e'
      | w => w
      end
  | _ => v
  end.

(** The integer part of a number, towards zero; 0 for NaN and the infinities. *)
Definition truncZ (v : number) : Z :=
  match v with
  | S754_finite s m e =>
      let a := match e with
               | Zneg p => Z.shiftr (Zpos m) (Zpos p)
               | _ => Z.shiftl (Zpos m) e
               end in
      if s then (- a)%Z else a
  | _ => 0%Z
  end.

Definition is_integral (v : number) : bool :=
  match v with
  | S754_zero _ => true
  | S754_finite _ m e =>
      match e with
      | Zneg p => Z.eqb (Z.land (Zpos m) (Z.ones (Zpos p))) 0
      | _ => true
      end
  | _ => false
  end.

(** Conversions done by stores into integer typed arrays. *)
Definition ToUint8 (v : number) : Z := (truncZ v mod 256)%Z.
Definition ToUint16 (v : number) : Z := (truncZ v mod 65536)%Z.
Definition ToUint32 (v : number) : Z := (truncZ v mod 4294967296)%Z.

Definition to_signed (bits : Z) (u : Z) : Z :=
  if (u <? 2 ^ (bits - 1))%Z then u else (u - 2 ^ bits)%Z.

(** The number a 32-bit pattern denotes as an IEEE binary32 value. *)
Definition decode_f32 (bits : Z) : number :=
  let s := Z.testbit bits 31 in
  let ex := Z.land (Z.shiftr bits 23) 255 in
  let fr := Z.land bits 8388607 in
  if (ex =? 255)%Z then (if (fr =? 0)%Z then S754_infinity s else S754_nan)
  else if (ex =? 0)%Z then
    match fr with
    | Zpos m => binary_round prec emax s m (-149)
    | _ => S754_zero s
    end
  else
    match (fr + 8388608)%Z with
    | Zpos m => binary_round prec emax s m (ex - 150)
    | _ => S754_nan
    end.

(** The number a 64-bit pattern denotes as an IEEE binary64 value. *)
Definition decode_f64 (bits : Z) : number :=
  let s := Z.testbit bits 63 in
  let ex := Z.land (Z.shiftr bits 52) 2047 in
  let fr := Z.land bits 4503599627370495 in
  if (ex =? 2047)%Z then (if (fr =? 0)%Z then S754_infinity s else S754_nan)
  else if (ex =? 0)%Z then
    match fr with
    | Zpos m => S754_finite s m (-1074)
    | _ => S754_zero s
    end
  else
    match (fr + 4503599627370496)%Z with
    | Zpos m => S754_finite s m (ex - 1075)
    | _ => S754_nan
    end.

End Num.

(** ** DataView over an ArrayBuffer *)

Module DataView.
Import JS Num.

Definition ArrayBuffer := list byte.

Definition byteZ (b : byte) : Z := Z.of_N (Byte.to_N b).

(** Little-endian value of a run of bytes. *)
Fixpoint le_value (bs : list byte) : Z :=
  match bs with
  | [] => 0%Z
  | b :: r => (byteZ b + 256 * le_value r)%Z
  end.

(** The [n] bytes at [off]; a view throws [RangeError] when they are not all
    inside the buffer. *)
Definition read_bytes (view : ArrayBuffer) (off n : nat) : result (list byte) :=
  if (off + n <=? length view)%nat then Ok (take n (drop off view))
  else Throw RangeError.

Definition getUint8 (view : ArrayBuffer) (off : nat) : result Z :=
  let! bs := read_bytes view off 1 in Ok (le_value bs).
Definition getInt8 (view : ArrayBuffer) (off : nat) : result Z :=
  let! bs := read_bytes view off 1 in Ok (to_signed 8 (le_value bs)).
Definition getUint16 (view : ArrayBuffer) (off : nat) : result Z :=
  let! bs := read_bytes view off 2 in Ok (le_value bs).
Definition getInt16 (view : ArrayBuffer) (off : nat) : result Z :=
  let! bs := read_bytes view off 2 in Ok (to_signed 16 (le_value bs)).
Definition getUint32 (view : ArrayBuffer) (off : nat) : result Z :=
  let! bs := read_bytes view off 4 in Ok (le_value bs).
Definition getInt32 (view : ArrayBuffer) (off : nat) : result Z :=
  let! bs := read_bytes view off 4 in Ok (to_signed 32 (le_value bs)).
Definition getBigInt64 (view : ArrayBuffer) (off : nat) : result Z :=
  let! bs := read_bytes view off 8 in Ok (to_signed 64 (le_value bs)).
Definition getFloat32 (view : ArrayBuffer) (off : nat) : result number :=
  let! bs := read_bytes view off 4 in Ok (decode_f32 (le_value bs)).
Definition getFloat64 (view : ArrayBuffer) (off : nat) : result number :=
  let! bs := read_bytes view off 8 in Ok (decode_f64 (le_value bs)).

End DataView.

(** ** The point decoder ([decoder-worker-internal.ts]) *)

Module Decoder.
Import JS Num DataView.

(** [PointAttributeTypes]: the ten scalar kinds. *)
Inductive DataType :=
| DATA_TYPE_DOUBLE | DATA_TYPE_FLOAT
| DATA_TYPE_INT8 | DATA_TYPE_UINT8
| DATA_TYPE_INT16 | DATA_TYPE_UINT16
| DATA_TYPE_INT32 | DATA_TYPE_UINT32
| DATA_TYPE_INT64 | DATA_TYPE_UINT64.

Definition type_name (t : DataType) : string :=
  match t with
  | DATA_TYPE_DOUBLE => "double" | DATA_TYPE_FLOAT => "float"
  | DATA_TYPE_INT8 => "int8" | DATA_TYPE_UINT8 => "uint8"
  | DATA_TYPE_INT16 => "int16" | DATA_TYPE_UINT16 => "uint16"
  | DATA_TYPE_INT32 => "int32" | DATA_TYPE_UINT32 => "uint32"
  | DATA_TYPE_INT64 => "int64" | DATA_TYPE_UINT64 => "uint64"
  end.

Definition type_size (t : DataType) : nat :=
  match t with
  | DATA_TYPE_DOUBLE => 8 | DATA_TYPE_FLOAT => 4
  | DATA_TYPE_INT8 => 1 | DATA_TYPE_UINT8 => 1
  | DATA_TYPE_INT16 => 2 | DATA_TYPE_UINT16 => 2
  | DATA_TYPE_INT32 => 4 | DATA_TYPE_UINT32 => 4
  | DATA_TYPE_INT64 => 8 | DATA_TYPE_UINT64 => 8
  end.

(** Element classes of the typed arrays the decoder allocates. *)
Inductive TypedArrayKind :=
| Int8Array | Int16Array | Int32Array
| Uint8Array | Uint16Array | Uint32Array
| Float32Array | Float64Array.

(** [typedArrayMapping]: both 64-bit integer kinds are kept in a
    [Float64Array]. *)
Definition typedArrayMapping (t : DataType) : TypedArrayKind :=
  match t with
  | DATA_TYPE_INT8 => Int8Array
  | DATA_TYPE_INT16 => Int16Array
  | DATA_TYPE_INT32 => Int32Array
  | DATA_TYPE_INT64 => Float64Array
  | DATA_TYPE_UINT8 => Uint8Array
  | DATA_TYPE_UINT16 => Uint16Array
  | DATA_TYPE_UINT32 => Uint32Array
  | DATA_TYPE_UINT64 => Float64Array
  | DATA_TYPE_FLOAT => Float32Array
  | DATA_TYPE_DOUBLE => Float64Array
  end.

(** The value an element of a typed array of class [k] holds after
    [array[j] = v]. *)
Definition typed_store (k : TypedArrayKind) (v : number) : number :=
  match k with
  | Int8Array => of_Z (to_signed 8 (ToUint8 v))
  | Int16Array => of_Z (to_signed 16 (ToUint16 v))
  | Int32Array => of_Z (to_signed 32 (ToUint32 v))
  | Uint8Array => of_Z (ToUint8 v)
  | Uint16Array => of_Z (ToUint16 v)
  | Uint32Array => of_Z (ToUint32 v)
  | Float32Array => fround v
  | Float64Array => v
  end.

(** [class PointAttributeType]: one attribute of the schema. *)
Record PointAttributeType := {
  name : string;
  type : DataType;
  numElements : nat;
  byteSize : nat;
  range : number * number;
}.

(** The constructor: [byteSize = numElements * type.size], and the default
    range. *)
Definition new_PointAttributeType (n : string) (t : DataType) (k : nat) :
  PointAttributeType :=
  {| name := n; type := t; numElements := k; byteSize := k * type_size t;
     range := (S754_infinity false, S754_infinity true) |}.

Definition INDICES : PointAttributeType :=
  new_PointAttributeType "INDICES" DATA_TYPE_UINT32 1.

Record VectorAttribute := {
  vector_name : string;
  vector_attributes : list string;
}.

Record PointAttributes := {
  attributes : list PointAttributeType;
  vectors : list VectorAttribute;
}.

Record Vector3 := { x : number; y : number; z : number }.

(** [event.data] of the message a worker receives.  [scale] and [offset] are
    three-element arrays: [x] is element 0, [y] element 1, [z] element 2. *)
Record MessageData := {
  buffer : ArrayBuffer;
  pointAttributes : PointAttributes;
  scale : Vector3;
  node_name : string;
  min : Vector3;
  max : Vector3;
  size : Vector3;
  offset : Vector3;
  numPoints : nat;
}.

(** Contents of the buffers the decoder produces, by the typed array that
    wrote them. *)
Inductive OutBuffer :=
| F32 (l : list number)
| U8 (l : list Z)
| U32 (l : list Z).

(** An entry of [attributeBuffers].  [preciseBuffer], [offset] and [scale] are
    the properties only the generic branch sets; elsewhere they are
    [undefined]. *)
Record AttributeBuffer := {
  out_buffer : OutBuffer;
  preciseBuffer : option (list number);
  attribute : PointAttributeType;
  out_offset : option number;
  out_scale : option number;
}.

Definition gridSize : nat := 32.

(** [toIndex]: the cell index of a point whose node minimum is already
    subtracted. *)
Definition toIndex (sz : Vector3) (px py pz : number) : number :=
  let dx := fdiv (fmul (of_nat gridSize) px) (x sz) in
  let dy := fdiv (fmul (of_nat gridSize) py) (y sz) in
  let dz := fdiv (fmul (of_nat gridSize) pz) (z sz) in
  let ix := Math_min dx (of_nat (gridSize - 1)) in
  let iy := Math_min dy (of_nat (gridSize - 1)) in
  let iz := Math_min dz (of_nat (gridSize - 1)) in
  fadd (fadd ix (fmul iy (of_nat gridSize)))
       (fmul (fmul iz (of_nat gridSize)) (of_nat gridSize)).

(** The element a number used as a property key of a typed array of length
    [len] names: an integer in range ([-0] is the key "0"); any other number
    names no element. *)
Definition element_of (len : nat) (i : number) : option nat :=
  if is_integral i && (0 <=? truncZ i)%Z && (truncZ i <? Z.of_nat len)%Z
  then Some (Z.to_nat (truncZ i)) else None.

(** [count = grid[index]++] on the [Uint32Array]: the old element ([None] for
    [undefined], which counts as NaN) and the array after the store; a key
    that names no element reads [undefined] and stores nothing. *)
Definition grid_increment (grid : list Z) (index : number) : option Z * list Z :=
  match element_of (length grid) index with
  | Some k =>
      match grid !! k with
      | Some c => (Some c, <[k := ((c + 1) mod 4294967296)%Z]> grid)
      | None => (None, grid)
      end
  | None => (None, grid)
  end.

(** [count === 0]. *)
Definition is_zero_count (count : option Z) : bool :=
  match count with Some c => (c =? 0)%Z | None => false end.

(** *** [handleMessage] *)

(** [bytesPerPoint]: the sum of the attributes' byte sizes. *)
Definition bytesPerPoint (pa : PointAttributes) : nat :=
  foldl (fun acc a => acc + byteSize a) 0 (attributes pa).

Definition is_position (n : string) : bool :=
  String.eqb n "POSITION_CARTESIAN" || String.eqb n "position".

Definition is_rgba (n : string) : bool :=
  String.eqb n "RGBA" || String.eqb n "rgba".

(** What the loop over the attributes carries. *)
Record State := {
  grid : list Z;
  numOccupiedCells : nat;
  attributeBuffers : gmap string AttributeBuffer;
  attributeOffset : nat;
}.

(** [raw * scale[axis] + offset[axis] - min.axis]. *)
Definition decode_coord (raw : Z) (s o m : number) : number :=
  fsub (fadd (fmul (of_Z raw) s) o) m.

(** One iteration of the position loop, for point [j]. *)
Definition position_point (data : MessageData) (bpp attrOff j : nat)
    (st : list Z * nat * list number) : result (list Z * nat * list number) :=
  let '(g, occ, positions) := st in
  let pointOffset := j * bpp in
  let! rx := getInt32 (buffer data) (pointOffset + attrOff + 0) in
  let px := decode_coord rx (x (scale data)) (x (offset data)) (x (min data)) in
  let! ry := getInt32 (buffer data) (pointOffset + attrOff + 4) in
  let py := decode_coord ry (y (scale data)) (y (offset data)) (y (min data)) in
  let! rz := getInt32 (buffer data) (pointOffset + attrOff + 8) in
  let pz := decode_coord rz (z (scale data)) (z (offset data)) (z (min data)) in
  let index := toIndex (size data) px py pz in
  let '(count, g') := grid_increment g index in
  let occ' := if is_zero_count count then S occ else occ in
  Ok (g', occ',
      <[3 * j + 2 := fround pz]>
        (<[3 * j + 1 := fround py]> (<[3 * j + 0 := fround px]> positions))).

(** [r > 255 ? r / 256 : r], stored into a [Uint8Array]. *)
Definition color_channel (r : Z) : Z :=
  if (255 <? r)%Z then ToUint8 (fdiv (of_Z r) (of_Z 256)) else ToUint8 (of_Z r).

(** One iteration of the colour loop; element [4 * j + 3] is never written. *)
Definition rgba_point (data : MessageData) (bpp attrOff j : nat)
    (colors : list Z) : result (list Z) :=
  let pointOffset := j * bpp in
  let! r := getUint16 (buffer data) (pointOffset + attrOff + 0) in
  let! g := getUint16 (buffer data) (pointOffset + attrOff + 2) in
  let! b := getUint16 (buffer data) (pointOffset + attrOff + 4) in
  Ok (<[4 * j + 2 := color_channel b]>
        (<[4 * j + 1 := color_channel g]> (<[4 * j + 0 := color_channel r]> colors))).

Definition as_number (get : ArrayBuffer -> nat -> result Z)
    (view : ArrayBuffer) (off : nat) : result number :=
  let! r := get view off in Ok (of_Z r).

(** [getterMap]: the entries for int64 and uint64 are commented out in the
    source, so the lookup gives [undefined] for them. *)
Definition getterMap (t : DataType) : option (ArrayBuffer -> nat -> result number) :=
  match t with
  | DATA_TYPE_INT8 => Some (as_number getInt8)
  | DATA_TYPE_INT16 => Some (as_number getInt16)
  | DATA_TYPE_INT32 => Some (as_number getInt32)
  | DATA_TYPE_INT64 => None
  | DATA_TYPE_UINT8 => Some (as_number getUint8)
  | DATA_TYPE_UINT16 => Some (as_number getUint16)
  | DATA_TYPE_UINT32 => Some (as_number getUint32)
  | DATA_TYPE_UINT64 => None
  | DATA_TYPE_FLOAT => Some getFloat32
  | DATA_TYPE_DOUBLE => Some getFloat64
  end.

(** The offset and scale of the generic branch: [0, 1] unless the type is
    wider than four bytes. *)
Definition pack_params (a : PointAttributeType) : number * number :=
  if (4 <? type_size (type a))%nat
  then (fst (range a), fdiv (of_Z 1) (fsub (snd (range a)) (fst (range a))))
  else (of_Z 0, of_Z 1).

(** One iteration of the generic loop. *)
Definition generic_point (data : MessageData) (a : PointAttributeType)
    (getter : ArrayBuffer -> nat -> result number) (bpp attrOff j : nat)
    (st : list number * list number) : result (list number * list number) :=
  let '(f32, precise) := st in
  let pointOffset := j * bpp in
  let! value := getter (buffer data) (pointOffset + attrOff) in
  Ok (<[j := fround (fmul (fsub value (fst (pack_params a))) (snd (pack_params a)))]> f32,
      <[j := typed_store (typedArrayMapping (type a)) value]> precise).

(** The body of the loop over [pointAttributes.attributes]. *)
Definition decode_attribute (data : MessageData) (bpp : nat)
    (a : PointAttributeType) (st : State) : result State :=
  let n := numPoints data in
  let! st' :=
    if is_position (name a) then
      let! (g, occ, positions) :=
        foldM (position_point data bpp (attributeOffset st)) (seq 0 n)
              (grid st, numOccupiedCells st, replicate (3 * n) zero) in
      Ok {| grid := g; numOccupiedCells := occ;
            attributeBuffers :=
              <[name a := {| out_buffer := F32 positions; preciseBuffer := None;
                             attribute := a; out_offset := None; out_scale := None |}]>
                (attributeBuffers st);
            attributeOffset := attributeOffset st |}
    else if is_rgba (name a) then
      let! colors :=
        foldM (rgba_point data bpp (attributeOffset st)) (seq 0 n)
              (replicate (4 * n) 0%Z) in
      Ok {| grid := grid st; numOccupiedCells := numOccupiedCells st;
            attributeBuffers :=
              <[name a := {| out_buffer := U8 colors; preciseBuffer := None;
                             attribute := a; out_offset := None; out_scale := None |}]>
                (attributeBuffers st);
            attributeOffset := attributeOffset st |}
    else
      match getterMap (type a) with
      | None => Throw TypeError
      | Some getter =>
          let! (f32, precise) :=
            foldM (generic_point data a getter bpp (attributeOffset st)) (seq 0 n)
                  (replicate n zero, replicate n zero) in
          Ok {| grid := grid st; numOccupiedCells := numOccupiedCells st;
                attributeBuffers :=
                  <[name a := {| out_buffer := F32 f32; preciseBuffer := Some precise;
                                 attribute := a;
                                 out_offset := Some (fst (pack_params a));
                                 out_scale := Some (snd (pack_params a)) |}]>
                    (attributeBuffers st);
                attributeOffset := attributeOffset st |}
      end in
  Ok {| grid := grid st'; numOccupiedCells := numOccupiedCells st';
        attributeBuffers := attributeBuffers st';
        attributeOffset := attributeOffset st' + byteSize a |}.

Definition initial_state : State :=
  {| grid := replicate (gridSize * gridSize * gridSize) 0%Z;
     numOccupiedCells := 0;
     attributeBuffers := ∅;
     attributeOffset := 0 |}.

(** The loop over the scalar attributes, in schema order. *)
Definition decode_attributes (data : MessageData) : result State :=
  foldM (decode_attribute data (bytesPerPoint (pointAttributes data)))
        (attributes (pointAttributes data)) initial_state.

(** The [INDICES] buffer: [indices[i] = i]. *)
Definition indices_buffer (n : nat) : list Z :=
  foldl (fun ind i => <[i := Z.of_nat i]> ind) (replicate n 0%Z) (seq 0 n).

(** [new DataView(b).getFloat32(j * 4, true)] on a produced buffer
    (little-endian platform: a [Float32Array] element reads back as stored). *)
Definition readFloat32 (b : OutBuffer) (j : nat) : result number :=
  match b with
  | F32 l => match l !! j with Some v => Ok v | None => Throw RangeError end
  | U32 l => match l !! j with Some v => Ok (decode_f32 v) | None => Throw RangeError end
  | U8 l =>
      if (4 * j + 4 <=? length l)%nat
      then Ok (decode_f32 (foldr (fun b acc => (b + 256 * acc)%Z) 0%Z (take 4 (drop (4 * j) l))))
      else Throw RangeError
  end.

(** One source attribute of a vector: [(value / scale) + offset] for every
    point, written at stride [k]. *)
Definition vector_source (n k : nat) (bufs : gmap string AttributeBuffer)
    (sourceName : string) (st : nat * list number) : result (nat * list number) :=
  let '(iElement, f32) := st in
  match bufs !! sourceName with
  | None => Throw TypeError
  | Some sourceBuffer =>
      let! f32' :=
        foldM (fun j f32 =>
                 let! value := readFloat32 (out_buffer sourceBuffer) j in
                 Ok (<[j * k + iElement :=
                        fround (fadd (fdiv value (ToNumber (out_scale sourceBuffer)))
                                     (ToNumber (out_offset sourceBuffer)))]> f32))
              (seq 0 n) f32 in
      Ok (S iElement, f32')
  end.

(** The body of the loop over [pointAttributes.vectors]. *)
Definition synth_vector (n : nat) (v : VectorAttribute)
    (bufs : gmap string AttributeBuffer) : result (gmap string AttributeBuffer) :=
  let numVectorElements := length (vector_attributes v) in
  let! (_, f32) :=
    foldM (vector_source n numVectorElements bufs) (vector_attributes v)
          (0, replicate (numVectorElements * n) zero) in
  Ok (<[vector_name v :=
          {| out_buffer := F32 f32; preciseBuffer := None;
             attribute := new_PointAttributeType (vector_name v) DATA_TYPE_FLOAT 3;
             out_offset := None; out_scale := None |}]> bufs).

(** The message posted back. *)
Record Message := {
  message_buffer : ArrayBuffer;
  message_attributeBuffers : gmap string AttributeBuffer;
  density : number;
}.

Definition handleMessage (data : MessageData) : result Message :=
  let n := numPoints data in
  let! st := decode_attributes data in
  let occupancy := fdiv (of_nat n) (of_nat (numOccupiedCells st)) in
  let bufs :=
    <["INDICES" := {| out_buffer := U32 (indices_buffer n); preciseBuffer := None;
                      attribute := INDICES; out_offset := None; out_scale := None |}]>
      (attributeBuffers st) in
  let! bufs' := foldM (synth_vector n) (vectors (pointAttributes data)) bufs in
  Ok {| message_buffer := buffer data;
        message_attributeBuffers := bufs';
        density := occupancy |}.

End Decoder.

(** ** The octree loader ([octree-loader.ts]) *)

Module Loader.
Import JS Num DataView.

Definition Vector3 : Type := Decoder.Vector3.

Record Box3 := { box_min : Vector3; box_max : Vector3 }.
Record Sphere := { center : Vector3; radius : number }.

Definition v_add (a b : Vector3) : Vector3 :=
  {| Decoder.x := fadd (Decoder.x a) (Decoder.x b);
     Decoder.y := fadd (Decoder.y a) (Decoder.y b);
     Decoder.z := fadd (Decoder.z a) (Decoder.z b) |}.

Definition v_sub (a b : Vector3) : Vector3 :=
  {| Decoder.x := fsub (Decoder.x a) (Decoder.x b);
     Decoder.y := fsub (Decoder.y a) (Decoder.y b);
     Decoder.z := fsub (Decoder.z a) (Decoder.z b) |}.

(** What [onmessage] attaches to a geometry attribute of a generic
    property. *)
Record Potree := {
  potree_offset : option number;
  potree_scale : option number;
  potree_preciseBuffer : option (list number);
  potree_range : number * number;
}.

(** A [BufferAttribute]: a typed-array view of a decoded buffer. *)
Record BufferAttribute := {
  array : Decoder.OutBuffer;
  array_kind : Decoder.TypedArrayKind;
  itemSize : nat;
  normalized : bool;
  potree : option Potree;
}.

Record BufferGeometry := {
  geometry_attributes : gmap string BufferAttribute;
}.

(** [class OctreeGeometryNode].  Nodes live in a heap and are named by a
    reference; [children] and [parent] hold references ([None] is [null]). *)
Record OctreeGeometryNode := {
  id : nat;
  name : string;
  index : Z;
  loaded : bool;
  loading : bool;
  failed : bool;
  boundingSphere : Sphere;
  hasChildren : bool;
  children : list (option nat);
  numPoints : Z;
  geometry : option BufferGeometry;
  density : number;
  level : Z;
  parent : option nat;
  oneTimeDisposeHandlers : list nat;
  spacing : number;
  hierarchyByteOffset : Z;
  hierarchyByteSize : Z;
  byteSize : Z;
  byteOffset : Z;
  nodeType : Z;
  boundingBox : Box3;
  isLeafNode : bool;
}.

(** Assignments to one field of a node. *)
Definition set_name (v : string) (n : OctreeGeometryNode) : OctreeGeometryNode :=
  {| id := id n; name := v; index := index n; loaded := loaded n; loading := loading
     n; failed := failed n; boundingSphere := boundingSphere n; hasChildren :=
     hasChildren n; children := children n; numPoints := numPoints n; geometry :=
     geometry n; density := density n; level := level n; parent := parent n;
     oneTimeDisposeHandlers := oneTimeDisposeHandlers n; spacing := spacing n;
     hierarchyByteOffset := hierarchyByteOffset n; hierarchyByteSize :=
     hierarchyByteSize n; byteSize := byteSize n; byteOffset := byteOffset n; nodeType
     := nodeType n; boundingBox := boundingBox n; isLeafNode := isLeafNode n |}.
Definition set_loaded (v : bool) (n : OctreeGeometryNode) : OctreeGeometryNode :=
  {| id := id n; name := name n; index := index n; loaded := v; loading := loading n;
     failed := failed n; boundingSphere := boundingSphere n; hasChildren :=
     hasChildren n; children := children n; numPoints := numPoints n; geometry :=
     geometry n; density := density n; level := level n; parent := parent n;
     oneTimeDisposeHandlers := oneTimeDisposeHandlers n; spacing := spacing n;
     hierarchyByteOffset := hierarchyByteOffset n; hierarchyByteSize :=
     hierarchyByteSize n; byteSize := byteSize n; byteOffset := byteOffset n; nodeType
     := nodeType n; boundingBox := boundingBox n; isLeafNode := isLeafNode n |}.
Definition set_loading (v : bool) (n : OctreeGeometryNode) : OctreeGeometryNode :=
  {| id := id n; name := name n; index := index n; loaded := loaded n; loading := v;
     failed := failed n; boundingSphere := boundingSphere n; hasChildren :=
     hasChildren n; children := children n; numPoints := numPoints n; geometry :=
     geometry n; density := density n; level := level n; parent := parent n;
     oneTimeDisposeHandlers := oneTimeDisposeHandlers n; spacing := spacing n;
     hierarchyByteOffset := hierarchyByteOffset n; hierarchyByteSize :=
     hierarchyByteSize n; byteSize := byteSize n; byteOffset := byteOffset n; nodeType
     := nodeType n; boundingBox := boundingBox n; isLeafNode := isLeafNode n |}.
Definition set_failed (v : bool) (n : OctreeGeometryNode) : OctreeGeometryNode :=
  {| id := id n; name := name n; index := index n; loaded := loaded n; loading :=
     loading n; failed := v; boundingSphere := boundingSphere n; hasChildren :=
     hasChildren n; children := children n; numPoints := numPoints n; geometry :=
     geometry n; density := density n; level := level n; parent := parent n;
     oneTimeDisposeHandlers := oneTimeDisposeHandlers n; spacing := spacing n;
     hierarchyByteOffset := hierarchyByteOffset n; hierarchyByteSize :=
     hierarchyByteSize n; byteSize := byteSize n; byteOffset := byteOffset n; nodeType
     := nodeType n; boundingBox := boundingBox n; isLeafNode := isLeafNode n |}.
Definition set_children (v : list (option nat)) (n : OctreeGeometryNode) : OctreeGeometryNode :=
  {| id := id n; name := name n; index := index n; loaded := loaded n; loading :=
     loading n; failed := failed n; boundingSphere := boundingSphere n; hasChildren :=
     hasChildren n; children := v; numPoints := numPoints n; geometry := geometry n;
     density := density n; level := level n; parent := parent n;
     oneTimeDisposeHandlers := oneTimeDisposeHandlers n; spacing := spacing n;
     hierarchyByteOffset := hierarchyByteOffset n; hierarchyByteSize :=
     hierarchyByteSize n; byteSize := byteSize n; byteOffset := byteOffset n; nodeType
     := nodeType n; boundingBox := boundingBox n; isLeafNode := isLeafNode n |}.
Definition set_numPoints (v : Z) (n : OctreeGeometryNode) : OctreeGeometryNode :=
  {| id := id n; name := name n; index := index n; loaded := loaded n; loading :=
     loading n; failed := failed n; boundingSphere := boundingSphere n; hasChildren :=
     hasChildren n; children := children n; numPoints := v; geometry := geometry n;
     density := density n; level := level n; parent := parent n;
     oneTimeDisposeHandlers := oneTimeDisposeHandlers n; spacing := spacing n;
     hierarchyByteOffset := hierarchyByteOffset n; hierarchyByteSize :=
     hierarchyByteSize n; byteSize := byteSize n; byteOffset := byteOffset n; nodeType
     := nodeType n; boundingBox := boundingBox n; isLeafNode := isLeafNode n |}.
Definition set_geometry (v : option BufferGeometry) (n : OctreeGeometryNode) : OctreeGeometryNode :=
  {| id := id n; name := name n; index := index n; loaded := loaded n; loading :=
     loading n; failed := failed n; boundingSphere := boundingSphere n; hasChildren :=
     hasChildren n; children := children n; numPoints := numPoints n; geometry := v;
     density := density n; level := level n; parent := parent n;
     oneTimeDisposeHandlers := oneTimeDisposeHandlers n; spacing := spacing n;
     hierarchyByteOffset := hierarchyByteOffset n; hierarchyByteSize :=
     hierarchyByteSize n; byteSize := byteSize n; byteOffset := byteOffset n; nodeType
     := nodeType n; boundingBox := boundingBox n; isLeafNode := isLeafNode n |}.
Definition set_density (v : number) (n : OctreeGeometryNode) : OctreeGeometryNode :=
  {| id := id n; name := name n; index := index n; loaded := loaded n; loading :=
     loading n; failed := failed n; boundingSphere := boundingSphere n; hasChildren :=
     hasChildren n; children := children n; numPoints := numPoints n; geometry :=
     geometry n; density := v; level := level n; parent := parent n;
     oneTimeDisposeHandlers := oneTimeDisposeHandlers n; spacing := spacing n;
     hierarchyByteOffset := hierarchyByteOffset n; hierarchyByteSize :=
     hierarchyByteSize n; byteSize := byteSize n; byteOffset := byteOffset n; nodeType
     := nodeType n; boundingBox := boundingBox n; isLeafNode := isLeafNode n |}.
Definition set_level (v : Z) (n : OctreeGeometryNode) : OctreeGeometryNode :=
  {| id := id n; name := name n; index := index n; loaded := loaded n; loading :=
     loading n; failed := failed n; boundingSphere := boundingSphere n; hasChildren :=
     hasChildren n; children := children n; numPoints := numPoints n; geometry :=
     geometry n; density := density n; level := v; parent := parent n;
     oneTimeDisposeHandlers := oneTimeDisposeHandlers n; spacing := spacing n;
     hierarchyByteOffset := hierarchyByteOffset n; hierarchyByteSize :=
     hierarchyByteSize n; byteSize := byteSize n; byteOffset := byteOffset n; nodeType
     := nodeType n; boundingBox := boundingBox n; isLeafNode := isLeafNode n |}.
Definition set_parent (v : option nat) (n : OctreeGeometryNode) : OctreeGeometryNode :=
  {| id := id n; name := name n; index := index n; loaded := loaded n; loading :=
     loading n; failed := failed n; boundingSphere := boundingSphere n; hasChildren :=
     hasChildren n; children := children n; numPoints := numPoints n; geometry :=
     geometry n; density := density n; level := level n; parent := v;
     oneTimeDisposeHandlers := oneTimeDisposeHandlers n; spacing := spacing n;
     hierarchyByteOffset := hierarchyByteOffset n; hierarchyByteSize :=
     hierarchyByteSize n; byteSize := byteSize n; byteOffset := byteOffset n; nodeType
     := nodeType n; boundingBox := boundingBox n; isLeafNode := isLeafNode n |}.
Definition set_oneTimeDisposeHandlers (v : list nat) (n : OctreeGeometryNode) : OctreeGeometryNode :=
  {| id := id n; name := name n; index := index n; loaded := loaded n; loading :=
     loading n; failed := failed n; boundingSphere := boundingSphere n; hasChildren :=
     hasChildren n; children := children n; numPoints := numPoints n; geometry :=
     geometry n; density := density n; level := level n; parent := parent n;
     oneTimeDisposeHandlers := v; spacing := spacing n; hierarchyByteOffset :=
     hierarchyByteOffset n; hierarchyByteSize := hierarchyByteSize n; byteSize :=
     byteSize n; byteOffset := byteOffset n; nodeType := nodeType n; boundingBox :=
     boundingBox n; isLeafNode := isLeafNode n |}.
Definition set_spacing (v : number) (n : OctreeGeometryNode) : OctreeGeometryNode :=
  {| id := id n; name := name n; index := index n; loaded := loaded n; loading :=
     loading n; failed := failed n; boundingSphere := boundingSphere n; hasChildren :=
     hasChildren n; children := children n; numPoints := numPoints n; geometry :=
     geometry n; density := density n; level := level n; parent := parent n;
     oneTimeDisposeHandlers := oneTimeDisposeHandlers n; spacing := v;
     hierarchyByteOffset := hierarchyByteOffset n; hierarchyByteSize :=
     hierarchyByteSize n; byteSize := byteSize n; byteOffset := byteOffset n; nodeType
     := nodeType n; boundingBox := boundingBox n; isLeafNode := isLeafNode n |}.
Definition set_hierarchyByteOffset (v : Z) (n : OctreeGeometryNode) : OctreeGeometryNode :=
  {| id := id n; name := name n; index := index n; loaded := loaded n; loading :=
     loading n; failed := failed n; boundingSphere := boundingSphere n; hasChildren :=
     hasChildren n; children := children n; numPoints := numPoints n; geometry :=
     geometry n; density := density n; level := level n; parent := parent n;
     oneTimeDisposeHandlers := oneTimeDisposeHandlers n; spacing := spacing n;
     hierarchyByteOffset := v; hierarchyByteSize := hierarchyByteSize n; byteSize :=
     byteSize n; byteOffset := byteOffset n; nodeType := nodeType n; boundingBox :=
     boundingBox n; isLeafNode := isLeafNode n |}.
Definition set_hierarchyByteSize (v : Z) (n : OctreeGeometryNode) : OctreeGeometryNode :=
  {| id := id n; name := name n; index := index n; loaded := loaded n; loading :=
     loading n; failed := failed n; boundingSphere := boundingSphere n; hasChildren :=
     hasChildren n; children := children n; numPoints := numPoints n; geometry :=
     geometry n; density := density n; level := level n; parent := parent n;
     oneTimeDisposeHandlers := oneTimeDisposeHandlers n; spacing := spacing n;
     hierarchyByteOffset := hierarchyByteOffset n; hierarchyByteSize := v; byteSize :=
     byteSize n; byteOffset := byteOffset n; nodeType := nodeType n; boundingBox :=
     boundingBox n; isLeafNode := isLeafNode n |}.
Definition set_byteSize (v : Z) (n : OctreeGeometryNode) : OctreeGeometryNode :=
  {| id := id n; name := name n; index := index n; loaded := loaded n; loading :=
     loading n; failed := failed n; boundingSphere := boundingSphere n; hasChildren :=
     hasChildren n; children := children n; numPoints := numPoints n; geometry :=
     geometry n; density := density n; level := level n; parent := parent n;
     oneTimeDisposeHandlers := oneTimeDisposeHandlers n; spacing := spacing n;
     hierarchyByteOffset := hierarchyByteOffset n; hierarchyByteSize :=
     hierarchyByteSize n; byteSize := v; byteOffset := byteOffset n; nodeType :=
     nodeType n; boundingBox := boundingBox n; isLeafNode := isLeafNode n |}.
Definition set_byteOffset (v : Z) (n : OctreeGeometryNode) : OctreeGeometryNode :=
  {| id := id n; name := name n; index := index n; loaded := loaded n; loading :=
     loading n; failed := failed n; boundingSphere := boundingSphere n; hasChildren :=
     hasChildren n; children := children n; numPoints := numPoints n; geometry :=
     geometry n; density := density n; level := level n; parent := parent n;
     oneTimeDisposeHandlers := oneTimeDisposeHandlers n; spacing := spacing n;
     hierarchyByteOffset := hierarchyByteOffset n; hierarchyByteSize :=
     hierarchyByteSize n; byteSize := byteSize n; byteOffset := v; nodeType :=
     nodeType n; boundingBox := boundingBox n; isLeafNode := isLeafNode n |}.
Definition set_nodeType (v : Z) (n : OctreeGeometryNode) : OctreeGeometryNode :=
  {| id := id n; name := name n; index := index n; loaded := loaded n; loading :=
     loading n; failed := failed n; boundingSphere := boundingSphere n; hasChildren :=
     hasChildren n; children := children n; numPoints := numPoints n; geometry :=
     geometry n; density := density n; level := level n; parent := parent n;
     oneTimeDisposeHandlers := oneTimeDisposeHandlers n; spacing := spacing n;
     hierarchyByteOffset := hierarchyByteOffset n; hierarchyByteSize :=
     hierarchyByteSize n; byteSize := byteSize n; byteOffset := byteOffset n; nodeType
     := v; boundingBox := boundingBox n; isLeafNode := isLeafNode n |}.

Inductive File := hierarchy_bin | octree_bin.

Inductive Encoding := DEFAULT | BROTLI.

(** What the loader does to its collaborators, in order. *)
Inductive Event :=
| Fetch (file : File) (first last : Z)
| ConsoleWarn (node : string)
| ConsoleLog (node : string)
| ConsoleError (e : error)
| NewWorker (worker : nat) (type : Encoding)
| PostMessage (worker : nat) (message : Decoder.MessageData)
| Terminate (worker : nat)
| GeometryDispose (node : nat)
| HandlerCall (handler : nat).

(** The mutable state: the node heap with the static [idCount], the worker
    pool of the [NodeLoader], the flags of loader and octree, and the trace. *)
Record World := {
  heap : gmap nat OctreeGeometryNode;
  idCount : nat;
  workers : list nat;
  workerCount : nat;
  loader_disposed : bool;
  root : option nat;
  octree_disposed : bool;
  trace : list Event;
}.

Definition set_heap (h : gmap nat OctreeGeometryNode) (w : World) : World :=
  {| heap := h; idCount := idCount w; workers := workers w;
     workerCount := workerCount w; loader_disposed := loader_disposed w;
     root := root w; octree_disposed := octree_disposed w; trace := trace w |}.

(** [node.field = v] through a reference. *)
Definition update (node : nat) (f : OctreeGeometryNode -> OctreeGeometryNode)
    (w : World) : World :=
  set_heap (alter f node (heap w)) w.

Definition emit (e : Event) (w : World) : World :=
  {| heap := heap w; idCount := idCount w; workers := workers w;
     workerCount := workerCount w; loader_disposed := loader_disposed w;
     root := root w; octree_disposed := octree_disposed w;
     trace := trace w ++ [e] |}.

Definition set_workers (ws : list nat) (w : World) : World :=
  {| heap := heap w; idCount := idCount w; workers := ws;
     workerCount := workerCount w; loader_disposed := loader_disposed w;
     root := root w; octree_disposed := octree_disposed w; trace := trace w |}.

(** A computation on the world that ends normally or by a throw; the state
    reached is kept in both cases. *)
Inductive outcome (S : Type) :=
| Normal (s : S)
| Abrupt (e : error) (s : S).
Arguments Normal {S} s.
Arguments Abrupt {S} e s.

Definition state_of {S} (o : outcome S) : S :=
  match o with Normal s => s | Abrupt _ s => s end.

Definition andThen {S} (o : outcome S) (k : S -> outcome S) : outcome S :=
  match o with
  | Normal s => k s
  | Abrupt e s => Abrupt e s
  end.

Fixpoint loopM {A S} (f : A -> S -> outcome S) (l : list A) (s : S) : outcome S :=
  match l with
  | [] => Normal s
  | a :: l' => andThen (f a s) (loopM f l')
  end.

(** The fixed part of an [OctreeGeometry] and of its metadata. *)
Record OctreeGeometry := {
  octree_spacing : number;
  octree_scale : Vector3;
  octree_offset : Vector3;
  octree_boundingBox : Box3;
  octree_pointAttributes : Decoder.PointAttributes;
  encoding : Encoding;
  firstChunkSize : Z;
}.

Section WithCollaborators.

(** [createChildAABB] of [utils/bounds], [getIndexFromName] of [utils/utils]
    and [Box3.getBoundingSphere] of the rendering library. *)
Variable createChildAABB : Box3 -> nat -> Box3.
Variable getIndexFromName : string -> Z.
Variable getBoundingSphere : Box3 -> Sphere.

(** The transport: the bytes of an inclusive byte range of a file, or a
    rejection. *)
Variable fetch : File -> Z -> Z -> result ArrayBuffer.

Variable octree : OctreeGeometry.

(** [new OctreeGeometryNode(name, octreeGeometry, boundingBox)] with the
    reference [r]. *)
Definition new_OctreeGeometryNode (r : nat) (nm : string) (box : Box3) :
  OctreeGeometryNode :=
  {| id := r; name := nm; index := getIndexFromName nm;
     loaded := false; loading := false; failed := false;
     boundingSphere := getBoundingSphere box; hasChildren := false;
     children := [None; None; None; None; None; None; None; None];
     numPoints := 0; geometry := None; density := zero; level := 0;
     parent := None; oneTimeDisposeHandlers := []; spacing := zero;
     hierarchyByteOffset := 0; hierarchyByteSize := 0;
     byteSize := 0; byteOffset := 0; nodeType := 0;
     boundingBox := box; isLeafNode := true |}.

(** Allocation: the node gets the next [idCount] as its reference. *)
Definition alloc (nm : string) (box : Box3) (w : World) : nat * World :=
  let r := idCount w in
  (r, {| heap := <[r := new_OctreeGeometryNode r nm box]> (heap w);
         idCount := S r; workers := workers w; workerCount := workerCount w;
         loader_disposed := loader_disposed w; root := root w;
         octree_disposed := octree_disposed w; trace := trace w |}).

(** *** [NodeLoader.parseHierarchy] *)

Definition bytesPerNode : nat := 22.

(** The state of the loop: the world, the work list [nodes] and [nodePos]. *)
Record Parse := {
  world : World;
  nodes : gmap nat nat;
  nodePos : nat;
}.

(** The decimal digit appended to a name by [current.name + childIndex]. *)
Definition digit (i : nat) : string :=
  String (ascii_of_nat (48 + i)) EmptyString.

(** [((1 << childIndex) & childMask) !== 0]. *)
Definition childExists (childMask : Z) (childIndex : nat) : bool :=
  negb (Z.land (Z.shiftl 1 (Z.of_nat childIndex)) childMask =? 0)%Z.

(** The body of the loop over the eight child slots of [current]. *)
Definition add_child (current : nat) (childMask : Z) (st : Parse)
    (childIndex : nat) : Parse :=
  if childExists childMask childIndex then
    match heap (world st) !! current with
    | None => st
    | Some cur =>
        let childName := String.append (name cur) (digit childIndex) in
        let childAABB := createChildAABB (boundingBox cur) childIndex in
        let '(child, w1) := alloc childName childAABB (world st) in
        let w2 := update child (set_name childName) w1 in
        let w3 := update child (set_spacing (fdiv (spacing cur) (of_Z 2))) w2 in
        let w4 := update child (set_level (level cur + 1)%Z) w3 in
        let w5 := update current
                    (fun n => set_children (<[childIndex := Some child]> (children n)) n)
                    w4 in
        let w6 := update child (set_parent (Some current)) w5 in
        {| world := w6;
           nodes := <[nodePos st := child]> (nodes st);
           nodePos := S (nodePos st) |}
    end
  else st.

(** The fields of the record at position [i]. *)
Record HierarchyRecord := {
  rec_type : Z;
  rec_childMask : Z;
  rec_numPoints : Z;
  rec_byteOffset : Z;
  rec_byteSize : Z;
}.

Definition read_record (view : ArrayBuffer) (i : nat) : result HierarchyRecord :=
  let! type := getUint8 view (i * bytesPerNode + 0) in
  let! childMask := getUint8 view (i * bytesPerNode + 1) in
  let! numPoints := getUint32 view (i * bytesPerNode + 2) in
  let! byteOffset := getBigInt64 view (i * bytesPerNode + 6) in
  let! byteSize := getBigInt64 view (i * bytesPerNode + 14) in
  Ok {| rec_type := type; rec_childMask := childMask; rec_numPoints := numPoints;
        rec_byteOffset := byteOffset; rec_byteSize := byteSize |}.

(** What a record writes on [current], by the three cases of the source. *)
Definition apply_record (r : HierarchyRecord) (cur : OctreeGeometryNode) :
  OctreeGeometryNode :=
  let cur' :=
    if (nodeType cur =? 2)%Z then
      set_numPoints (rec_numPoints r)
        (set_byteSize (rec_byteSize r) (set_byteOffset (rec_byteOffset r) cur))
    else if (rec_type r =? 2)%Z then
      set_numPoints (rec_numPoints r)
        (set_hierarchyByteSize (rec_byteSize r)
           (set_hierarchyByteOffset (rec_byteOffset r) cur))
    else
      set_numPoints (rec_numPoints r)
        (set_byteSize (rec_byteSize r) (set_byteOffset (rec_byteOffset r) cur)) in
  set_nodeType (rec_type r) cur'.

(** One iteration of the loop over the records.  [nodes[i]] is [undefined]
    when the work list holds no node for the record, and reading a field of it
    throws. *)
Definition parse_record (view : ArrayBuffer) (i : nat) (st : Parse) : outcome Parse :=
  match read_record view i with
  | Throw e => Abrupt e st
  | Ok r =>
      match nodes st !! i with
      | None => Abrupt TypeError st
      | Some current =>
          match heap (world st) !! current with
          | None => Abrupt TypeError st
          | Some cur =>
              let st1 :=
                {| world := update current (apply_record r) (world st);
                   nodes := nodes st; nodePos := nodePos st |} in
              if (rec_type r =? 2)%Z then Normal st1
              else Normal (foldl (add_child current (rec_childMask r)) st1 (seq 0 8))
          end
      end
  end.

(** [new Array(numNodes)] with [numNodes = buffer.byteLength / 22]: the
    quotient of two integers is an array length only when it is an integer
    below 2^32; otherwise the constructor throws. *)
Definition array_length_ok (byteLength : nat) : bool :=
  (byteLength mod bytesPerNode =? 0)%nat
  && (Z.of_nat (byteLength / bytesPerNode) <? 4294967296)%Z.

(** [parseHierarchy], returning the work list with the world. *)
Definition parseHierarchy_loop (node : nat) (buf : ArrayBuffer) (w : World) :
  outcome Parse :=
  let st0 := {| world := w; nodes := ∅; nodePos := 0 |} in
  if array_length_ok (length buf) then
    let numNodes := (length buf / bytesPerNode)%nat in
    loopM (parse_record buf) (seq 0 numNodes)
          {| world := w; nodes := {[ 0 := node ]}; nodePos := 1 |}
  else Abrupt RangeError st0.

Definition lift_world (o : outcome Parse) : outcome World :=
  match o with
  | Normal st => Normal (world st)
  | Abrupt e st => Abrupt e (world st)
  end.

Definition parseHierarchy (node : nat) (buf : ArrayBuffer) (w : World) : outcome World :=
  lift_world (parseHierarchy_loop node buf w).

(** *** [NodeLoader.loadHierarchy] *)

Definition loadHierarchy (node : nat) (w : World) : outcome World :=
  match heap w !! node with
  | None => Abrupt TypeError w
  | Some n =>
      let first := hierarchyByteOffset n in
      let last := (first + hierarchyByteSize n - 1)%Z in
      let w1 := emit (Fetch hierarchy_bin first last) w in
      match fetch hierarchy_bin first last with
      | Throw e => Abrupt e w1
      | Ok buf => parseHierarchy node buf w1
      end
  end.

(** *** The worker pool *)

(** [getWorker]: the last worker of the free list, or a new one. *)
Definition getWorker (type : Encoding) (w : World) : nat * World :=
  match last (workers w) with
  | Some worker => (worker, set_workers (removelast (workers w)) w)
  | None =>
      let worker := workerCount w in
      (worker,
       emit (NewWorker worker type)
         {| heap := heap w; idCount := idCount w; workers := workers w;
            workerCount := S worker; loader_disposed := loader_disposed w;
            root := root w; octree_disposed := octree_disposed w;
            trace := trace w |})
  end.

Definition releaseWorker (worker : nat) (w : World) : World :=
  set_workers (workers w ++ [worker]) w.

(** *** [NodeLoader.load] *)

(** The message for the worker. *)
Definition make_message (n : OctreeGeometryNode) (buf : ArrayBuffer) :
  Decoder.MessageData :=
  let offset := octree_offset octree in
  let box := boundingBox n in
  let min := v_add offset (box_min box) in
  let size := v_sub (box_max box) (box_min box) in
  let max := v_add min size in
  {| Decoder.buffer := buf;
     Decoder.pointAttributes := octree_pointAttributes octree;
     Decoder.scale := octree_scale octree;
     Decoder.node_name := name n;
     Decoder.min := min;
     Decoder.max := max;
     Decoder.size := size;
     Decoder.offset := offset;
     Decoder.numPoints := Z.to_nat (numPoints n) |}.

(** The payload: an empty buffer for a size of zero, else the byte range of
    [octree.bin]. *)
Definition fetch_payload (n : OctreeGeometryNode) (w : World) : result ArrayBuffer * World :=
  let first := byteOffset n in
  let last := (byteOffset n + byteSize n - 1)%Z in
  if (byteSize n =? 0)%Z then (Ok [], emit (ConsoleWarn (name n)) w)
  else (fetch octree_bin first last, emit (Fetch octree_bin first last) w).

(** The [try] block of [load]. *)
Definition load_try (node : nat) (w : World) : outcome World :=
  match heap w !! node with
  | None => Abrupt TypeError w
  | Some n0 =>
      andThen (if (nodeType n0 =? 2)%Z then loadHierarchy node w else Normal w)
        (fun w1 =>
           match heap w1 !! node with
           | None => Abrupt TypeError w1
           | Some n =>
               match fetch_payload n w1 with
               | (Throw e, w2) => Abrupt e w2
               | (Ok buf, w2) =>
                   let '(worker, w3) := getWorker (encoding octree) w2 in
                   Normal (emit (PostMessage worker (make_message n buf)) w3)
               end
           end)
  end.

(** The [catch] block of [load]. *)
Definition load_catch (node : nat) (e : error) (w : World) : World :=
  let w1 := update node (set_loaded false) w in
  let w2 := update node (set_loading false) w1 in
  let nm := match heap w2 !! node with Some n => name n | None => EmptyString end in
  emit (ConsoleError e) (emit (ConsoleLog nm) w2).

(** [load]; the guard is the source's [node.loading || node.loading]. *)
Definition load (node : nat) (w : World) : World :=
  match heap w !! node with
  | None => w
  | Some n =>
      if loading n || loading n then w
      else
        match load_try node (update node (set_loading true) w) with
        | Normal w' => w'
        | Abrupt e w' => load_catch node e w'
        end
  end.

(** *** [worker.onmessage] *)

(** The geometry attribute a property of [attributeBuffers] becomes. *)
Definition geometry_attribute (property : string) (b : Decoder.AttributeBuffer) :
  string * BufferAttribute :=
  if String.eqb property "position" then
    ("position"%string,
     {| array := Decoder.out_buffer b; array_kind := Decoder.Float32Array;
        itemSize := 3; normalized := false; potree := None |})
  else if String.eqb property "rgba" then
    ("color"%string,
     {| array := Decoder.out_buffer b; array_kind := Decoder.Uint8Array;
        itemSize := 4; normalized := true; potree := None |})
  else if String.eqb property "NORMAL" then
    ("normal"%string,
     {| array := Decoder.out_buffer b; array_kind := Decoder.Float32Array;
        itemSize := 3; normalized := false; potree := None |})
  else if String.eqb property "INDICES" then
    ("indices"%string,
     {| array := Decoder.out_buffer b; array_kind := Decoder.Uint8Array;
        itemSize := 4; normalized := true; potree := None |})
  else
    (property,
     {| array := Decoder.out_buffer b; array_kind := Decoder.Float32Array;
        itemSize := 1; normalized := false;
        potree := Some {| potree_offset := Decoder.out_offset b;
                          potree_scale := Decoder.out_scale b;
                          potree_preciseBuffer := Decoder.preciseBuffer b;
                          potree_range := Decoder.range (Decoder.attribute b) |} |}).

(** A property key that is an array index: the canonical decimal string of
    an integer below [2^32 - 1]. *)
Definition digit_of (c : ascii) : option N :=
  let n := N_of_ascii c in
  if (48 <=? n)%N && (n <=? 57)%N then Some (n - 48)%N else None.

Fixpoint decimal (acc : N) (s : string) : option N :=
  match s with
  | EmptyString => Some acc
  | String c s' =>
      match digit_of c with
      | Some d => decimal (10 * acc + d)%N s'
      | None => None
      end
  end.

Definition array_index (s : string) : option N :=
  match s with
  | EmptyString => None
  | String c s' =>
      if (N_of_ascii c =? 48)%N && negb (String.eqb s' "") then None
      else match decimal 0 s with
           | Some n => if (n <? 4294967295)%N then Some n else None
           | None => None
           end
  end.

Fixpoint insert_index (k : N * string) (l : list (N * string)) : list (N * string) :=
  match l with
  | [] => [k]
  | h :: t => if (fst k <=? fst h)%N then k :: l else h :: insert_index k t
  end.

(** The keys of a list in the order of their first occurrence. *)
Fixpoint first_occurrences (seen l : list string) : list string :=
  match l with
  | [] => []
  | k :: l' =>
      if existsb (String.eqb k) seen then first_occurrences seen l'
      else k :: first_occurrences (k :: seen) l'
  end.

(** The order in which [for (const property in buffers)] visits the
    properties of the object a worker posts for a schema: the keys that are
    array indices in ascending order, then the other keys in the order the
    worker created them (the attributes in schema order, [INDICES], the
    vectors; assigning to a key again does not move it). *)
Definition property_order (pa : Decoder.PointAttributes) : list string :=
  let created :=
    first_occurrences []
      (map Decoder.name (Decoder.attributes pa)
       ++ "INDICES"%string :: map Decoder.vector_name (Decoder.vectors pa)) in
  let indices :=
    foldr insert_index []
          (omap (fun k => match array_index k with
                          | Some n => Some (n, k)
                          | None => None
                          end) created) in
  (map snd indices
   ++ List.filter (fun k => match array_index k with Some _ => false | None => true end)
                  created)%list.

(** The geometry built from the decoded buffers, the properties being
    visited in the order [order]. *)
Definition build_geometry (order : list string)
    (buffers : gmap string Decoder.AttributeBuffer) : BufferGeometry :=
  {| geometry_attributes :=
       foldl (fun g property =>
                match buffers !! property with
                | Some b =>
                    <[fst (geometry_attribute property b) :=
                        snd (geometry_attribute property b)]> g
                | None => g
                end)
             ∅ order |}.

(** The handler [load] installs on the worker, for the node and worker it
    closes over.  [data] is the reply to the message [load] posted, so its
    properties are the ones the worker created for the schema of the
    octree. *)
Definition onmessage (node worker : nat) (data : Decoder.Message) (w : World) : World :=
  let geometry :=
    build_geometry (property_order (octree_pointAttributes octree))
                   (Decoder.message_attributeBuffers data) in
  let w1 := update node (set_density (Decoder.density data)) w in
  let w2 := update node (set_geometry (Some geometry)) w1 in
  let w3 := update node (set_loaded true) w2 in
  let w4 := update node (set_loading false) w3 in
  let w5 := update node (set_failed false) w4 in
  releaseWorker worker w5.

(** *** Disposal *)

(** [NodeLoader.dispose]. *)
Definition loader_dispose (w : World) : World :=
  let w1 := foldl (fun w worker => emit (Terminate worker) w) w (workers w) in
  {| heap := heap w1; idCount := idCount w1; workers := [];
     workerCount := workerCount w1; loader_disposed := true;
     root := root w1; octree_disposed := octree_disposed w1; trace := trace w1 |}.

(** [OctreeGeometryNode.dispose]: nothing without a geometry or without a
    parent; else the geometry is disposed and dropped and every one-time
    handler is called and forgotten. *)
Definition node_dispose (node : nat) (w : World) : World :=
  match heap w !! node with
  | None => w
  | Some n =>
      match geometry n, parent n with
      | Some _, Some _ =>
          let w1 := emit (GeometryDispose node) w in
          let w2 := update node (set_geometry None) w1 in
          let w3 := update node (set_loaded false) w2 in
          let w4 := foldl (fun w h => emit (HandlerCall h) w) w3
                          (oneTimeDisposeHandlers n) in
          update node (set_oneTimeDisposeHandlers []) w4
      | _, _ => w
      end
  end.

(** The non-null children of a node, in slot order. *)
Definition child_refs (node : nat) (w : World) : list nat :=
  match heap w !! node with
  | Some n => omap (fun child => child) (children n)
  | None => []
  end.

(** The loop of [traverse]: the stack grows at its end; [None] when the fuel
    runs out before the stack is empty. *)
Fixpoint traverse_loop (fuel : nat) (cb : nat -> World -> World)
    (stack : list nat) (w : World) : option World :=
  match fuel with
  | O => None
  | S fuel' =>
      match last stack with
      | None => Some w
      | Some current =>
          let w' := cb current w in
          traverse_loop fuel' cb (removelast stack ++ child_refs current w') w'
      end
  end.

(** [traverse(cb, includeSelf)]; [includeSelf] is an optional parameter. *)
Definition traverse (fuel : nat) (this : nat) (cb : nat -> World -> World)
    (includeSelf : option bool) (w : World) : option World :=
  let stack := match includeSelf with Some true => [this] | _ => [] end in
  traverse_loop fuel cb stack w.

(** [OctreeGeometry.dispose]: [this.root?.traverse(node => node.dispose())]. *)
Definition dispose (fuel : nat) (w : World) : option World :=
  let w1 := loader_dispose w in
  let traversed := match root w1 with
                    | Some r => traverse fuel r node_dispose None w1
                    | None => Some w1
                    end in
  match traversed with
  | Some w2 =>
      Some {| heap := heap w2; idCount := idCount w2; workers := workers w2;
              workerCount := workerCount w2; loader_disposed := loader_disposed w2;
              root := root w2; octree_disposed := true; trace := trace w2 |}
  | None => None
  end.

(** *** [OctreeLoader.load], after the metadata is read *)

Definition empty_world : World :=
  {| heap := ∅; idCount := 0; workers := []; workerCount := 0;
     loader_disposed := false; root := None; octree_disposed := false;
     trace := [] |}.

(** The root: a proxy whose hierarchy chunk has the size the metadata gives. *)
Definition create_root (w : World) : nat * World :=
  let '(r, w1) := alloc "r" (octree_boundingBox octree) w in
  let w2 := update r (set_nodeType 2) w1 in
  let w3 := update r (set_hierarchyByteSize (firstChunkSize octree)) w2 in
  let w4 := update r (set_spacing (octree_spacing octree)) w3 in
  (r, {| heap := heap w4; idCount := idCount w4; workers := workers w4;
         workerCount := workerCount w4; loader_disposed := loader_disposed w4;
         root := Some r; octree_disposed := octree_disposed w4;
         trace := trace w4 |}).

Definition OctreeLoader_load (w : World) : World :=
  let '(r, w') := create_root w in load r w'.

End WithCollaborators.

End Loader.

(** ** Concrete data for the examples below *)

Module Examples.
Import JS Num DataView.

Definition vec (a b c : Z) : Decoder.Vector3 :=
  {| Decoder.x := of_Z a; Decoder.y := of_Z b; Decoder.z := of_Z c |}.

(** A stand-in for [createChildAABB]: the octant of a box picked by the bits
    of the child index. *)
Definition half (lo hi : number) (upper : bool) : number * number :=
  let mid := fadd lo (fdiv (fsub hi lo) (of_Z 2)) in
  if upper then (mid, hi) else (lo, mid).

Definition octant (b : Loader.Box3) (i : nat) : Loader.Box3 :=
  let lo := Loader.box_min b in
  let hi := Loader.box_max b in
  let '(x0, x1) := half (Decoder.x lo) (Decoder.x hi) (Nat.testbit i 2) in
  let '(y0, y1) := half (Decoder.y lo) (Decoder.y hi) (Nat.testbit i 1) in
  let '(z0, z1) := half (Decoder.z lo) (Decoder.z hi) (Nat.testbit i 0) in
  {| Loader.box_min := {| Decoder.x := x0; Decoder.y := y0; Decoder.z := z0 |};
     Loader.box_max := {| Decoder.x := x1; Decoder.y := y1; Decoder.z := z1 |} |}.

(** A stand-in for [getIndexFromName]: the last digit of the name. *)
Fixpoint last_digit (s : string) : Z :=
  match s with
  | EmptyString => 0%Z
  | String c EmptyString => (Z.of_nat (nat_of_ascii c) - 48)%Z
  | String _ s' => last_digit s'
  end.

(** A stand-in for [Box3.getBoundingSphere]: centred on the minimum corner. *)
Definition sphere_of (b : Loader.Box3) : Loader.Sphere :=
  {| Loader.center := Loader.box_min b; Loader.radius := zero |}.

Definition position_attribute : Decoder.PointAttributeType :=
  Decoder.new_PointAttributeType "position" Decoder.DATA_TYPE_INT32 3.

(** An octree over the box [0,3]^3 with a position-only schema. *)
Definition octree3 : Loader.OctreeGeometry :=
  {| Loader.octree_spacing := of_Z 8;
     Loader.octree_scale := vec 1 1 1;
     Loader.octree_offset := vec 0 0 0;
     Loader.octree_boundingBox :=
       {| Loader.box_min := vec 0 0 0; Loader.box_max := vec 3 3 3 |};
     Loader.octree_pointAttributes :=
       {| Decoder.attributes := [position_attribute]; Decoder.vectors := [] |};
     Loader.encoding := Loader.DEFAULT;
     Loader.firstChunkSize := 22 |}.

(** A hierarchy record: type, child mask, point count, byte offset and byte
    size (each below 256 here). *)
Definition record (type mask points off size : byte) : list byte :=
  [type; mask; points; x00; x00; x00;
   off; x00; x00; x00; x00; x00; x00; x00;
   size; x00; x00; x00; x00; x00; x00; x00].

(** One point with raw coordinates (1, 1, 1). *)
Definition one_point : list byte :=
  [x01; x00; x00; x00; x01; x00; x00; x00; x01; x00; x00; x00].

(** A transport serving a one-leaf hierarchy and a one-point payload. *)
Definition fetch_leaf (f : Loader.File) (first last : Z) : result ArrayBuffer :=
  match f with
  | Loader.hierarchy_bin => Ok (record x00 x00 x01 x00 x0c)
  | Loader.octree_bin => Ok one_point
  end.

(** A transport whose payload file cannot be read. *)
Definition fetch_no_payload (f : Loader.File) (first last : Z) : result ArrayBuffer :=
  match f with
  | Loader.hierarchy_bin => Ok (record x00 x00 x01 x00 x0c)
  | Loader.octree_bin => Throw NetworkError
  end.

(** A transport serving a root with one child (slot 0), both with one point. *)
Definition fetch_parent (f : Loader.File) (first last : Z) : result ArrayBuffer :=
  match f with
  | Loader.hierarchy_bin =>
      Ok ((record x01 x01 x01 x00 x0c ++ record x00 x00 x01 x0c x0c)%list)
  | Loader.octree_bin => Ok one_point
  end.


(** The world in which the root exists and nothing is loaded yet. *)
Definition created : Loader.World :=
  snd (Loader.create_root last_digit sphere_of octree3 Loader.empty_world).

(** The root as [created] holds it, under reference 0. *)
Definition root0 : Loader.OctreeGeometryNode :=
  Loader.set_spacing (Loader.octree_spacing octree3)
    (Loader.set_hierarchyByteSize (Loader.firstChunkSize octree3)
       (Loader.set_nodeType 2
          (Loader.new_OctreeGeometryNode last_digit sphere_of 0 "r"
             (Loader.octree_boundingBox octree3)))).

(** The state in which [parseHierarchy] enters its loop for the root. *)
Definition parse_start : Loader.Parse :=
  {| Loader.world := created; Loader.nodes := {[ 0 := 0 ]}; Loader.nodePos := 1 |}.

Definition start (fetch : Loader.File -> Z -> Z -> result ArrayBuffer) : Loader.World :=
  Loader.OctreeLoader_load octant last_digit sphere_of fetch octree3 Loader.empty_world.

Definition load (fetch : Loader.File -> Z -> Z -> result ArrayBuffer) :
  nat -> Loader.World -> Loader.World :=
  Loader.load octant last_digit sphere_of fetch octree3.

(** The message the worker gets for a node holding [one_point]. *)
Definition message_of (node : nat) (w : Loader.World) : option Decoder.MessageData :=
  match Loader.heap w !! node with
  | Some n => Some (Loader.make_message octree3 n one_point)
  | None => None
  end.

(** The world after the worker of [node] has answered. *)
Definition answered (node worker : nat) (w : Loader.World) : option Loader.World :=
  match message_of node w with
  | Some m =>
      match Decoder.handleMessage m with
      | Ok reply => Some (Loader.onmessage octree3 node worker reply w)
      | Throw _ => None
      end
  | None => None
  end.

(** The flags of a node. *)
Definition flags (node : nat) (w : Loader.World) : option (bool * bool * bool) :=
  match Loader.heap w !! node with
  | Some n => Some (Loader.loading n, Loader.loaded n, Loader.failed n)
  | None => None
  end.

Definition has_geometry (node : nat) (w : Loader.World) : option bool :=
  match Loader.heap w !! node with
  | Some n => Some (match Loader.geometry n with Some _ => true | None => false end)
  | None => None
  end.

End Examples.

(** * Reading from a view *)

Section Reads.
Import JS Num DataView.

Lemma read_bytes_ok (view : ArrayBuffer) off n :
  off + n <= length view -> read_bytes view off n = Ok (take n (drop off view)).
Proof.
  intros H. unfold read_bytes. rewrite (proj2 (Nat.leb_le _ _) H). reflexivity.
Qed.

Lemma read_bytes_throw (view : ArrayBuffer) off n :
  length view < off + n -> read_bytes view off n = Throw RangeError.
Proof.
  intros H. unfold read_bytes. rewrite (proj2 (Nat.leb_gt _ _) H). reflexivity.
Qed.

Lemma getInt32_ok (view : ArrayBuffer) off :
  off + 4 <= length view -> exists raw, getInt32 view off = Ok raw.
Proof. intros H. unfold getInt32. rewrite read_bytes_ok by lia. cbn. eauto. Qed.

Lemma getUint16_ok (view : ArrayBuffer) off :
  off + 2 <= length view -> exists raw, getUint16 view off = Ok raw.
Proof. intros H. unfold getUint16. rewrite read_bytes_ok by lia. cbn. eauto. Qed.

Lemma byteZ_range (b : byte) : (0 <= byteZ b < 256)%Z.
Proof. unfold byteZ. pose proof (Byte.to_N_bounded b). lia. Qed.

(** A 16-bit read is a value of 16 bits. *)
Lemma getUint16_range (view : ArrayBuffer) off v :
  getUint16 view off = Ok v -> (0 <= v < 65536)%Z.
Proof.
  unfold getUint16, read_bytes. destruct (off + 2 <=? length view) eqn:Hle; [|discriminate].
  cbn [bind]. intros H. injection H as <-. apply Nat.leb_le in Hle.
  destruct (drop off view) as [|b0 [|b1 rest]] eqn:Hd.
  - apply (f_equal length) in Hd. rewrite length_drop in Hd. cbn in Hd. lia.
  - apply (f_equal length) in Hd. rewrite length_drop in Hd. cbn in Hd. lia.
  - cbn -[byteZ]. change (take 0 rest) with (@nil byte). cbn [le_value].
    pose proof (byteZ_range b0). pose proof (byteZ_range b1). lia.
Qed.

Lemma foldM_seq_total {T} (f : nat -> T -> result T) (P : nat -> T -> Prop) n :
  forall a s,
  P a s ->
  (forall i t, a <= i < a + n -> P i t -> exists t', f i t = Ok t' /\ P (S i) t') ->
  exists s', foldM f (seq a n) s = Ok s' /\ P (a + n) s'.
Proof.
  induction n as [|n IH]; intros a s Hs Hstep; simpl.
  - exists s. rewrite Nat.add_0_r. auto.
  - destruct (Hstep a s) as (t & Hf & Ht); [lia|exact Hs|].
    rewrite Hf. simpl.
    replace (a + S n) with (S a + n) by lia.
    apply IH; [exact Ht|]. intros i u Hi. apply Hstep. lia.
Qed.

End Reads.

(** * Numbers that are integers *)

Section FloatFacts.
Import Num.

Local Open Scope Z_scope.

(** A mantissa of exactly 53 bits with an exponent in the normal range is
    left as it is by rounding. *)
Lemma binary_round_aux_exact (s : bool) (m : positive) (e : Z) :
  Zpos (digits2_pos m) = 53 -> -1074 <= e <= 971 ->
  binary_round_aux prec emax s (Zpos m) e loc_Exact = S754_finite s m e.
Proof.
  intros Hd He. unfold binary_round_aux, shr_fexp, Zdigits2, prec, emax.
  cbn [shr_record_of_loc]. rewrite Hd.
  assert (fexp 53 1024 (53 + e) - e = 0) as ->.
  { unfold fexp, emin. lia. }
  cbn [shr shr_m loc_of_shr_record round_nearest_even Zdigits2]. rewrite Hd.
  assert (fexp 53 1024 (53 + e) - e = 0) as ->.
  { unfold fexp, emin. lia. }
  cbn [shr shr_m].
  destruct (Z.leb_spec e (1024 - 53)); [reflexivity|lia].
Qed.

Lemma digits2_iter_xO (p : positive) (k : positive) :
  Zpos (digits2_pos (Pos.iter xO p k)) = Zpos (digits2_pos p) + Zpos k.
Proof.
  induction k as [|k IH] using Pos.peano_ind.
  - cbn. lia.
  - rewrite Pos.iter_succ. cbn [digits2_pos]. lia.
Qed.

Lemma iter_xO_mul (p k : positive) : Zpos (Pos.iter xO p k) = Zpos p * 2 ^ Zpos k.
Proof.
  induction k as [|k IH] using Pos.peano_ind.
  - cbn. lia.
  - rewrite Pos.iter_succ, Pos2Z.inj_xO, IH, Pos2Z.inj_succ, Z.pow_succ_r by lia. lia.
Qed.

(** A mantissa of at most 53 bits whose exponent, once the mantissa is
    shifted up to 53 bits, stays in the normal range, is a number as it is. *)
Lemma binary_round_pos (s : bool) (p : positive) (e0 : Z) :
  Zpos (digits2_pos p) <= 53 ->
  -1074 <= e0 + Zpos (digits2_pos p) - 53 <= 971 ->
  exists m e,
    binary_round prec emax s p e0 = S754_finite s m e
    /\ Zpos (digits2_pos m) = 53 /\ e = e0 + Zpos (digits2_pos p) - 53
    /\ Zpos m = Zpos p * 2 ^ (e0 - e).
Proof.
  intros Hd He. unfold binary_round, shl_align, prec, emax.
  assert (fexp 53 1024 (Zpos (digits2_pos p) + e0) = e0 + Zpos (digits2_pos p) - 53) as ->.
  { unfold fexp, emin. lia. }
  destruct (e0 + Zpos (digits2_pos p) - 53 - e0) as [|k|k] eqn:Hk; [|lia|].
  - exists p, e0. split; [|split; [lia|split; [lia|]]].
    + apply binary_round_aux_exact; lia.
    + rewrite Z.sub_diag. cbn. lia.
  - exists (Pos.iter xO p k), (e0 + Zpos (digits2_pos p) - 53).
    pose proof (digits2_iter_xO p k) as Hdig.
    split; [|split; [lia|split; [lia|]]].
    + apply binary_round_aux_exact; lia.
    + rewrite iter_xO_mul. f_equal. f_equal. lia.
Qed.

(** The number of an integer of at most 53 bits: the integer itself, with
    its mantissa shifted up to 53 bits. *)
Lemma of_Z_pos (p : positive) :
  Zpos (digits2_pos p) <= 53 ->
  exists m e,
    of_Z (Zpos p) = S754_finite false m e
    /\ Zpos (digits2_pos m) = 53 /\ -52 <= e <= 0
    /\ Zpos m = Zpos p * 2 ^ (- e).
Proof.
  intros Hd. pose proof (Pos2Z.is_pos (digits2_pos p)) as Hpos.
  destruct (binary_round_pos false p 0 Hd) as (m & e & H & Hm & He & Hv); [lia|].
  exists m, e. split; [exact H|]. split; [exact Hm|]. split; [lia|].
  rewrite Hv. reflexivity.
Qed.

Lemma digits2_bounds (p : positive) :
  2 ^ (Zpos (digits2_pos p) - 1) <= Zpos p < 2 ^ Zpos (digits2_pos p).
Proof.
  assert (forall d, 0 < d -> 2 ^ d = 2 * 2 ^ (d - 1)) as Hpow.
  { intros d Hd. rewrite <- Z.pow_succ_r by lia. f_equal. lia. }
  induction p as [p IH|p IH|]; cbn [digits2_pos].
  - rewrite Pos2Z.inj_succ.
    replace (Z.succ (Zpos (digits2_pos p)) - 1) with (Zpos (digits2_pos p)) by lia.
    rewrite (Hpow (Z.succ _)) by lia.
    replace (Z.succ (Zpos (digits2_pos p)) - 1) with (Zpos (digits2_pos p)) by lia.
    rewrite (Hpow (Zpos (digits2_pos p))) in * by lia.
    clear Hpow. set (X := 2 ^ (Zpos (digits2_pos p) - 1)) in *. clearbody X. lia.
  - rewrite Pos2Z.inj_succ.
    replace (Z.succ (Zpos (digits2_pos p)) - 1) with (Zpos (digits2_pos p)) by lia.
    rewrite (Hpow (Z.succ _)) by lia.
    replace (Z.succ (Zpos (digits2_pos p)) - 1) with (Zpos (digits2_pos p)) by lia.
    rewrite (Hpow (Zpos (digits2_pos p))) in * by lia.
    clear Hpow. set (X := 2 ^ (Zpos (digits2_pos p) - 1)) in *. clearbody X. lia.
  - cbn. lia.
Qed.

Lemma digits2_le (p : positive) (d : Z) :
  0 <= d -> Zpos p < 2 ^ d -> Zpos (digits2_pos p) <= d.
Proof.
  intros Hd Hp. destruct (Z.le_gt_cases (Zpos (digits2_pos p)) d) as [|Hgt]; [assumption|].
  pose proof (digits2_bounds p) as [Hlo _].
  assert (2 ^ d <= 2 ^ (Zpos (digits2_pos p) - 1)) by (apply Z.pow_le_mono_r; lia).
  lia.
Qed.

(** The integer part of a finite number. *)
Lemma truncZ_finite (m : positive) (e : Z) :
  e <= 0 -> truncZ (S754_finite false m e) = Zpos m / 2 ^ (- e).
Proof.
  intros He. unfold truncZ. destruct e as [|q|q]; [|lia|].
  - cbn. rewrite Z.div_1_r. reflexivity.
  - rewrite Z.shiftr_div_pow2 by lia. reflexivity.
Qed.

(** Integers below 2^53 are numbers: converting and truncating gives the
    integer back. *)
Lemma truncZ_of_Z (z : Z) : 0 <= z < 2 ^ 53 -> truncZ (of_Z z) = z.
Proof.
  intros Hz. destruct z as [|p|p]; [reflexivity| |lia].
  destruct (of_Z_pos p) as (m & e & -> & _ & He & Hm).
  { apply digits2_le; lia. }
  rewrite truncZ_finite by lia. rewrite Hm. apply Z.div_mul.
  apply Z.pow_nonzero; lia.
Qed.

Lemma of_Z_256 : of_Z 256 = S754_finite false 4503599627370496 (-44).
Proof. reflexivity. Qed.

(** Dividing a 53-bit number by 256 lowers its exponent by 8. *)
Lemma fdiv_256 (m : positive) (e : Z) :
  Zpos (digits2_pos m) = 53 -> -52 <= e <= 0 ->
  fdiv (S754_finite false m e) (of_Z 256) = S754_finite false m (e - 8).
Proof.
  intros Hd He. rewrite of_Z_256. unfold fdiv, SFdiv, prec, emax. cbn [xorb].
  assert (SFdiv_core_binary 53 1024 (Zpos m) e 4503599627370496 (-44)
          = (Zpos m~0, e - 9, loc_Exact)) as ->.
  { unfold SFdiv_core_binary, Zdigits2. rewrite Hd.
    change (Zpos (digits2_pos 4503599627370496)) with 53.
    assert (Z.min (fexp 53 1024 (53 + e - (53 + -44))) (e - -44) = e - 9) as ->.
    { unfold fexp, emin. lia. }
    assert (e - -44 - (e - 9) = 53) as -> by lia.
    destruct (Z.div_eucl (Z.shiftl (Zpos m) 53) 4503599627370496) as [q r] eqn:E.
    assert (q = Z.shiftl (Zpos m) 53 / 4503599627370496) as Hq
      by (unfold Z.div; rewrite E; reflexivity).
    assert (r = Z.shiftl (Zpos m) 53 mod 4503599627370496) as Hr
      by (unfold Z.modulo; rewrite E; reflexivity).
    rewrite Z.shiftl_mul_pow2 in Hq, Hr by lia.
    change (2 ^ 53) with (2 * 4503599627370496) in Hq, Hr.
    rewrite Z.mul_assoc in Hq, Hr.
    rewrite Z.div_mul in Hq by lia. rewrite Z.mod_mul in Hr by lia.
    subst q r. replace (Zpos m * 2) with (Zpos m~0) by lia. reflexivity. }
  unfold binary_round_aux, shr_fexp, Zdigits2. cbn [shr_record_of_loc digits2_pos].
  rewrite Pos2Z.inj_succ, Hd.
  assert (fexp 53 1024 (Z.succ 53 + (e - 9)) - (e - 9) = 1) as ->.
  { unfold fexp, emin. lia. }
  cbn [shr SpecFloat.iter_pos shr_1 orb shr_m loc_of_shr_record round_nearest_even Zdigits2].
  rewrite Hd.
  assert (fexp 53 1024 (53 + (e - 9 + 1)) - (e - 9 + 1) = 0) as ->.
  { unfold fexp, emin. lia. }
  cbn [shr shr_m].
  destruct (Z.leb_spec (e - 9 + 1) (1024 - 53)); [|lia].
  f_equal. lia.
Qed.


(** [r > 255 ? r / 256 : r] stored in a [Uint8Array], for a 16-bit [r]:
    the quotient by 256 above 255, the value itself otherwise. *)
Lemma color_channel_value (v : Z) :
  0 <= v < 65536 ->
  Decoder.color_channel v = if 255 <? v then v / 256 else v.
Proof.
  intros Hv. unfold Decoder.color_channel, ToUint8.
  destruct (Z.ltb_spec 255 v) as [Hbig|Hsmall].
  - destruct v as [|p|p]; try lia.
    destruct (of_Z_pos p) as (m & e & -> & Hd & He & Hm).
    { apply digits2_le; lia. }
    rewrite fdiv_256 by assumption. rewrite truncZ_finite by lia. rewrite Hm.
    replace (- (e - 8)) with (8 + - e) by lia.
    rewrite Z.pow_add_r by lia.
    rewrite Z.div_mul_cancel_r by (try apply Z.pow_nonzero; lia).
    change (2 ^ 8) with 256. apply Z.mod_small. split.
    + apply Z.div_pos; lia.
    + apply Z.div_lt_upper_bound; lia.
  - rewrite truncZ_of_Z by lia. apply Z.mod_small. lia.
Qed.

(** ** Numbers the getters return *)

Definition valid (v : number) : bool := valid_binary prec emax v.

Lemma fsub_zero (v : number) : fsub v (of_Z 0) = v.
Proof. destruct v as [[]|[]| |s m e]; reflexivity. Qed.

Lemma iter_pos_iter {A} (f : A -> A) (n : positive) (x : A) :
  SpecFloat.iter_pos f n x = Pos.iter f x n.
Proof.
  revert x. induction n as [n IH|n IH|]; intros x; cbn [SpecFloat.iter_pos Pos.iter].
  - rewrite !IH. rewrite <- Pos.iter_swap. rewrite <- Pos.iter_swap. reflexivity.
  - rewrite !IH. reflexivity.
  - reflexivity.
Qed.

(** Shifting right the bits that a shift to the left added loses nothing. *)
Lemma shr_iter_xO (m k : positive) :
  SpecFloat.iter_pos shr_1 k
    {| shr_m := Zpos (Pos.iter xO m k); shr_r := false; shr_s := false |}
  = {| shr_m := Zpos m; shr_r := false; shr_s := false |}.
Proof.
  rewrite iter_pos_iter.
  induction k as [|k IH] using Pos.peano_ind.
  - reflexivity.
  - rewrite Pos.iter_succ_r, Pos.iter_succ. cbn [shr_1 orb]. exact IH.
Qed.

Lemma of_Z_1 : of_Z 1 = S754_finite false 4503599627370496 (-52).
Proof. reflexivity. Qed.

(** [v * 1] is [v]. *)
Lemma fmul_one (v : number) : valid v = true -> fmul v (of_Z 1) = v.
Proof.
  intros Hv. rewrite of_Z_1. destruct v as [[]|[]| |s m e]; try reflexivity.
  unfold valid, valid_binary, bounded, canonical_mantissa, prec, emax in Hv.
  apply andb_prop in Hv. destruct Hv as [Hc Hb].
  apply Z.eqb_eq in Hc. apply Z.leb_le in Hb.
  unfold fmul, SFmul. rewrite xorb_false_r.
  assert (m * 4503599627370496 = Pos.iter xO m 52)%positive as ->.
  { apply Pos2Z.inj. rewrite iter_xO_mul, Pos2Z.inj_mul. reflexivity. }
  unfold binary_round_aux, shr_fexp, Zdigits2, prec, emax.
  cbn [shr_record_of_loc]. rewrite digits2_iter_xO.
  replace (Zpos (digits2_pos m) + 52 + (e + -52)) with (Zpos (digits2_pos m) + e) by lia.
  rewrite Hc. replace (e - (e + -52)) with 52 by lia.
  cbn [shr]. rewrite shr_iter_xO.
  cbn [shr_m loc_of_shr_record round_nearest_even Zdigits2].
  replace (e + -52 + 52) with e by lia. rewrite Hc, Z.sub_diag.
  cbn [shr shr_m].
  destruct (Z.leb_spec e (1024 - 53)); [reflexivity|lia].
Qed.

Lemma valid_normal (s : bool) (m : positive) (e : Z) :
  Zpos (digits2_pos m) = 53 -> -1074 <= e <= 971 -> valid (S754_finite s m e) = true.
Proof.
  intros Hd He. unfold valid, valid_binary, bounded, canonical_mantissa, prec, emax.
  rewrite Hd. apply andb_true_intro. split.
  - apply Z.eqb_eq. unfold fexp, emin. lia.
  - apply Z.leb_le. lia.
Qed.

Lemma valid_binary_round (s : bool) (p : positive) (e0 : Z) :
  Zpos (digits2_pos p) <= 53 ->
  -1074 <= e0 + Zpos (digits2_pos p) - 53 <= 971 ->
  valid (binary_round prec emax s p e0) = true.
Proof.
  intros Hd He. destruct (binary_round_pos s p e0 Hd He) as (m & e & -> & Hm & -> & _).
  apply valid_normal; assumption.
Qed.

(** Every integer of at most 53 bits is a number. *)
Lemma valid_of_Z (z : Z) : - 2 ^ 53 < z < 2 ^ 53 -> valid (of_Z z) = true.
Proof.
  intros Hz. unfold of_Z, binary_normalize.
  destruct z as [|p|p]; [reflexivity| |].
  - assert (Zpos (digits2_pos p) <= 53) by (apply digits2_le; lia).
    pose proof (Pos2Z.is_pos (digits2_pos p)).
    apply valid_binary_round; lia.
  - assert (Zpos (digits2_pos p) <= 53) by (apply digits2_le; lia).
    pose proof (Pos2Z.is_pos (digits2_pos p)).
    apply valid_binary_round; lia.
Qed.

Lemma digits2_ge (p : positive) (d : Z) :
  2 ^ d <= Zpos p -> d < Zpos (digits2_pos p).
Proof.
  intros Hp. destruct (Z.lt_ge_cases d (Zpos (digits2_pos p))) as [|Hge]; [assumption|].
  pose proof (digits2_bounds p) as [_ Hhi].
  assert (2 ^ Zpos (digits2_pos p) <= 2 ^ d) by (apply Z.pow_le_mono_r; lia).
  lia.
Qed.

Lemma land_ones_range (a n : Z) : 0 <= n -> 0 <= Z.land a (Z.ones n) < 2 ^ n.
Proof.
  intros Hn. rewrite Z.land_ones by exact Hn. apply Z.mod_pos_bound.
  apply Z.pow_pos_nonneg; lia.
Qed.

(** The value of every 32-bit pattern is a number. *)
Lemma valid_decode_f32 (bits : Z) : valid (decode_f32 bits) = true.
Proof.
  unfold decode_f32.
  assert (0 <= Z.land (Z.shiftr bits 23) 255 < 256) as Hex
    by exact (land_ones_range (Z.shiftr bits 23) 8 ltac:(lia)).
  assert (0 <= Z.land bits 8388607 < 8388608) as Hfr
    by exact (land_ones_range bits 23 ltac:(lia)).
  set (ex := Z.land (Z.shiftr bits 23) 255) in *.
  set (fr := Z.land bits 8388607) in *. clearbody ex fr.
  destruct (Z.eqb_spec ex 255) as [|Hne].
  { destruct (fr =? 0); reflexivity. }
  destruct (Z.eqb_spec ex 0) as [H0|H0].
  - destruct fr as [|m|m]; try reflexivity.
    assert (Zpos (digits2_pos m) <= 23) by (apply digits2_le; lia).
    pose proof (Pos2Z.is_pos (digits2_pos m)).
    apply valid_binary_round; lia.
  - destruct (fr + 8388608) as [|m|m] eqn:Hm; try reflexivity.
    assert (Zpos (digits2_pos m) <= 24) by (apply digits2_le; lia).
    pose proof (Pos2Z.is_pos (digits2_pos m)).
    apply valid_binary_round; lia.
Qed.

(** The value of every 64-bit pattern is a number. *)
Lemma valid_decode_f64 (bits : Z) : valid (decode_f64 bits) = true.
Proof.
  unfold decode_f64.
  assert (0 <= Z.land (Z.shiftr bits 52) 2047 < 2048) as Hex
    by exact (land_ones_range (Z.shiftr bits 52) 11 ltac:(lia)).
  assert (0 <= Z.land bits 4503599627370495 < 4503599627370496) as Hfr
    by exact (land_ones_range bits 52 ltac:(lia)).
  set (ex := Z.land (Z.shiftr bits 52) 2047) in *.
  set (fr := Z.land bits 4503599627370495) in *. clearbody ex fr.
  destruct (Z.eqb_spec ex 2047) as [|Hne].
  { destruct (fr =? 0); reflexivity. }
  destruct (Z.eqb_spec ex 0) as [H0|H0].
  - destruct fr as [|m|m]; try reflexivity.
    assert (Zpos (digits2_pos m) <= 52) by (apply digits2_le; lia).
    pose proof (Pos2Z.is_pos (digits2_pos m)).
    unfold valid, valid_binary, bounded, canonical_mantissa, prec, emax.
    apply andb_true_intro. split; [|reflexivity].
    apply Z.eqb_eq. unfold fexp, emin. lia.
  - destruct (fr + 4503599627370496) as [|m|m] eqn:Hm; try reflexivity.
    assert (Zpos (digits2_pos m) <= 53) by (apply digits2_le; lia).
    assert (52 < Zpos (digits2_pos m)) by (apply digits2_ge; change (2 ^ 52) with 4503599627370496; lia).
    apply valid_normal; lia.
Qed.

Lemma to_signed_range (bits u : Z) :
  0 < bits -> 0 <= u < 2 ^ bits -> - 2 ^ bits <= to_signed bits u < 2 ^ bits.
Proof.
  intros Hb Hu. unfold to_signed.
  assert (0 < 2 ^ bits) by (apply Z.pow_pos_nonneg; lia).
  destruct (u <? 2 ^ (bits - 1)); lia.
Qed.

End FloatFacts.

(** * What the getters return *)

Section GetterFacts.
Import JS Num DataView Decoder.

Local Open Scope Z_scope.

Lemma le_value_range (bs : list byte) : 0 <= le_value bs < 256 ^ Z.of_nat (length bs).
Proof.
  induction bs as [|b bs IH].
  - cbn. lia.
  - cbn [le_value length]. rewrite Nat2Z.inj_succ, Z.pow_succ_r by lia.
    pose proof (byteZ_range b). lia.
Qed.

Lemma read_bytes_length (view : ArrayBuffer) (off n : nat) bs :
  read_bytes view off n = Ok bs -> length bs = n.
Proof.
  unfold read_bytes. destruct (off + n <=? length view)%nat eqn:Hle; [|discriminate].
  intros H. injection H as <-. apply Nat.leb_le in Hle.
  rewrite length_take, length_drop. lia.
Qed.

(** An integer getter of [n <= 4] bytes, signed or not, returns a number. *)
Lemma valid_unsigned (view : ArrayBuffer) (off n : nat) bs :
  (n <= 4)%nat -> read_bytes view off n = Ok bs -> valid (of_Z (le_value bs)) = true.
Proof.
  intros Hn Hr. apply read_bytes_length in Hr.
  pose proof (le_value_range bs) as Hv. rewrite Hr in Hv.
  assert (256 ^ Z.of_nat n <= 256 ^ 4) by (apply Z.pow_le_mono_r; lia).
  apply valid_of_Z. change (256 ^ 4) with 4294967296 in *.
  change (2 ^ 53) with 9007199254740992. lia.
Qed.

Lemma valid_signed (view : ArrayBuffer) (off n : nat) bs :
  (0 < n <= 4)%nat -> read_bytes view off n = Ok bs ->
  valid (of_Z (to_signed (8 * Z.of_nat n) (le_value bs))) = true.
Proof.
  intros Hn Hr. apply read_bytes_length in Hr.
  pose proof (le_value_range bs) as Hv. rewrite Hr in Hv.
  assert (256 ^ Z.of_nat n = 2 ^ (8 * Z.of_nat n)) as E.
  { change 256 with (2 ^ 8). rewrite <- Z.pow_mul_r by lia. reflexivity. }
  rewrite E in Hv.
  pose proof (to_signed_range (8 * Z.of_nat n) (le_value bs) ltac:(lia) Hv) as Hs.
  assert (2 ^ (8 * Z.of_nat n) <= 2 ^ 32) by (apply Z.pow_le_mono_r; lia).
  apply valid_of_Z. change (2 ^ 32) with 4294967296 in *.
  change (2 ^ 53) with 9007199254740992. lia.
Qed.

(** Every value a getter of [getterMap] returns is a number in canonical
    form. *)
Lemma getter_valid (t : DataType) getter (view : ArrayBuffer) (off : nat) v :
  getterMap t = Some getter -> getter view off = Ok v -> valid v = true.
Proof.
  intros Hg Hv.
  destruct t; cbn in Hg; try discriminate; injection Hg as <-;
    unfold as_number, getInt8, getInt16, getInt32, getUint8, getUint16, getUint32,
           getFloat32, getFloat64 in Hv;
    match type of Hv with
    | context [read_bytes ?b ?o ?n] => destruct (read_bytes b o n) as [bs|] eqn:Hr
    end; cbn [bind] in Hv; try discriminate; injection Hv as <-.
  - apply valid_decode_f64.
  - apply valid_decode_f32.
  - apply (valid_signed view off 1 bs); [lia|exact Hr].
  - apply (valid_unsigned view off 1 bs); [lia|exact Hr].
  - apply (valid_signed view off 2 bs); [lia|exact Hr].
  - apply (valid_unsigned view off 2 bs); [lia|exact Hr].
  - apply (valid_signed view off 4 bs); [lia|exact Hr].
  - apply (valid_unsigned view off 4 bs); [lia|exact Hr].
Qed.

(** The display value of a narrow attribute: [(value - 0) * 1] is [value]. *)
Lemma narrow_display (t : DataType) getter (view : ArrayBuffer) (off : nat) v :
  getterMap t = Some getter -> getter view off = Ok v ->
  fmul (fsub v (of_Z 0)) (of_Z 1) = v.
Proof.
  intros Hg Hv. rewrite fsub_zero. apply fmul_one. eapply getter_valid; eauto.
Qed.

End GetterFacts.

(** * Values that survive the typed arrays *)

Section StoredValues.
Import JS Num DataView Decoder.

Local Open Scope Z_scope.

(** The integer part of a finite number of either sign. *)
Lemma truncZ_signed (s : bool) (m : positive) (e : Z) :
  e <= 0 ->
  truncZ (S754_finite s m e) = if s then - (Zpos m / 2 ^ (- e)) else Zpos m / 2 ^ (- e).
Proof.
  intros He. unfold truncZ. destruct e as [|q|q]; [|lia|].
  - cbn. rewrite Z.div_1_r. reflexivity.
  - rewrite Z.shiftr_div_pow2 by lia. reflexivity.
Qed.

(** Integers of at most 53 bits, of either sign, are numbers. *)
Lemma truncZ_of_Z_signed (z : Z) : - 2 ^ 53 < z < 2 ^ 53 -> truncZ (of_Z z) = z.
Proof.
  intros Hz. destruct z as [|p|p]; [reflexivity|apply truncZ_of_Z; lia|].
  unfold of_Z, binary_normalize.
  assert (Zpos (digits2_pos p) <= 53) as Hd by (apply digits2_le; lia).
  pose proof (Pos2Z.is_pos (digits2_pos p)) as Hpos.
  destruct (binary_round_pos true p 0 Hd) as (m & e & -> & _ & He & Hm); [lia|].
  rewrite truncZ_signed by lia. rewrite Hm.
  replace (0 - e) with (- e) by lia.
  rewrite Z.div_mul by (apply Z.pow_nonzero; lia). reflexivity.
Qed.

(** A signed store gives back the signed value that was read. *)
Lemma to_signed_mod (bits u : Z) :
  0 < bits -> 0 <= u < 2 ^ bits ->
  to_signed bits (to_signed bits u mod 2 ^ bits) = to_signed bits u.
Proof.
  intros Hb Hu. assert (to_signed bits u mod 2 ^ bits = u) as ->; [|reflexivity].
  unfold to_signed. destruct (u <? 2 ^ (bits - 1)).
  - apply Z.mod_small. exact Hu.
  - replace (u - 2 ^ bits) with (u + (-1) * 2 ^ bits) by lia.
    rewrite Z.mod_add by lia. apply Z.mod_small. exact Hu.
Qed.

Lemma to_signed_bounds (bits u : Z) :
  0 < bits -> 0 <= u < 2 ^ bits ->
  - 2 ^ (bits - 1) <= to_signed bits u < 2 ^ (bits - 1).
Proof.
  intros Hb Hu. unfold to_signed.
  assert (2 ^ bits = 2 * 2 ^ (bits - 1)) as E.
  { rewrite <- Z.pow_succ_r by lia. f_equal. lia. }
  destruct (Z.ltb_spec u (2 ^ (bits - 1))); lia.
Qed.

(** ** Numbers that are 32-bit floats *)

(** A 53-bit mantissa whose bits below the 32-bit format's last place are
    zero is left as it is by the rounding to 32 bits. *)
Lemma fround_fixed (s : bool) (M m1 : positive) (E k : Z) :
  Zpos (digits2_pos M) = 53 ->
  0 < k ->
  fexp 24 128 (53 + E) - E = k ->
  Zpos M = Zpos m1 * 2 ^ k ->
  -1074 <= E -> E + k <= 104 ->
  fround (S754_finite s M E) = S754_finite s M E.
Proof.
  intros Hd Hk Hfexp HM HE1 HE2.
  destruct k as [|kp|kp]; try lia.
  assert (M = Pos.iter xO m1 kp) as ->.
  { apply Pos2Z.inj. rewrite iter_xO_mul. exact HM. }
  clear HM. rewrite digits2_iter_xO in Hd.
  unfold fround.
  assert (binary_round 24 128 s (Pos.iter xO m1 kp) E = S754_finite s m1 (E + Zpos kp)) as ->.
  { unfold binary_round, shl_align.
    rewrite digits2_iter_xO.
    replace (Zpos (digits2_pos m1) + Zpos kp + E) with (53 + E) by lia.
    replace (fexp 24 128 (53 + E) - E) with (Zpos kp) by lia.
    unfold binary_round_aux, shr_fexp, Zdigits2. cbn [shr_record_of_loc].
    rewrite digits2_iter_xO.
    replace (Zpos (digits2_pos m1) + Zpos kp + E) with (53 + E) by lia.
    replace (fexp 24 128 (53 + E) - E) with (Zpos kp) by lia.
    cbn [shr]. rewrite shr_iter_xO.
    cbn [shr_m loc_of_shr_record round_nearest_even Zdigits2 shr_r shr_s].
    replace (Zpos (digits2_pos m1) + (E + Zpos kp)) with (53 + E) by lia.
    replace (fexp 24 128 (53 + E) - (E + Zpos kp)) with 0 by lia.
    cbn [shr shr_m].
    destruct (Z.leb_spec (E + Zpos kp) (128 - 24)); [reflexivity|lia]. }
  destruct (binary_round_pos s m1 (E + Zpos kp)) as (m' & e' & -> & Hm' & He' & Hv);
    [lia|lia|].
  assert (e' = E) as -> by lia. f_equal.
  apply Pos2Z.inj. rewrite Hv, iter_xO_mul. f_equal. f_equal. lia.
Qed.

(** The value of a 32-bit pattern is a 32-bit float. *)
Lemma fround_decode_f32 (bits : Z) : fround (decode_f32 bits) = decode_f32 bits.
Proof.
  unfold decode_f32.
  assert (0 <= Z.land (Z.shiftr bits 23) 255 < 256) as Hex
    by exact (land_ones_range (Z.shiftr bits 23) 8 ltac:(lia)).
  assert (0 <= Z.land bits 8388607 < 8388608) as Hfr
    by exact (land_ones_range bits 23 ltac:(lia)).
  set (ex := Z.land (Z.shiftr bits 23) 255) in *.
  set (fr := Z.land bits 8388607) in *. clearbody ex fr.
  destruct (Z.eqb_spec ex 255) as [|Hne].
  { destruct (fr =? 0); reflexivity. }
  destruct (Z.eqb_spec ex 0) as [H0|H0].
  - destruct fr as [|m|m]; try reflexivity.
    assert (Zpos (digits2_pos m) <= 23) as Hd by (apply digits2_le; lia).
    pose proof (Pos2Z.is_pos (digits2_pos m)) as Hpos.
    destruct (binary_round_pos (Z.testbit bits 31) m (-149))
      as (M & E & -> & HM & HE & Hv); [lia|lia|].
    apply (fround_fixed _ M m E (-149 - E)); try lia.
    unfold fexp, emin. lia.
  - destruct (fr + 8388608) as [|m|m] eqn:Hm; try reflexivity.
    assert (Zpos (digits2_pos m) <= 24) as Hd by (apply digits2_le; lia).
    assert (23 < Zpos (digits2_pos m)) as Hd'
      by (apply digits2_ge; change (2 ^ 23) with 8388608; lia).
    destruct (binary_round_pos (Z.testbit bits 31) m (ex - 150))
      as (M & E & -> & HM & HE & Hv); [lia|lia|].
    apply (fround_fixed _ M m E (ex - 150 - E)); try lia.
    unfold fexp, emin. lia.
Qed.

(** An integer of at most 24 bits is a 32-bit float. *)
Lemma fround_of_Z (z : Z) : - 2 ^ 24 < z < 2 ^ 24 -> fround (of_Z z) = of_Z z.
Proof.
  intros Hz. unfold of_Z, binary_normalize.
  assert (forall s p, Zpos p < 2 ^ 24 ->
            fround (binary_round prec emax s p 0) = binary_round prec emax s p 0) as H.
  { intros s p Hp.
    assert (Zpos (digits2_pos p) <= 24) as Hd by (apply digits2_le; lia).
    pose proof (Pos2Z.is_pos (digits2_pos p)) as Hpos.
    destruct (binary_round_pos s p 0) as (M & E & -> & HM & HE & Hv); [lia|lia|].
    apply (fround_fixed _ M (Z.to_pos (Zpos p * 2 ^ (24 - Zpos (digits2_pos p)))) E 29);
      try lia.
    - unfold fexp, emin. lia.
    - rewrite Z2Pos.id.
      + rewrite Hv, <- Z.mul_assoc, <- Z.pow_add_r by lia. f_equal. f_equal. lia.
      + apply Z.mul_pos_pos; [lia|]. apply Z.pow_pos_nonneg; lia. }
  destruct z as [|p|p]; [reflexivity| |]; apply H; lia.
Qed.

(** ** What the getters return *)

(** The value an integer getter of [n <= 4] bytes returns, stored in the
    typed array of its kind, is read back as it is. *)
Lemma unsigned_stored (view : ArrayBuffer) (off n : nat) bs (modulus : Z) :
  (n <= 4)%nat -> read_bytes view off n = Ok bs -> modulus = 256 ^ Z.of_nat n ->
  truncZ (of_Z (le_value bs)) mod modulus = le_value bs.
Proof.
  intros Hn Hr ->. apply read_bytes_length in Hr.
  pose proof (le_value_range bs) as Hv. rewrite Hr in Hv.
  assert (256 ^ Z.of_nat n <= 256 ^ 4) by (apply Z.pow_le_mono_r; lia).
  change (256 ^ 4) with 4294967296 in *.
  rewrite truncZ_of_Z_signed by (change (2 ^ 53) with 9007199254740992; lia).
  apply Z.mod_small. exact Hv.
Qed.

Lemma signed_stored (view : ArrayBuffer) (off n : nat) bs (bits : Z) :
  (0 < n <= 4)%nat -> read_bytes view off n = Ok bs -> bits = 8 * Z.of_nat n ->
  to_signed bits (truncZ (of_Z (to_signed bits (le_value bs))) mod 2 ^ bits)
  = to_signed bits (le_value bs).
Proof.
  intros Hn Hr ->. apply read_bytes_length in Hr.
  pose proof (le_value_range bs) as Hv. rewrite Hr in Hv.
  assert (256 ^ Z.of_nat n = 2 ^ (8 * Z.of_nat n)) as E.
  { change 256 with (2 ^ 8). rewrite <- Z.pow_mul_r by lia. reflexivity. }
  rewrite E in Hv.
  pose proof (to_signed_range (8 * Z.of_nat n) (le_value bs) ltac:(lia) Hv) as Hs.
  assert (2 ^ (8 * Z.of_nat n) <= 2 ^ 32) by (apply Z.pow_le_mono_r; lia).
  change (2 ^ 32) with 4294967296 in *.
  rewrite truncZ_of_Z_signed by (change (2 ^ 53) with 9007199254740992; lia).
  apply to_signed_mod; [lia|exact Hv].
Qed.

(** Every value a getter returns is kept exactly by the typed array
    [typedArrayMapping] gives for its kind. *)
Lemma getter_value_stored (t : DataType) getter (view : ArrayBuffer) (off : nat) v :
  getterMap t = Some getter -> getter view off = Ok v ->
  typed_store (typedArrayMapping t) v = v.
Proof.
  intros Hg Hv.
  destruct t; cbn in Hg; try discriminate; injection Hg as <-;
    unfold as_number, getInt8, getInt16, getInt32, getUint8, getUint16, getUint32,
           getFloat32, getFloat64 in Hv;
    match type of Hv with
    | context [read_bytes ?b ?o ?n] => destruct (read_bytes b o n) as [bs|] eqn:Hr
    end; cbn [bind] in Hv; try discriminate; injection Hv as <-;
    cbn [typedArrayMapping typed_store]; unfold ToUint8, ToUint16, ToUint32.
  - reflexivity.
  - apply fround_decode_f32.
  - f_equal. apply (signed_stored view off 1 bs 8); [lia|exact Hr|reflexivity].
  - f_equal. apply (unsigned_stored view off 1 bs); [lia|exact Hr|reflexivity].
  - f_equal. apply (signed_stored view off 2 bs 16); [lia|exact Hr|reflexivity].
  - f_equal. apply (unsigned_stored view off 2 bs); [lia|exact Hr|reflexivity].
  - f_equal. apply (signed_stored view off 4 bs 32); [lia|exact Hr|reflexivity].
  - f_equal. apply (unsigned_stored view off 4 bs); [lia|exact Hr|reflexivity].
Qed.

(** The kinds whose every value is a 32-bit float: the float itself and the
    integers of at most 16 bits. *)
Definition fits_float32 (t : DataType) : bool :=
  match t with
  | DATA_TYPE_FLOAT | DATA_TYPE_INT8 | DATA_TYPE_UINT8
  | DATA_TYPE_INT16 | DATA_TYPE_UINT16 => true
  | _ => false
  end.

Lemma getter_value_float32 (t : DataType) getter (view : ArrayBuffer) (off : nat) v :
  fits_float32 t = true ->
  getterMap t = Some getter -> getter view off = Ok v ->
  fround v = v.
Proof.
  intros Ht Hg Hv.
  destruct t; cbn in Ht, Hg; try discriminate; injection Hg as <-;
    unfold as_number, getInt8, getInt16, getUint8, getUint16, getFloat32 in Hv;
    match type of Hv with
    | context [read_bytes ?b ?o ?n] => destruct (read_bytes b o n) as [bs|] eqn:Hr
    end; cbn [bind] in Hv; try discriminate; injection Hv as <-;
    lazymatch goal with
    | |- fround (decode_f32 _) = _ => apply fround_decode_f32
    | _ => apply read_bytes_length in Hr; pose proof (le_value_range bs) as Hb;
           rewrite Hr in Hb; apply fround_of_Z
    end.
  - pose proof (to_signed_bounds 8 (le_value bs) ltac:(lia) Hb) as Hs.
    change (2 ^ (8 - 1)) with 128 in Hs. change (2 ^ 24) with 16777216. lia.
  - change (256 ^ Z.of_nat 1) with 256 in Hb. change (2 ^ 24) with 16777216. lia.
  - pose proof (to_signed_bounds 16 (le_value bs) ltac:(lia) Hb) as Hs.
    change (2 ^ (16 - 1)) with 32768 in Hs. change (2 ^ 24) with 16777216. lia.
  - change (256 ^ Z.of_nat 2) with 65536 in Hb. change (2 ^ 24) with 16777216. lia.
Qed.

(** ** Undoing a normalization that did nothing *)








(** ** Rounding to 32 bits *)









(** ** A range of width zero *)



End StoredValues.


(** * Properties of the loader *)

Module LoaderTrace.
Import Loader.

Definition is_fetch (e : Event) : bool :=
  match e with Fetch _ _ _ => true | _ => false end.

(** The range fetches a world has seen. *)
Definition fetches (w : World) : list Event := List.filter is_fetch (trace w).

Definition is_release (e : Event) : bool :=
  match e with GeometryDispose _ | HandlerCall _ => true | _ => false end.

(** The geometry disposals and handler calls a world has seen. *)
Definition releases (w : World) : list Event := List.filter is_release (trace w).

Definition handlers_of (node : nat) (w : World) : option (list nat) :=
  match heap w !! node with
  | Some n => Some (oneTimeDisposeHandlers n)
  | None => None
  end.

End LoaderTrace.

Module HierarchySpec.
Import Num Loader.

(** The number of children a mask announces in the slots below [m]. *)
Fixpoint rank (mask : Z) (m : nat) : nat :=
  match m with
  | O => 0
  | S m' => rank mask m' + (if childExists mask m' then 1 else 0)
  end.

End HierarchySpec.

Section LoaderFacts.
Import JS Num DataView Loader HierarchySpec.

Variable createChildAABB : Box3 -> nat -> Box3.
Variable getIndexFromName : string -> Z.
Variable getBoundingSphere : Box3 -> Sphere.
Variable fetch : File -> Z -> Z -> result ArrayBuffer.
Variable octree : OctreeGeometry.

Local Abbreviation add_child := (Loader.add_child createChildAABB getIndexFromName getBoundingSphere).
Local Abbreviation new_node := (Loader.new_OctreeGeometryNode getIndexFromName getBoundingSphere).

(** The child the loop creates in slot [b] of [current], with reference [r]. *)
Definition child_of (cur : OctreeGeometryNode) (current r b : nat) : OctreeGeometryNode :=
  set_parent (Some current)
    (set_level (level cur + 1)%Z
       (set_spacing (fdiv (spacing cur) (of_Z 2))
          (set_name (String.append (name cur) (digit b))
             (new_node r (String.append (name cur) (digit b))
                (createChildAABB (boundingBox cur) b))))).

Lemma add_child_absent current mask st b :
  childExists mask b = false -> add_child current mask st b = st.
Proof. intros H. unfold Loader.add_child. rewrite H. reflexivity. Qed.

Lemma add_child_present current mask st b cur :
  childExists mask b = true ->
  heap (world st) !! current = Some cur ->
  current <> idCount (world st) ->
  let child := idCount (world st) in
  let st' := add_child current mask st b in
  idCount (world st') = S child
  /\ nodePos st' = S (nodePos st)
  /\ nodes st' = <[nodePos st := child]> (nodes st)
  /\ heap (world st') !! child = Some (child_of cur current child b)
  /\ heap (world st') !! current
     = Some (set_children (<[b := Some child]> (children cur)) cur)
  /\ (forall r, r <> child -> r <> current ->
        heap (world st') !! r = heap (world st) !! r)
  /\ trace (world st') = trace (world st)
  /\ workers (world st') = workers (world st).
Proof.
  intros Hb Hc Hne. unfold Loader.add_child. rewrite Hb, Hc. simpl.
  repeat split.
  - rewrite lookup_alter_eq, lookup_alter_ne by congruence.
    rewrite !lookup_alter_eq, lookup_insert_eq. reflexivity.
  - rewrite lookup_alter_ne by congruence. rewrite lookup_alter_eq.
    rewrite !lookup_alter_ne by congruence.
    rewrite lookup_insert_ne by congruence. rewrite Hc. reflexivity.
  - intros r Hr1 Hr2. rewrite !lookup_alter_ne by congruence.
    rewrite lookup_insert_ne by congruence. reflexivity.
Qed.


Lemma rank_le mask a b : a <= b -> rank mask a <= rank mask b.
Proof.
  induction 1 as [|b Hab IH]; [lia|]. simpl. lia.
Qed.

Lemma rank_lt mask a b :
  a < b -> childExists mask a = true -> rank mask a < rank mask b.
Proof.
  intros Hab Ha. pose proof (rank_le mask (S a) b Hab) as H. simpl in H.
  rewrite Ha in H. lia.
Qed.

Lemma rank_surj mask m k :
  k < rank mask m -> exists b, b < m /\ childExists mask b = true /\ rank mask b = k.
Proof.
  induction m as [|m IH]; simpl; [lia|]. intros Hk.
  destruct (childExists mask m) eqn:Hm.
  - destruct (decide (k = rank mask m)) as [->|Hne].
    + exists m. auto.
    + destruct IH as (b & ? & ? & ?); [lia|]. exists b. auto.
  - destruct IH as (b & ? & ? & ?); [lia|]. exists b. auto.
Qed.

Lemma rank_bound mask m : rank mask m <= m.
Proof. induction m as [|m IH]; simpl; [lia|]. destruct (childExists mask m); lia. Qed.

(** The state after the loop over the first [m] child slots. *)
Lemma add_children_spec current mask cur st0 m :
  heap (world st0) !! current = Some cur ->
  current < idCount (world st0) ->
  m <= length (children cur) ->
  let st := foldl (add_child current mask) st0 (seq 0 m) in
  let i0 := idCount (world st0) in
  let p0 := nodePos st0 in
  idCount (world st) = i0 + rank mask m
  /\ nodePos st = p0 + rank mask m
  /\ (exists ch,
        heap (world st) !! current = Some (set_children ch cur)
        /\ length ch = length (children cur)
        /\ forall b, ch !! b =
             if (b <? m) && childExists mask b
             then Some (Some (i0 + rank mask b)) else children cur !! b)
  /\ (forall b, b < m -> childExists mask b = true ->
        heap (world st) !! (i0 + rank mask b)
          = Some (child_of cur current (i0 + rank mask b) b)
        /\ nodes st !! (p0 + rank mask b) = Some (i0 + rank mask b))
  /\ (forall r, r <> current -> r < i0 \/ i0 + rank mask m <= r ->
        heap (world st) !! r = heap (world st0) !! r)
  /\ (forall j, j < p0 \/ p0 + rank mask m <= j -> nodes st !! j = nodes st0 !! j)
  /\ trace (world st) = trace (world st0)
  /\ workers (world st) = workers (world st0).
Proof.
  intros Hc Hlt. induction m as [|m IH]; intros Hm; cbv zeta.
  - simpl. rewrite !Nat.add_0_r. repeat split; auto; try (intros; lia).
    exists (children cur). split; [|split; [reflexivity|intros b; reflexivity]].
    rewrite Hc. destruct cur; reflexivity.
  - rewrite seq_S, foldl_app. cbn [foldl rank Nat.add].
    destruct IH as (Hi & Hp & (ch & Hch & Hlen & Hsl) & Hkids & Hfr & Hnf & Htr & Hwk);
      [lia|].
    set (st := foldl (add_child current mask) st0 (seq 0 m)) in *.
    destruct (childExists mask m) eqn:Hbit.
    + destruct (add_child_present current mask st m (set_children ch cur) Hbit Hch)
        as (Hi' & Hp' & Hn' & Hk' & Hc' & Hfr' & Htr' & Hwk'); [lia|].
      rewrite Hi', Hp', Hn', Htr', Hwk'. rewrite Hi, Hp in *.
      repeat split; auto; try lia.
      * exists (<[m := Some (idCount (world st0) + rank mask m)]> ch). repeat split.
        -- rewrite Hc'. reflexivity.
        -- rewrite length_insert. exact Hlen.
        -- intros b. destruct (decide (b = m)) as [->|Hne].
           ++ rewrite list_lookup_insert_eq by lia.
              rewrite (proj2 (Nat.ltb_lt m (S m))) by lia. rewrite Hbit. reflexivity.
           ++ rewrite list_lookup_insert_ne by congruence. rewrite Hsl.
              destruct (Nat.ltb_spec b m), (Nat.ltb_spec b (S m)); try lia; reflexivity.
      * destruct (decide (b = m)) as [->|Hne].
        -- rewrite Hk'. reflexivity.
        -- assert (b < m) as Hbm by lia.
           pose proof (rank_lt mask b m Hbm H0).
           rewrite Hfr' by lia. apply Hkids; auto.
      * destruct (decide (b = m)) as [->|Hne].
        -- apply lookup_insert_eq.
        -- assert (b < m) as Hbm by lia.
           pose proof (rank_lt mask b m Hbm H0).
           rewrite lookup_insert_ne by lia. apply Hkids; auto.
      * intros r Hr1 Hr2. rewrite Hfr' by lia. apply Hfr; [auto|lia].
      * intros j Hj. rewrite lookup_insert_ne by lia. apply Hnf. lia.
    + rewrite add_child_absent by exact Hbit. rewrite Nat.add_0_r.
      repeat split; auto.
      * exists ch. repeat split; auto. intros b. rewrite Hsl.
        destruct (decide (b = m)) as [->|Hne].
        -- rewrite Nat.ltb_irrefl, Hbit. simpl.
           rewrite (proj2 (Nat.ltb_lt m (S m))) by lia. reflexivity.
        -- destruct (Nat.ltb_spec b m), (Nat.ltb_spec b (S m)); try lia; reflexivity.
      * destruct (decide (b = m)) as [->|Hne]; [congruence|]. apply Hkids; [lia|auto].
      * destruct (decide (b = m)) as [->|Hne]; [congruence|]. apply Hkids; [lia|auto].
Qed.


Local Abbreviation parse_record := (Loader.parse_record createChildAABB getIndexFromName getBoundingSphere).

Lemma apply_record_fields r cur :
  nodeType (apply_record r cur) = rec_type r
  /\ numPoints (apply_record r cur) = rec_numPoints r
  /\ children (apply_record r cur) = children cur
  /\ name (apply_record r cur) = name cur
  /\ spacing (apply_record r cur) = spacing cur
  /\ level (apply_record r cur) = level cur
  /\ boundingBox (apply_record r cur) = boundingBox cur
  /\ failed (apply_record r cur) = failed cur.
Proof.
  unfold apply_record.
  destruct (nodeType cur =? 2)%Z, (rec_type r =? 2)%Z; repeat split; reflexivity.
Qed.

Lemma child_of_apply_record r cur current ref b :
  child_of (apply_record r cur) current ref b = child_of cur current ref b.
Proof.
  destruct (apply_record_fields r cur) as (_ & _ & _ & Hn & Hs & Hl & Hb & _).
  unfold child_of. rewrite Hn, Hs, Hl, Hb. reflexivity.
Qed.

(** What one record does, for a record that is not a proxy. *)
Lemma parse_record_expands buf i st r current cur :
  read_record buf i = Ok r ->
  nodes st !! i = Some current ->
  heap (world st) !! current = Some cur ->
  current < idCount (world st) ->
  length (children cur) = 8 ->
  rec_type r <> 2%Z ->
  exists st',
    parse_record buf i st = Normal st'
    /\ idCount (world st') = idCount (world st) + rank (rec_childMask r) 8
    /\ nodePos st' = nodePos st + rank (rec_childMask r) 8
    /\ (exists ch,
          heap (world st') !! current = Some (set_children ch (apply_record r cur))
          /\ length ch = 8
          /\ forall b, ch !! b =
               if (b <? 8) && childExists (rec_childMask r) b
               then Some (Some (idCount (world st) + rank (rec_childMask r) b))
               else children cur !! b)
    /\ (forall b, b < 8 -> childExists (rec_childMask r) b = true ->
          heap (world st') !! (idCount (world st) + rank (rec_childMask r) b)
            = Some (child_of cur current (idCount (world st) + rank (rec_childMask r) b) b)
          /\ nodes st' !! (nodePos st + rank (rec_childMask r) b)
            = Some (idCount (world st) + rank (rec_childMask r) b))
    /\ (forall r', r' <> current ->
          r' < idCount (world st) \/ idCount (world st) + rank (rec_childMask r) 8 <= r' ->
          heap (world st') !! r' = heap (world st) !! r')
    /\ (forall j, j < nodePos st \/ nodePos st + rank (rec_childMask r) 8 <= j ->
          nodes st' !! j = nodes st !! j)
    /\ trace (world st') = trace (world st).
Proof.
  intros Hr Hn Hc Hlt Hlen Hty.
  unfold Loader.parse_record. rewrite Hr, Hn, Hc.
  destruct (Z.eqb_spec (rec_type r) 2) as [|_]; [contradiction|].
  eexists. split; [reflexivity|].
  destruct (apply_record_fields r cur) as (_ & _ & Hch & _).
  match goal with
  | |- context [foldl _ ?S0 _] => set (st1 := S0)
  end.
  assert (heap (world st1) !! current = Some (apply_record r cur)) as Hc1.
  { subst st1. simpl. rewrite lookup_alter_eq, Hc. reflexivity. }
  destruct (add_children_spec current (rec_childMask r) (apply_record r cur) st1 8 Hc1)
    as (Hi & Hp & (ch & Hcur & Hl & Hsl) & Hkids & Hfr & Hnf & Htr & _).
  { exact Hlt. } { rewrite Hch. lia. }
  assert (idCount (world st1) = idCount (world st)) as E1 by reflexivity.
  assert (nodePos st1 = nodePos st) as E2 by reflexivity.
  assert (nodes st1 = nodes st) as E3 by reflexivity.
  assert (trace (world st1) = trace (world st)) as E4 by reflexivity.
  assert (heap (world st1) = alter (apply_record r) current (heap (world st))) as E5
    by reflexivity.
  rewrite E1, E2, ?E3, ?E4, ?E5 in *. clearbody st1.
  split; [exact Hi|]. split; [exact Hp|].
  split.
  { exists ch. split; [exact Hcur|]. split; [congruence|].
    intros b. rewrite Hsl, Hch. reflexivity. }
  split.
  { intros b Hb1 Hb2. destruct (Hkids b Hb1 Hb2) as [H1 H2].
    rewrite child_of_apply_record in H1. auto. }
  split.
  { intros r' Hr1 Hr2. rewrite Hfr by auto. apply lookup_alter_ne. congruence. }
  split; [exact Hnf|exact Htr].
Qed.

(** What one record does when it is a proxy: no child slot is read. *)
Lemma parse_record_proxy buf i st r current cur :
  read_record buf i = Ok r ->
  nodes st !! i = Some current ->
  heap (world st) !! current = Some cur ->
  rec_type r = 2%Z ->
  parse_record buf i st
  = Normal {| world := update current (apply_record r) (world st);
              nodes := nodes st; nodePos := nodePos st |}.
Proof.
  intros Hr Hn Hc Hty. unfold Loader.parse_record. rewrite Hr, Hn, Hc, Hty.
  reflexivity.
Qed.

(** The shape of a normal iteration. *)
Lemma parse_record_normal buf i st st' :
  parse_record buf i st = Normal st' ->
  exists r current cur,
    read_record buf i = Ok r /\ nodes st !! i = Some current
    /\ heap (world st) !! current = Some cur.
Proof.
  unfold Loader.parse_record. intros H.
  destruct (read_record buf i) as [r|] eqn:Hr; [|discriminate].
  destruct (nodes st !! i) as [current|] eqn:Hn; [|discriminate].
  destruct (heap (world st) !! current) as [cur|] eqn:Hc; [|discriminate].
  exists r, current, cur. repeat split; first [reflexivity|assumption].
Qed.


(** The work list names distinct allocated nodes, at the positions below
    [nodePos] and nowhere else. *)
Definition worklist_ok (st : Parse) : Prop :=
  (forall j, is_Some (nodes st !! j) <-> j < nodePos st)
  /\ (forall j ref, nodes st !! j = Some ref ->
        ref < idCount (world st)
        /\ exists n, heap (world st) !! ref = Some n /\ length (children n) = 8)
  /\ (forall j1 j2 ref,
        nodes st !! j1 = Some ref -> nodes st !! j2 = Some ref -> j1 = j2).

(** Record [j] has been written on the node at position [j] of the work
    list. *)
Definition applied (buf : ArrayBuffer) (st : Parse) (j : nat) : Prop :=
  exists ref n r,
    nodes st !! j = Some ref /\ heap (world st) !! ref = Some n
    /\ read_record buf j = Ok r
    /\ nodeType n = rec_type r /\ numPoints n = rec_numPoints r.

(** [nodePos] after [i] records of a chunk: one for the node being expanded,
    and one per child announced by a record that is not a proxy. *)
Fixpoint announced (buf : ArrayBuffer) (i : nat) : nat :=
  match i with
  | O => 1
  | S i' =>
      announced buf i'
      + match read_record buf i' with
        | Ok r => if (rec_type r =? 2)%Z then 0 else rank (rec_childMask r) 8
        | Throw _ => 0
        end
  end.

Lemma child_of_children cur current ref b :
  length (children (child_of cur current ref b)) = 8.
Proof. reflexivity. Qed.

Lemma parse_record_step buf i st st' :
  worklist_ok st ->
  nodePos st = announced buf i ->
  (forall j, j < i -> applied buf st j) ->
  parse_record buf i st = Normal st' ->
  worklist_ok st' /\ nodePos st' = announced buf (S i)
  /\ (forall j, j < S i -> applied buf st' j).
Proof.
  intros (Hdom & Hrefs & Hinj) Hpos Hdone Hnormal.
  destruct (parse_record_normal _ _ _ _ Hnormal) as (r & current & cur & Hr & Hn & Hc).
  destruct (Hrefs _ _ Hn) as (Hlt & n0 & Hn0 & Hlen).
  assert (n0 = cur) as -> by congruence.
  assert (i < nodePos st) as Hi by (apply Hdom; eauto).
  destruct (apply_record_fields r cur) as (Hty & Hnp & Hch & _).
  cbn [announced]. rewrite Hr.
  destruct (Z.eqb_spec (rec_type r) 2) as [Hproxy|Hreal].
  - rewrite (parse_record_proxy _ _ _ _ _ _ Hr Hn Hc Hproxy) in Hnormal.
    injection Hnormal as <-. cbn [world nodes nodePos].
    split; [|split; [lia|]].
    + split; [exact Hdom|]. split; [|exact Hinj].
      intros j ref Hj. destruct (Hrefs _ _ Hj) as (Hlt' & n & Hn' & Hlen').
      split; [exact Hlt'|]. cbn.
      destruct (decide (ref = current)) as [->|Hne].
      * exists (apply_record r cur). rewrite lookup_alter_eq, Hc.
        split; [reflexivity|]. rewrite Hch. exact Hlen.
      * exists n. rewrite lookup_alter_ne by congruence. auto.
    + intros j Hj. destruct (decide (j = i)) as [->|Hne].
      * exists current, (apply_record r cur), r. cbn.
        rewrite lookup_alter_eq, Hc. auto.
      * destruct (Hdone j) as (ref & n & r' & H1 & H2 & H3 & H4 & H5); [lia|].
        exists ref, n, r'. cbn. rewrite lookup_alter_ne; [auto|].
        intros ->. apply Hne. eapply Hinj; eauto.
  - destruct (parse_record_expands buf i st r current cur Hr Hn Hc Hlt Hlen Hreal)
      as (st2 & Hst2 & Hi2 & Hp2 & (ch & Hcur2 & Hl2 & _) & Hkids & Hfr & Hnf & _).
    rewrite Hst2 in Hnormal. injection Hnormal as <-.
    set (k := rank (rec_childMask r) 8) in *.
    assert (forall j, nodePos st <= j < nodePos st + k ->
              nodes st2 !! j = Some (idCount (world st) + (j - nodePos st))
              /\ exists b, b < 8 /\ childExists (rec_childMask r) b = true
                   /\ rank (rec_childMask r) b = j - nodePos st) as Hnew.
    { intros j Hj. destruct (rank_surj (rec_childMask r) 8 (j - nodePos st))
        as (b & Hb1 & Hb2 & Hb3); [fold k; lia|].
      destruct (Hkids b Hb1 Hb2) as [_ Hnb]. rewrite Hb3 in Hnb.
      replace (nodePos st + (j - nodePos st)) with j in Hnb by lia.
      split; [exact Hnb|]. exists b. auto. }
    split; [|split; [lia|]].
    + split; [|split].
      * intros j. rewrite Hp2.
        destruct (decide (j < nodePos st)) as [Hj|Hj].
        { rewrite Hnf by lia. rewrite Hdom. lia. }
        destruct (decide (j < nodePos st + k)) as [Hj'|Hj'].
        { destruct (Hnew j) as [-> _]; [lia|]. split; [lia|eauto]. }
        rewrite Hnf by lia. rewrite Hdom. lia.
      * intros j ref Hj. rewrite Hi2.
        destruct (decide (nodePos st <= j < nodePos st + k)) as [Hin|Hout].
        { destruct (Hnew j Hin) as (Hj' & b & Hb1 & Hb2 & Hb3).
          assert (ref = idCount (world st) + (j - nodePos st)) as -> by congruence.
          split; [lia|]. destruct (Hkids b Hb1 Hb2) as [Hh _]. rewrite Hb3 in Hh.
          eexists. split; [exact Hh|]. apply child_of_children. }
        rewrite Hnf in Hj by lia.
        destruct (Hrefs _ _ Hj) as (Hlt' & n & Hn' & Hlen').
        split; [lia|].
        destruct (decide (ref = current)) as [->|Hne].
        { eexists. split; [exact Hcur2|]. exact Hl2. }
        exists n. rewrite Hfr by (auto; lia). auto.
      * intros j1 j2 ref H1 H2.
        destruct (decide (nodePos st <= j1 < nodePos st + k)) as [Hin1|Hout1];
          destruct (decide (nodePos st <= j2 < nodePos st + k)) as [Hin2|Hout2].
        -- destruct (Hnew j1 Hin1) as [E1 _]. destruct (Hnew j2 Hin2) as [E2 _].
           rewrite E1 in H1. rewrite E2 in H2. simplify_eq. lia.
        -- destruct (Hnew j1 Hin1) as [E1 _]. rewrite E1 in H1.
           rewrite Hnf in H2 by lia. destruct (Hrefs _ _ H2) as [? _].
           simplify_eq. lia.
        -- destruct (Hnew j2 Hin2) as [E2 _]. rewrite E2 in H2.
           rewrite Hnf in H1 by lia. destruct (Hrefs _ _ H1) as [? _].
           simplify_eq. lia.
        -- rewrite Hnf in H1 by lia. rewrite Hnf in H2 by lia. eapply Hinj; eauto.
    + intros j Hj. destruct (decide (j = i)) as [->|Hne].
      * exists current, (set_children ch (apply_record r cur)), r.
        rewrite Hnf by lia. auto.
      * destruct (Hdone j) as (ref & n & r' & H1 & H2 & H3 & H4 & H5); [lia|].
        exists ref, n, r'.
        assert (j < nodePos st) by (apply Hdom; eauto).
        rewrite Hnf by lia.
        destruct (Hrefs _ _ H1) as [Hlt' _].
        rewrite Hfr; [auto| |lia].
        intros ->. apply Hne. eapply Hinj; eauto.
Qed.


Local Abbreviation parseHierarchy_loop := (Loader.parseHierarchy_loop createChildAABB getIndexFromName getBoundingSphere).
Local Abbreviation parseHierarchy := (Loader.parseHierarchy createChildAABB getIndexFromName getBoundingSphere).
Local Abbreviation loadHierarchy := (Loader.loadHierarchy createChildAABB getIndexFromName getBoundingSphere fetch).
Local Abbreviation load_try := (Loader.load_try createChildAABB getIndexFromName getBoundingSphere fetch octree).
Local Abbreviation load := (Loader.load createChildAABB getIndexFromName getBoundingSphere fetch octree).

(** *** The guard of [load] *)

(** A node that is loading is left alone: [load] returns the world it got,
    trace included. *)
Lemma load_while_loading (node : nat) (w : World) (n : OctreeGeometryNode) :
  heap w !! node = Some n -> loading n = true -> load node w = w.
Proof.
  intros Hn Hl. unfold Loader.load. rewrite Hn, Hl. reflexivity.
Qed.

(** The guard never reads [loaded]: a node that is not loading enters the
    body whatever its [loaded] flag is. *)
Lemma load_ignores_loaded (node : nat) (w : World) (n : OctreeGeometryNode) :
  heap w !! node = Some n -> loading n = false ->
  load node w =
    match load_try node (update node (set_loading true) w) with
    | Normal w' => w'
    | Abrupt e w' => load_catch node e w'
    end.
Proof.
  intros Hn Hl. unfold Loader.load. rewrite Hn, Hl. reflexivity.
Qed.

(** *** Disposal *)

Lemma trace_emit_all {A} (f : A -> Event) (l : list A) (w : World) :
  trace (foldl (fun w a => emit (f a) w) w l) = (trace w ++ map f l)%list
  /\ heap (foldl (fun w a => emit (f a) w) w l) = heap w.
Proof.
  revert w; induction l as [|a l IH]; intros w; simpl.
  - rewrite app_nil_r. split; reflexivity.
  - destruct (IH (emit (f a) w)) as [Ht Hh]. rewrite Ht, Hh. simpl.
    rewrite <- app_assoc. split; reflexivity.
Qed.

(** The traversal started by [OctreeGeometry.dispose] begins with an empty
    stack, so it calls [dispose] on no node: the heap is the one before, and
    the trace only gains the termination of the pooled workers. *)
Lemma dispose_visits_no_node (fuel : nat) (w : World) :
  exists w', dispose (S fuel) w = Some w'
    /\ heap w' = heap w
    /\ trace w' = (trace w ++ map Terminate (workers w))%list
    /\ octree_disposed w' = true.
Proof.
  unfold dispose, traverse, loader_dispose.
  destruct (trace_emit_all Terminate (workers w) w) as [Ht Hh].
  destruct (root _) eqn:Hr; simpl in *; eexists; (split; [reflexivity|]);
    simpl; rewrite ?Ht, ?Hh; auto.
Qed.

(** [OctreeGeometryNode.dispose] on a node with a geometry and a parent:
    the geometry is disposed and dropped, [loaded] is cleared, and every
    one-time handler is called once, in order, and forgotten. *)
Lemma node_dispose_releases (node : nat) (w : World) (n : OctreeGeometryNode)
    (g : BufferGeometry) (p : nat) :
  heap w !! node = Some n -> geometry n = Some g -> parent n = Some p ->
  trace (node_dispose node w)
    = (trace w ++ GeometryDispose node :: map HandlerCall (oneTimeDisposeHandlers n))%list
  /\ heap (node_dispose node w) !! node
    = Some (set_oneTimeDisposeHandlers [] (set_loaded false (set_geometry None n))).
Proof.
  intros Hn Hg Hp. unfold node_dispose. rewrite Hn, Hg, Hp.
  match goal with
  | |- context [foldl ?F ?W ?L] =>
      destruct (trace_emit_all HandlerCall L W) as [Ht Hh]
  end.
  split.
  - simpl. simpl in Ht. rewrite Ht. rewrite <- app_assoc. reflexivity.
  - simpl. simpl in Hh. rewrite Hh.
    rewrite !lookup_alter_eq, Hn. reflexivity.
Qed.

(** A node without a parent (the root) is never disposed. *)
Lemma node_dispose_root (node : nat) (w : World) (n : OctreeGeometryNode) :
  heap w !! node = Some n -> parent n = None -> node_dispose node w = w.
Proof.
  intros Hn Hp. unfold node_dispose. rewrite Hn, Hp.
  destruct (geometry n); reflexivity.
Qed.

(** After a disposal the node has no geometry, so a second one does nothing:
    no handler runs twice. *)
Lemma node_dispose_twice (node : nat) (w : World) :
  node_dispose node (node_dispose node w) = node_dispose node w.
Proof.
  destruct (heap w !! node) as [n|] eqn:Hn.
  - destruct (geometry n) as [g|] eqn:Hg; destruct (parent n) as [p|] eqn:Hp.
    + destruct (node_dispose_releases node w n g p Hn Hg Hp) as [_ Hh].
      generalize dependent (node_dispose node w). intros w1 Hh.
      unfold node_dispose. rewrite Hh. reflexivity.
    + assert (node_dispose node w = w) as H; [|rewrite !H; reflexivity].
      unfold node_dispose. rewrite Hn, Hg, Hp. reflexivity.
    + assert (node_dispose node w = w) as H; [|rewrite !H; reflexivity].
      unfold node_dispose. rewrite Hn, Hg. reflexivity.
    + assert (node_dispose node w = w) as H; [|rewrite !H; reflexivity].
      unfold node_dispose. rewrite Hn, Hg. reflexivity.
  - assert (node_dispose node w = w) as H; [|rewrite !H; reflexivity].
    unfold node_dispose. rewrite Hn. reflexivity.
Qed.

(** *** Loops *)


Lemma loopM_seq_total {T} (f : nat -> T -> outcome T) (P : nat -> T -> Prop) n :
  forall a s,
  P a s ->
  (forall i t, a <= i < a + n -> P i t -> exists t', f i t = Normal t' /\ P (S i) t') ->
  exists s', loopM f (seq a n) s = Normal s' /\ P (a + n) s'.
Proof.
  induction n as [|n IH]; intros a s Hs Hstep; simpl.
  - exists s. rewrite Nat.add_0_r. auto.
  - destruct (Hstep a s) as (t & Hf & Ht); [lia|exact Hs|].
    rewrite Hf. simpl.
    replace (a + S n) with (S a + n) by lia.
    apply IH; [exact Ht|]. intros i u Hi. apply Hstep. lia.
Qed.

(** *** Reading records *)

(** Every record of a chunk of [k] records can be read. *)
Lemma read_record_ok (buf : ArrayBuffer) k i :
  length buf = bytesPerNode * k -> i < k -> exists r, read_record buf i = Ok r.
Proof.
  intros Hlen Hi. unfold read_record, getUint8, getUint32, getBigInt64, bytesPerNode in *.
  rewrite !read_bytes_ok by lia. cbn [bind]. eauto.
Qed.

Lemma array_length_ok_multiple (buf : ArrayBuffer) k :
  length buf = bytesPerNode * k -> (Z.of_nat k < 4294967296)%Z ->
  array_length_ok (length buf) = true /\ length buf / bytesPerNode = k.
Proof.
  intros Hlen Hk. unfold array_length_ok, bytesPerNode in *. rewrite Hlen.
  rewrite Nat.mul_comm, Nat.Div0.mod_mul, Nat.div_mul by lia.
  split; [|reflexivity]. apply andb_true_intro. split; [reflexivity|].
  apply Z.ltb_lt. exact Hk.
Qed.


(** *** The whole chunk *)

Definition start_ok (node : nat) (w : World) : Prop :=
  node < idCount w
  /\ exists n, heap w !! node = Some n /\ length (children n) = 8.

Lemma initial_worklist_ok node w :
  start_ok node w ->
  worklist_ok {| world := w; nodes := {[ 0 := node ]}; nodePos := 1 |}.
Proof.
  intros (Hlt & n & Hn & Hlen). split; [|split]; cbn [world nodes nodePos].
  - intros j. destruct (decide (j = 0)) as [->|Hne].
    + rewrite lookup_singleton_eq. split; [lia|eauto].
    + rewrite lookup_singleton_ne by congruence. split; [intros [? ?]; discriminate|lia].
  - intros j ref Hj. apply lookup_singleton_Some in Hj as [_ <-]. eauto.
  - intros j1 j2 ref H1 H2. apply lookup_singleton_Some in H1 as [<- _].
    apply lookup_singleton_Some in H2 as [<- _]. reflexivity.
Qed.




(** *** What a load never touches *)

(** Every node allocated in [w] is still there in [w'], with the [failed]
    flag it had. *)
Definition keeps (w w' : World) : Prop :=
  idCount w <= idCount w'
  /\ forall r n, r < idCount w -> heap w !! r = Some n ->
       exists n', heap w' !! r = Some n' /\ failed n' = failed n.

Lemma keeps_refl w : keeps w w.
Proof. split; [lia|]. eauto. Qed.

Lemma keeps_trans w1 w2 w3 : keeps w1 w2 -> keeps w2 w3 -> keeps w1 w3.
Proof.
  intros [H1 K1] [H2 K2]. split; [lia|]. intros r n Hr Hn.
  destruct (K1 r n Hr Hn) as (n' & Hn' & E1).
  destruct (K2 r n') as (n'' & Hn'' & E2); [lia|exact Hn'|].
  exists n''. split; [exact Hn''|congruence].
Qed.

Lemma keeps_update node f w :
  (forall n, failed (f n) = failed n) -> keeps w (update node f w).
Proof.
  intros Hf. split; [reflexivity|]. intros r n _ Hn. cbn.
  destruct (decide (node = r)) as [->|Hne].
  - exists (f n). rewrite lookup_alter_eq, Hn. auto.
  - exists n. rewrite lookup_alter_ne by exact Hne. auto.
Qed.

Lemma keeps_same_heap w w' :
  heap w' = heap w -> idCount w' = idCount w -> keeps w w'.
Proof.
  intros Hh Hi. split; [lia|]. intros r n _ Hn. exists n. rewrite Hh. auto.
Qed.

Lemma keeps_alloc nm box w :
  keeps w (snd (alloc getIndexFromName getBoundingSphere nm box w)).
Proof.
  split; [cbn; lia|]. intros r n Hr Hn. exists n. cbn.
  rewrite lookup_insert_ne by lia. auto.
Qed.

Lemma keeps_add_child current mask st b :
  keeps (world st) (world (add_child current mask st b)).
Proof.
  unfold Loader.add_child. destruct (childExists mask b); [|apply keeps_refl].
  destruct (heap (world st) !! current) as [cur|]; [|apply keeps_refl].
  cbn [world].
  repeat (eapply keeps_trans; [|apply keeps_update; intros; reflexivity]).
  apply keeps_alloc.
Qed.

Lemma keeps_add_children current mask l :
  forall st, keeps (world st) (world (foldl (add_child current mask) st l)).
Proof.
  induction l as [|b l IH]; intros st; simpl; [apply keeps_refl|].
  eapply keeps_trans; [apply keeps_add_child|apply IH].
Qed.

Lemma keeps_apply_record current r w : keeps w (update current (apply_record r) w).
Proof.
  apply keeps_update. intros n. apply apply_record_fields.
Qed.

Lemma keeps_parse_record buf i st :
  keeps (world st) (world (state_of (parse_record buf i st))).
Proof.
  unfold Loader.parse_record.
  destruct (read_record buf i) as [r|]; [|apply keeps_refl].
  destruct (nodes st !! i) as [current|]; [|apply keeps_refl].
  destruct (heap (world st) !! current) as [cur|]; [|apply keeps_refl].
  destruct (rec_type r =? 2)%Z; cbn [state_of world].
  - apply keeps_apply_record.
  - eapply keeps_trans; [|apply keeps_add_children]. apply keeps_apply_record.
Qed.

Lemma keeps_loopM buf l :
  forall st, keeps (world st) (world (state_of (loopM (parse_record buf) l st))).
Proof.
  induction l as [|i l IH]; intros st; simpl; [apply keeps_refl|].
  pose proof (keeps_parse_record buf i st) as H.
  destruct (parse_record buf i st) as [t|e t]; simpl in *; [|exact H].
  eapply keeps_trans; [exact H|apply IH].
Qed.

Lemma keeps_parseHierarchy node buf w :
  keeps w (state_of (parseHierarchy node buf w)).
Proof.
  unfold Loader.parseHierarchy, Loader.parseHierarchy_loop.
  destruct (array_length_ok (length buf)); [|apply keeps_refl].
  match goal with
  | |- context [loopM ?f ?l ?s] =>
      pose proof (keeps_loopM buf l s) as H; destruct (loopM f l s)
  end; exact H.
Qed.

Lemma keeps_emit e w : keeps w (emit e w).
Proof. apply keeps_same_heap; reflexivity. Qed.

Lemma keeps_loadHierarchy node w : keeps w (state_of (loadHierarchy node w)).
Proof.
  unfold Loader.loadHierarchy.
  destruct (heap w !! node) as [n|]; [|apply keeps_refl].
  destruct (fetch _ _ _) as [buf|e]; [|apply keeps_emit].
  eapply keeps_trans; [apply keeps_emit|apply keeps_parseHierarchy].
Qed.

Lemma keeps_getWorker type w : keeps w (snd (getWorker type w)).
Proof.
  unfold getWorker. destruct (last (workers w)); apply keeps_same_heap; reflexivity.
Qed.

Lemma keeps_load_try node w : keeps w (state_of (load_try node w)).
Proof.
  unfold Loader.load_try.
  destruct (heap w !! node) as [n0|]; [|apply keeps_refl].
  assert (keeps w (state_of (if (nodeType n0 =? 2)%Z then loadHierarchy node w
                             else Normal w))) as H.
  { destruct (nodeType n0 =? 2)%Z; [apply keeps_loadHierarchy|apply keeps_refl]. }
  destruct (if (nodeType n0 =? 2)%Z then loadHierarchy node w else Normal w)
    as [w1|e w1]; cbn [andThen state_of] in *; [|exact H].
  eapply keeps_trans; [exact H|].
  destruct (heap w1 !! node) as [n|]; [|apply keeps_refl].
  unfold fetch_payload.
  destruct (byteSize n =? 0)%Z.
  - cbn. pose proof (keeps_getWorker (encoding octree) (emit (ConsoleWarn (name n)) w1)) as G.
    destruct (getWorker _ _) as [worker w3]. cbn [state_of snd] in *.
    eapply keeps_trans; [apply keeps_emit|].
    eapply keeps_trans; [exact G|apply keeps_emit].
  - destruct (fetch _ _ _) as [buf|e]; cbn [state_of]; [|apply keeps_emit].
    match goal with
    | |- context [getWorker ?t ?w0] =>
        pose proof (keeps_getWorker t w0) as G; destruct (getWorker t w0) as [worker w3]
    end.
    cbn [state_of snd] in *.
    eapply keeps_trans; [apply keeps_emit|].
    eapply keeps_trans; [exact G|apply keeps_emit].
Qed.

(** The flags after a load whose [try] block threw. *)
Lemma load_catch_flags node e w n :
  heap w !! node = Some n ->
  heap (load_catch node e w) !! node = Some (set_loading false (set_loaded false n))
  /\ trace (load_catch node e w) = (trace w ++ [ConsoleLog (name n); ConsoleError e])%list.
Proof.
  intros Hn. unfold load_catch. cbn.
  rewrite !lookup_alter_eq, Hn. cbn. rewrite <- app_assoc. auto.
Qed.


Lemma childExists_testbit (mask : Z) (b : nat) :
  childExists mask b = Z.testbit mask (Z.of_nat b).
Proof.
  unfold childExists. rewrite Z.shiftl_1_l.
  destruct (Z.testbit mask (Z.of_nat b)) eqn:Hb.
  - apply negb_true_iff, Z.eqb_neq. intros H0.
    assert (Z.testbit (Z.land (2 ^ Z.of_nat b) mask) (Z.of_nat b) = true) as Ht.
    { rewrite Z.land_spec, Z.pow2_bits_true, Hb by lia. reflexivity. }
    rewrite H0, Z.bits_0 in Ht. discriminate.
  - apply negb_false_iff, Z.eqb_eq. apply Z.bits_inj'. intros n Hn.
    rewrite Z.land_spec, Z.bits_0.
    destruct (Z.eq_dec n (Z.of_nat b)) as [->|Hne].
    + rewrite Hb. apply andb_false_r.
    + rewrite Z.pow2_bits_false by lia. reflexivity.
Qed.

(** C8: a record that is not a proxy gives [current] one new child per set
    bit of its child mask, and nothing else.  For every slot [b] below 8: if
    bit [b] of the mask is set, slot [b] of [current] holds a node allocated by
    this record whose name is the parent's name followed by the digit [b],
    whose spacing is half the parent's, whose level is one more, whose parent
    is [current], and which was appended to the work list (after the children
    of the lower set bits); if the bit is clear the slot is as before.  The
    heap and the work list grow by the number of set bits. *)
Theorem parse_record_children buf i st r current cur :
  read_record buf i = Ok r ->
  nodes st !! i = Some current ->
  heap (world st) !! current = Some cur ->
  current < idCount (world st) ->
  length (children cur) = 8 ->
  rec_type r <> 2%Z ->
  exists st' cur',
    parse_record buf i st = Normal st'
    /\ heap (world st') !! current = Some cur'
    /\ idCount (world st') = idCount (world st) + rank (rec_childMask r) 8
    /\ nodePos st' = nodePos st + rank (rec_childMask r) 8
    /\ (forall b, b < 8 ->
          if Z.testbit (rec_childMask r) (Z.of_nat b) then
            exists child c,
              children cur' !! b = Some (Some child)
              /\ idCount (world st) <= child < idCount (world st')
              /\ heap (world st') !! child = Some c
              /\ name c = String.append (name cur) (digit b)
              /\ spacing c = fdiv (spacing cur) (of_Z 2)
              /\ level c = (level cur + 1)%Z
              /\ parent c = Some current
              /\ nodes st' !! (nodePos st + rank (rec_childMask r) b) = Some child
          else children cur' !! b = children cur !! b)
    /\ (forall r', r' < idCount (world st) -> r' <> current ->
          heap (world st') !! r' = heap (world st) !! r').
Proof.
  intros Hr Hn Hc Hlt Hlen Hty.
  destruct (parse_record_expands buf i st r current cur Hr Hn Hc Hlt Hlen Hty)
    as (st' & Hst & Hi & Hp & (ch & Hcur & Hl & Hsl) & Hkids & Hfr & _).
  exists st', (set_children ch (apply_record r cur)).
  split; [exact Hst|]. split; [exact Hcur|]. split; [exact Hi|]. split; [exact Hp|].
  split.
  - intros b Hb. rewrite <- childExists_testbit.
    destruct (childExists (rec_childMask r) b) eqn:Hbit.
    + destruct (Hkids b Hb Hbit) as [Hheap Hnodes].
      exists (idCount (world st) + rank (rec_childMask r) b),
             (child_of cur current (idCount (world st) + rank (rec_childMask r) b) b).
      split.
      { cbn [children set_children]. rewrite Hsl, Hbit.
        rewrite (proj2 (Nat.ltb_lt b 8)) by exact Hb. reflexivity. }
      split.
      { pose proof (rank_lt (rec_childMask r) b 8 Hb Hbit). lia. }
      split; [exact Hheap|]. repeat split. exact Hnodes.
    + cbn [children set_children]. rewrite Hsl, Hbit, andb_false_r. reflexivity.
  - intros r' H1 H2. apply Hfr; auto.
Qed.


(** C2, as the code has it: when a step of the [try] block of [load] throws
    (the hierarchy fetch, the hierarchy parse or the payload fetch), the node
    ends with [loading] and [loaded] false, so a later [load] passes the guard
    again; its [failed] flag is the one it had before the load; the error is
    the last thing written to the console. *)
Theorem load_failure_clears_loading node w n e w' :
  heap w !! node = Some n ->
  node < idCount w ->
  loading n = false ->
  load_try node (update node (set_loading true) w) = Abrupt e w' ->
  exists n',
    heap (load node w) !! node = Some n'
    /\ loading n' = false /\ loaded n' = false
    /\ failed n' = failed n
    /\ last (trace (load node w)) = Some (ConsoleError e).
Proof.
  intros Hn Hlt Hl Htry.
  pose proof (keeps_load_try node (update node (set_loading true) w)) as [_ K].
  rewrite Htry in K. cbn [state_of] in K.
  destruct (K node (set_loading true n)) as (n2 & Hn2 & Hf).
  { exact Hlt. } { cbn. rewrite lookup_alter_eq, Hn. reflexivity. }
  unfold Loader.load. rewrite Hn, Hl. cbn [orb]. rewrite Htry.
  destruct (load_catch_flags node e w' n2 Hn2) as [Hh Ht].
  eexists. split; [exact Hh|]. split; [reflexivity|]. split; [reflexivity|].
  split; [exact Hf|]. rewrite Ht.
  rewrite last_app. reflexivity.
Qed.

End LoaderFacts.

(** * Properties of the decoder *)

Module DecoderSpec.
Import JS Num DataView Decoder.

(** The bytes the decoder reads of one attribute, per point. *)
Definition read_width (a : PointAttributeType) : nat :=
  if is_position (name a) then 12
  else if is_rgba (name a) then 6
  else type_size (type a).

(** An attribute the decoder can read: its byte size covers what is read, and
    a generic attribute has a getter. *)
Definition attribute_ok (a : PointAttributeType) : Prop :=
  read_width a <= byteSize a
  /\ (is_position (name a) = false -> is_rgba (name a) = false ->
      is_Some (getterMap (type a))).

Definition sizes (l : list PointAttributeType) : nat :=
  foldr (fun a acc => byteSize a + acc) 0 l.

(** What the position branch leaves in [attributeBuffers] for an attribute
    whose bytes start at [off] in every record of [bpp] bytes. *)
Definition position_entry (data : MessageData) (bpp off : nat) (ab : AttributeBuffer) : Prop :=
  exists positions,
    out_buffer ab = F32 positions
    /\ length positions = 3 * numPoints data
    /\ forall j, j < numPoints data ->
         exists rx ry rz,
           getInt32 (buffer data) (j * bpp + off + 0) = Ok rx
           /\ getInt32 (buffer data) (j * bpp + off + 4) = Ok ry
           /\ getInt32 (buffer data) (j * bpp + off + 8) = Ok rz
           /\ positions !! (3 * j + 0)
              = Some (fround (decode_coord rx (x (scale data)) (x (offset data)) (x (min data))))
           /\ positions !! (3 * j + 1)
              = Some (fround (decode_coord ry (y (scale data)) (y (offset data)) (y (min data))))
           /\ positions !! (3 * j + 2)
              = Some (fround (decode_coord rz (z (scale data)) (z (offset data)) (z (min data)))).


(** What the colour branch leaves: four bytes per point, the first three
    from the 16-bit channels of the record, the fourth never written. *)
Definition rgba_entry (data : MessageData) (bpp off : nat) (ab : AttributeBuffer) : Prop :=
  exists colors,
    out_buffer ab = U8 colors
    /\ length colors = 4 * numPoints data
    /\ forall j, j < numPoints data ->
         exists r g b,
           getUint16 (buffer data) (j * bpp + off + 0) = Ok r
           /\ getUint16 (buffer data) (j * bpp + off + 2) = Ok g
           /\ getUint16 (buffer data) (j * bpp + off + 4) = Ok b
           /\ colors !! (4 * j + 0) = Some (color_channel r)
           /\ colors !! (4 * j + 1) = Some (color_channel g)
           /\ colors !! (4 * j + 2) = Some (color_channel b)
           /\ colors !! (4 * j + 3) = Some 0%Z.

(** What the generic branch leaves for an attribute read with [getter]. *)
Definition generic_entry (data : MessageData) (bpp off : nat) (a : PointAttributeType)
    (ab : AttributeBuffer) : Prop :=
  exists getter f32 precise,
    getterMap (type a) = Some getter
    /\ out_buffer ab = F32 f32
    /\ preciseBuffer ab = Some precise
    /\ out_offset ab = Some (fst (pack_params a))
    /\ out_scale ab = Some (snd (pack_params a))
    /\ length f32 = numPoints data
    /\ length precise = numPoints data
    /\ forall j, j < numPoints data ->
         exists value,
           getter (buffer data) (j * bpp + off) = Ok value
           /\ f32 !! j
              = Some (fround (fmul (fsub value (fst (pack_params a))) (snd (pack_params a))))
           /\ precise !! j = Some (typed_store (typedArrayMapping (type a)) value).

(** The entry of an attribute, by the branch its name selects. *)
Definition entry_of (data : MessageData) (bpp off : nat) (a : PointAttributeType)
    (ab : AttributeBuffer) : Prop :=
  attribute ab = a
  /\ if is_position (name a) then position_entry data bpp off ab
     else if is_rgba (name a) then rgba_entry data bpp off ab
     else generic_entry data bpp off a ab.

(** A buffer from which [n] floats can be read back. *)
Definition readable (n : nat) (b : OutBuffer) : Prop :=
  forall j, j < n -> exists v, readFloat32 b j = Ok v.


(** What the vector block leaves for a vector [v], given the buffers [bufs]
    of its sources: the sources interleaved at stride [k], each value being
    [(value / scale) + offset] of the float read back from the source. *)
Definition vector_entry (n : nat) (bufs : gmap string AttributeBuffer)
    (v : VectorAttribute) (l : list number) : Prop :=
  let k := length (vector_attributes v) in
  length l = k * n
  /\ forall i s, vector_attributes v !! i = Some s ->
       exists sb,
         bufs !! s = Some sb
         /\ forall j, j < n ->
              exists value,
                readFloat32 (out_buffer sb) j = Ok value
                /\ l !! (j * k + i)
                   = Some (fround (fadd (fdiv value (ToNumber (out_scale sb)))
                                        (ToNumber (out_offset sb)))).



(** The keys of the output: attribute names, [INDICES], vector names. *)
Definition output_names (pa : PointAttributes) : list string :=
  (map name (attributes pa) ++ "INDICES"%string :: map vector_name (vectors pa))%list.

(** A message the decoder can process: every attribute is readable, the
    buffer holds [numPoints] records, the output keys are pairwise distinct and
    every vector source is an attribute of the schema. *)
Definition schema_ok (data : MessageData) : Prop :=
  Forall attribute_ok (attributes (pointAttributes data))
  /\ numPoints data * bytesPerPoint (pointAttributes data) <= length (buffer data)
  /\ NoDup (output_names (pointAttributes data))
  /\ Forall (fun v => Forall (fun s => s ∈ map name (attributes (pointAttributes data)))
                             (vector_attributes v))
            (vectors (pointAttributes data)).


(** The component of a vector for an axis (0, 1, 2). *)
Definition component (axis : nat) (v : Vector3) : number :=
  match axis with
  | 0 => x v
  | 1 => y v
  | _ => z v
  end.

(** The getter of each scalar kind that has one. *)
Definition typed_getter (t : DataType) : ArrayBuffer -> nat -> result number :=
  match t with
  | DATA_TYPE_INT8 => as_number getInt8
  | DATA_TYPE_INT16 => as_number getInt16
  | DATA_TYPE_INT32 => as_number getInt32
  | DATA_TYPE_UINT8 => as_number getUint8
  | DATA_TYPE_UINT16 => as_number getUint16
  | DATA_TYPE_UINT32 => as_number getUint32
  | DATA_TYPE_FLOAT => getFloat32
  | DATA_TYPE_DOUBLE => getFloat64
  | DATA_TYPE_INT64 | DATA_TYPE_UINT64 => fun _ _ => Throw TypeError
  end.

Definition has_getter (t : DataType) : bool :=
  match t with
  | DATA_TYPE_INT64 | DATA_TYPE_UINT64 => false
  | _ => true
  end.


(** Decidable forms of [attribute_ok] and [schema_ok]. *)
Definition attribute_okb (a : PointAttributeType) : bool :=
  (read_width a <=? byteSize a)
  && (is_position (name a) || is_rgba (name a) || has_getter (type a)).

Fixpoint distinctb (l : list string) : bool :=
  match l with
  | [] => true
  | s :: l' => negb (existsb (String.eqb s) l') && distinctb l'
  end.

Definition schema_okb (data : MessageData) : bool :=
  forallb attribute_okb (attributes (pointAttributes data))
  && (numPoints data * bytesPerPoint (pointAttributes data) <=? length (buffer data))
  && distinctb (output_names (pointAttributes data))
  && forallb (fun v =>
                forallb (fun s => existsb (String.eqb s)
                                          (map name (attributes (pointAttributes data))))
                        (vector_attributes v))
             (vectors (pointAttributes data)).

End DecoderSpec.

Section DecoderFacts.
Import JS Num DataView Decoder DecoderSpec.

Lemma point_in_range (n bpp off w j len : nat) :
  n * bpp <= len -> off + w <= bpp -> j < n -> j * bpp + off + w <= len.
Proof.
  intros H1 H2 H3.
  assert (S j * bpp <= n * bpp) by (apply Nat.mul_le_mono_r; lia).
  simpl in *. lia.
Qed.

Lemma position_loop data bpp off g occ :
  numPoints data * bpp <= length (buffer data) ->
  off + 12 <= bpp ->
  exists g' occ' positions,
    foldM (position_point data bpp off) (seq 0 (numPoints data))
          (g, occ, replicate (3 * numPoints data) zero) = Ok (g', occ', positions)
    /\ forall ab, out_buffer ab = F32 positions -> position_entry data bpp off ab.
Proof.
  intros Hlen Hoff.
  destruct (foldM_seq_total (position_point data bpp off)
    (fun i st =>
       length (snd st) = 3 * numPoints data
       /\ forall j, j < i ->
         exists rx ry rz,
           getInt32 (buffer data) (j * bpp + off + 0) = Ok rx
           /\ getInt32 (buffer data) (j * bpp + off + 4) = Ok ry
           /\ getInt32 (buffer data) (j * bpp + off + 8) = Ok rz
           /\ snd st !! (3 * j + 0)
              = Some (fround (decode_coord rx (x (scale data)) (x (offset data)) (x (min data))))
           /\ snd st !! (3 * j + 1)
              = Some (fround (decode_coord ry (y (scale data)) (y (offset data)) (y (min data))))
           /\ snd st !! (3 * j + 2)
              = Some (fround (decode_coord rz (z (scale data)) (z (offset data)) (z (min data)))))
    (numPoints data) 0 (g, occ, replicate (3 * numPoints data) zero))
    as ([[g' occ'] positions] & Hrun & Hlen' & Hall).
  - split; [apply length_replicate|]. intros; lia.
  - intros i [[g0 occ0] pos] Hi [Hl Hprev]. cbn [snd] in *.
    destruct (getInt32_ok (buffer data) (i * bpp + off + 0)) as [rx Hx].
    { pose proof (point_in_range _ _ off 12 i _ Hlen Hoff). lia. }
    destruct (getInt32_ok (buffer data) (i * bpp + off + 4)) as [ry Hy].
    { pose proof (point_in_range _ _ off 12 i _ Hlen Hoff). lia. }
    destruct (getInt32_ok (buffer data) (i * bpp + off + 8)) as [rz Hz].
    { pose proof (point_in_range _ _ off 12 i _ Hlen Hoff). lia. }
    unfold position_point. rewrite Hx, Hy, Hz. cbn [bind].
    destruct (grid_increment g0 _) as [count g1].
    eexists. split; [reflexivity|]. cbn [snd].
    split; [rewrite !length_insert; exact Hl|].
    intros j Hj. destruct (decide (j = i)) as [->|Hne].
    + exists rx, ry, rz. repeat split; try assumption.
      * rewrite !list_lookup_insert_ne by lia.
        apply list_lookup_insert_eq. lia.
      * rewrite list_lookup_insert_ne by lia.
        apply list_lookup_insert_eq. rewrite length_insert. lia.
      * apply list_lookup_insert_eq. rewrite !length_insert. lia.
    + destruct (Hprev j) as (jx & jy & jz & H1 & H2 & H3 & H4 & H5 & H6); [lia|].
      exists jx, jy, jz. repeat split; try assumption;
        rewrite !list_lookup_insert_ne by lia; assumption.
  - exists g', occ', positions. split; [exact Hrun|].
    intros ab Hab. exists positions. cbn [snd] in *. split; [exact Hab|].
    split; [exact Hlen'|]. intros j Hj. apply Hall. lia.
Qed.


Lemma rgba_loop data bpp off :
  numPoints data * bpp <= length (buffer data) ->
  off + 6 <= bpp ->
  exists colors,
    foldM (rgba_point data bpp off) (seq 0 (numPoints data))
          (replicate (4 * numPoints data) 0%Z) = Ok colors
    /\ forall ab, out_buffer ab = U8 colors -> rgba_entry data bpp off ab.
Proof.
  intros Hlen Hoff.
  destruct (foldM_seq_total (rgba_point data bpp off)
    (fun i colors =>
       length colors = 4 * numPoints data
       /\ (forall j, j < i ->
             exists r g b,
               getUint16 (buffer data) (j * bpp + off + 0) = Ok r
               /\ getUint16 (buffer data) (j * bpp + off + 2) = Ok g
               /\ getUint16 (buffer data) (j * bpp + off + 4) = Ok b
               /\ colors !! (4 * j + 0) = Some (color_channel r)
               /\ colors !! (4 * j + 1) = Some (color_channel g)
               /\ colors !! (4 * j + 2) = Some (color_channel b))
       /\ (forall j, j < numPoints data -> colors !! (4 * j + 3) = Some 0%Z))
    (numPoints data) 0 (replicate (4 * numPoints data) 0%Z))
    as (colors & Hrun & Hl & Hall & Halpha).
  - split; [apply length_replicate|]. split; [intros; lia|].
    intros j Hj. apply lookup_replicate_2. lia.
  - intros i colors Hi (Hl & Hprev & Halpha).
    destruct (getUint16_ok (buffer data) (i * bpp + off + 0)) as [r Hr].
    { pose proof (point_in_range _ _ off 6 i _ Hlen Hoff). lia. }
    destruct (getUint16_ok (buffer data) (i * bpp + off + 2)) as [g Hg].
    { pose proof (point_in_range _ _ off 6 i _ Hlen Hoff). lia. }
    destruct (getUint16_ok (buffer data) (i * bpp + off + 4)) as [b Hb].
    { pose proof (point_in_range _ _ off 6 i _ Hlen Hoff). lia. }
    unfold rgba_point. rewrite Hr, Hg, Hb. cbn [bind].
    eexists. split; [reflexivity|].
    split; [rewrite !length_insert; exact Hl|]. split.
    + intros j Hj. destruct (decide (j = i)) as [->|Hne].
      * exists r, g, b. repeat split; try assumption.
        -- rewrite !list_lookup_insert_ne by lia. apply list_lookup_insert_eq. lia.
        -- rewrite list_lookup_insert_ne by lia.
           apply list_lookup_insert_eq. rewrite length_insert. lia.
        -- apply list_lookup_insert_eq. rewrite !length_insert. lia.
      * destruct (Hprev j) as (jr & jg & jb & H1 & H2 & H3 & H4 & H5 & H6); [lia|].
        exists jr, jg, jb. repeat split; try assumption;
          rewrite !list_lookup_insert_ne by lia; assumption.
    + intros j Hj. rewrite !list_lookup_insert_ne by lia. apply Halpha. exact Hj.
  - exists colors. split; [exact Hrun|]. intros ab Hab. exists colors.
    split; [exact Hab|]. split; [exact Hl|]. intros j Hj.
    destruct (Hall j) as (r & g & b & H1 & H2 & H3 & H4 & H5 & H6); [lia|].
    exists r, g, b. repeat split; try assumption. apply Halpha. exact Hj.
Qed.

(** Every getter of [getterMap] reads [type_size] bytes. *)
Lemma getter_ok t getter (view : ArrayBuffer) off :
  getterMap t = Some getter ->
  off + type_size t <= length view ->
  exists value, getter view off = Ok value.
Proof.
  intros Hg Hoff.
  destruct t; cbn in Hg, Hoff; try discriminate; injection Hg as <-;
    unfold as_number, getInt8, getInt16, getInt32, getUint8, getUint16, getUint32,
           getFloat32, getFloat64;
    rewrite read_bytes_ok by lia; cbn; eauto.
Qed.

Lemma generic_loop data bpp off a getter :
  numPoints data * bpp <= length (buffer data) ->
  off + type_size (type a) <= bpp ->
  getterMap (type a) = Some getter ->
  exists f32 precise,
    foldM (generic_point data a getter bpp off) (seq 0 (numPoints data))
          (replicate (numPoints data) zero, replicate (numPoints data) zero)
      = Ok (f32, precise)
    /\ length f32 = numPoints data
    /\ length precise = numPoints data
    /\ forall j, j < numPoints data ->
         exists value,
           getter (buffer data) (j * bpp + off) = Ok value
           /\ f32 !! j
              = Some (fround (fmul (fsub value (fst (pack_params a))) (snd (pack_params a))))
           /\ precise !! j = Some (typed_store (typedArrayMapping (type a)) value).
Proof.
  intros Hlen Hoff Hget.
  destruct (foldM_seq_total (generic_point data a getter bpp off)
    (fun i st =>
       length (fst st) = numPoints data /\ length (snd st) = numPoints data
       /\ forall j, j < i ->
         exists value,
           getter (buffer data) (j * bpp + off) = Ok value
           /\ fst st !! j
              = Some (fround (fmul (fsub value (fst (pack_params a))) (snd (pack_params a))))
           /\ snd st !! j = Some (typed_store (typedArrayMapping (type a)) value))
    (numPoints data) 0 (replicate (numPoints data) zero, replicate (numPoints data) zero))
    as ([f32 precise] & Hrun & Hl1 & Hl2 & Hall).
  - cbn [fst snd]. rewrite !length_replicate.
    split; [reflexivity|]. split; [reflexivity|]. intros; lia.
  - intros i [f32 precise] Hi (Hl1 & Hl2 & Hprev). cbn [fst snd] in *.
    destruct (getter_ok (type a) getter (buffer data) (i * bpp + off) Hget) as [value Hv].
    { pose proof (point_in_range _ _ off (type_size (type a)) i _ Hlen Hoff). lia. }
    unfold generic_point. rewrite Hv. cbn [bind].
    eexists. split; [reflexivity|]. cbn [fst snd].
    rewrite !length_insert. split; [exact Hl1|]. split; [exact Hl2|].
    intros j Hj. destruct (decide (j = i)) as [->|Hne].
    + exists value. split; [exact Hv|].
      split; apply list_lookup_insert_eq; lia.
    + destruct (Hprev j) as (v & H1 & H2 & H3); [lia|].
      exists v. rewrite !list_lookup_insert_ne by lia. auto.
  - exists f32, precise. cbn [fst snd] in *.
    split; [exact Hrun|]. split; [exact Hl1|]. split; [exact Hl2|].
    intros j Hj. apply Hall. lia.
Qed.

(** One attribute: the decoder succeeds, advances the cursor by the byte
    size, and writes the attribute's entry under its name. *)
Lemma decode_attribute_spec data bpp a st :
  attribute_ok a ->
  numPoints data * bpp <= length (buffer data) ->
  attributeOffset st + byteSize a <= bpp ->
  exists st' ab,
    decode_attribute data bpp a st = Ok st'
    /\ attributeOffset st' = attributeOffset st + byteSize a
    /\ attributeBuffers st' = <[name a := ab]> (attributeBuffers st)
    /\ entry_of data bpp (attributeOffset st) a ab.
Proof.
  intros [Hw Hget] Hlen Hoff. unfold decode_attribute, entry_of, read_width in *.
  destruct (is_position (name a)) eqn:Hpos.
  - destruct (position_loop data bpp (attributeOffset st) (grid st) (numOccupiedCells st) Hlen)
      as (g & occ & positions & Hrun & Hent); [lia|].
    rewrite Hrun. cbn [bind]. eexists _, _. split; [reflexivity|]. cbn.
    split; [reflexivity|]. split; [reflexivity|]. split; [reflexivity|].
    apply Hent. reflexivity.
  - destruct (is_rgba (name a)) eqn:Hrgba.
    + destruct (rgba_loop data bpp (attributeOffset st) Hlen) as (colors & Hrun & Hent);
        [lia|].
      rewrite Hrun. cbn [bind]. eexists _, _. split; [reflexivity|]. cbn.
      split; [reflexivity|]. split; [reflexivity|]. split; [reflexivity|].
      apply Hent. reflexivity.
    + destruct (Hget eq_refl eq_refl) as [getter Hg]. rewrite Hg.
      destruct (generic_loop data bpp (attributeOffset st) a getter Hlen) as
        (f32 & precise & Hrun & Hl1 & Hl2 & Hall); [lia|exact Hg|].
      rewrite Hrun. cbn [bind]. eexists _, _. split; [reflexivity|]. cbn.
      split; [reflexivity|]. split; [reflexivity|]. split; [reflexivity|].
      exists getter, f32, precise. repeat split; auto.
Qed.


Lemma bytesPerPoint_sizes pa : bytesPerPoint pa = sizes (attributes pa).
Proof.
  unfold bytesPerPoint.
  assert (forall l z, foldl (fun acc a => acc + byteSize a) z l = z + sizes l) as H.
  { induction l as [|a l IH]; intros z; simpl; [lia|]. rewrite IH. lia. }
  apply (H _ 0).
Qed.

Lemma sizes_app l1 l2 : sizes (l1 ++ l2) = sizes l1 + sizes l2.
Proof. induction l1 as [|a l1 IH]; simpl; [reflexivity|]. rewrite IH. lia. Qed.

(** The loop over the attributes. *)
Lemma decode_attributes_loop data bpp :
  numPoints data * bpp <= length (buffer data) ->
  forall l st,
  Forall attribute_ok l ->
  attributeOffset st + sizes l <= bpp ->
  exists st',
    foldM (decode_attribute data bpp) l st = Ok st'
    /\ attributeOffset st' = attributeOffset st + sizes l
    /\ (forall k, k ∉ map name l ->
          attributeBuffers st' !! k = attributeBuffers st !! k)
    /\ (forall pre a post, l = (pre ++ a :: post)%list -> name a ∉ map name post ->
          exists ab, attributeBuffers st' !! name a = Some ab
                     /\ entry_of data bpp (attributeOffset st + sizes pre) a ab).
Proof.
  intros Hlen. induction l as [|a l IH]; intros st Hok Hoff.
  - exists st. cbn. split; [reflexivity|]. split; [lia|]. split; [auto|].
    intros [|? ?] ? ? H; discriminate H.
  - apply Forall_cons in Hok as [Ha Hl]. cbn [sizes foldr] in Hoff.
    destruct (decode_attribute_spec data bpp a st Ha Hlen) as (st1 & ab & Hrun & Ho & Hb & Hent);
      [lia|].
    destruct (IH st1 Hl) as (st' & Hrun' & Ho' & Hfr & Hsplit); [fold (sizes l) in *; lia|].
    exists st'. cbn [foldM]. rewrite Hrun. cbn [bind].
    split; [exact Hrun'|]. split; [cbn [sizes foldr]; fold (sizes l); lia|]. split.
    + intros k Hk. cbn [map] in Hk. apply not_elem_of_cons in Hk as [Hk1 Hk2].
      rewrite Hfr by exact Hk2. rewrite Hb. apply lookup_insert_ne. congruence.
    + intros pre a0 post Heq Hnot. destruct pre as [|p pre]; cbn in Heq.
      * injection Heq as <- <-. exists ab. rewrite Hfr by exact Hnot.
        rewrite Hb, lookup_insert_eq. split; [reflexivity|].
        cbn [sizes foldr]. rewrite Nat.add_0_r. exact Hent.
      * injection Heq as <- ->.
        destruct (Hsplit pre a0 post eq_refl Hnot) as (ab0 & H1 & H2).
        exists ab0. split; [exact H1|]. rewrite Ho in H2.
        cbn [sizes foldr]. fold (sizes pre). rewrite Nat.add_assoc. exact H2.
Qed.

Lemma entry_readable data bpp off a ab :
  entry_of data bpp off a ab -> readable (numPoints data) (out_buffer ab).
Proof.
  intros [_ H] j Hj.
  destruct (is_position (name a)); [|destruct (is_rgba (name a))].
  - destruct H as (l & -> & Hl & _). cbn.
    destruct (lookup_lt_is_Some_2 l j) as [v ->]; [lia|]. eauto.
  - destruct H as (l & -> & Hl & _). cbn.
    rewrite (proj2 (Nat.leb_le _ _)) by lia. eauto.
  - destruct H as (g & l & p & _ & -> & _ & _ & _ & Hl & _). cbn.
    destruct (lookup_lt_is_Some_2 l j) as [v ->]; [lia|]. eauto.
Qed.

(** *** Vectors *)

Lemma stride_index_inj k i i' j j' :
  i < k -> i' < k -> j * k + i = j' * k + i' -> j = j' /\ i = i'.
Proof.
  intros Hi Hi' H.
  assert (i = i') as ->.
  { assert ((j * k + i) mod k = (j' * k + i') mod k) as Hm by congruence.
    rewrite !(Nat.add_comm (_ * k)), !Nat.Div0.mod_add, !Nat.mod_small in Hm by lia.
    exact Hm. }
  split; [|reflexivity]. nia.
Qed.

Lemma stride_index_bound n k i j : i < k -> j < n -> j * k + i < k * n.
Proof. intros. nia. Qed.

Lemma foldM_list_total {A T} (f : A -> T -> result T) (P : nat -> T -> Prop) l :
  forall p s,
  P p s ->
  (forall i a t, l !! i = Some a -> P (p + i) t ->
     exists t', f a t = Ok t' /\ P (S (p + i)) t') ->
  exists s', foldM f l s = Ok s' /\ P (p + length l) s'.
Proof.
  induction l as [|a l IH]; intros p s Hs Hstep; cbn [foldM length].
  - exists s. rewrite Nat.add_0_r. auto.
  - destruct (Hstep 0 a s) as (t & Hf & Ht); [reflexivity|rewrite Nat.add_0_r; exact Hs|].
    rewrite Hf. cbn [bind]. rewrite Nat.add_0_r in Ht.
    replace (p + S (length l)) with (S p + length l) by lia.
    apply IH; [exact Ht|]. intros i b u Hb Hu.
    replace (S p + i) with (p + S i) in * by lia. apply Hstep; assumption.
Qed.

(** One source of a vector. *)
Lemma vector_source_spec n k bufs s sb i f32 :
  bufs !! s = Some sb ->
  readable n (out_buffer sb) ->
  i < k -> length f32 = k * n ->
  exists f32',
    vector_source n k bufs s (i, f32) = Ok (S i, f32')
    /\ length f32' = k * n
    /\ (forall j, j < n ->
          exists value,
            readFloat32 (out_buffer sb) j = Ok value
            /\ f32' !! (j * k + i)
               = Some (fround (fadd (fdiv value (ToNumber (out_scale sb)))
                                    (ToNumber (out_offset sb)))))
    /\ (forall i' j, i' < k -> i' <> i -> f32' !! (j * k + i') = f32 !! (j * k + i')).
Proof.
  intros Hs Hread Hi Hlen. unfold vector_source. rewrite Hs.
  match goal with
  | |- context [foldM ?f (seq 0 n) f32] =>
      destruct (foldM_seq_total f
        (fun j0 l =>
           length l = k * n
           /\ (forall j, j < j0 ->
                 exists value,
                   readFloat32 (out_buffer sb) j = Ok value
                   /\ l !! (j * k + i)
                      = Some (fround (fadd (fdiv value (ToNumber (out_scale sb)))
                                           (ToNumber (out_offset sb)))))
           /\ (forall i' j, i' < k -> i' <> i -> l !! (j * k + i') = f32 !! (j * k + i')))
        n 0 f32) as (f32' & Hrun & Hl & Hall & Hfr)
  end.
  - split; [exact Hlen|]. split; [intros; lia|]. reflexivity.
  - intros j0 l Hj0 (Hl & Hprev & Hfr).
    destruct (Hread j0) as [value Hv]; [lia|]. rewrite Hv. cbn [bind].
    eexists. split; [reflexivity|].
    split; [rewrite length_insert; exact Hl|]. split.
    + intros j Hj. destruct (decide (j = j0)) as [->|Hne].
      * exists value. split; [exact Hv|]. apply list_lookup_insert_eq.
        rewrite Hl. apply stride_index_bound; lia.
      * destruct (Hprev j) as (v & H1 & H2); [lia|]. exists v. split; [exact H1|].
        rewrite list_lookup_insert_ne; [exact H2|].
        intros E. apply stride_index_inj in E as [E _]; [congruence|lia|lia].
    + intros i' j Hi' Hne. rewrite list_lookup_insert_ne; [apply Hfr; assumption|].
      intros E. apply stride_index_inj in E as [_ E]; [congruence|lia|lia].
  - rewrite Hrun. cbn [bind]. exists f32'. split; [reflexivity|].
    split; [exact Hl|]. split; [|exact Hfr]. intros j Hj. apply Hall. lia.
Qed.

(** One vector. *)
Lemma synth_vector_spec n v bufs :
  (forall s, s ∈ vector_attributes v ->
     exists sb, bufs !! s = Some sb /\ readable n (out_buffer sb)) ->
  exists vb l,
    synth_vector n v bufs = Ok (<[vector_name v := vb]> bufs)
    /\ out_buffer vb = F32 l
    /\ vector_entry n bufs v l.
Proof.
  intros Hsrc. unfold synth_vector, vector_entry.
  set (k := length (vector_attributes v)).
  destruct (foldM_list_total (vector_source n k bufs)
    (fun p st =>
       fst st = p /\ length (snd st) = k * n
       /\ forall i s, i < p -> vector_attributes v !! i = Some s ->
            exists sb,
              bufs !! s = Some sb
              /\ forall j, j < n ->
                   exists value,
                     readFloat32 (out_buffer sb) j = Ok value
                     /\ snd st !! (j * k + i)
                        = Some (fround (fadd (fdiv value (ToNumber (out_scale sb)))
                                             (ToNumber (out_offset sb)))))
    (vector_attributes v) 0 (0, replicate (k * n) zero))
    as ([p f32] & Hrun & Hp & Hl & Hall).
  - cbn [fst snd]. split; [reflexivity|]. split; [apply length_replicate|]. intros; lia.
  - intros i s [p f32] Hi (Hp & Hl & Hprev). cbn [fst snd Nat.add] in *. subst p.
    destruct (Hsrc s) as (sb & Hsb & Hread); [eapply list_elem_of_lookup_2; eauto|].
    assert (i < k) as Hik by (eapply lookup_lt_Some; eauto).
    destruct (vector_source_spec n k bufs s sb i f32 Hsb Hread Hik Hl)
      as (f32' & Hrun & Hl' & Hnew & Hfr).
    exists (S i, f32'). split; [exact Hrun|]. cbn [fst snd].
    split; [reflexivity|]. split; [exact Hl'|].
    intros i' s' Hi' Hs'. destruct (decide (i' = i)) as [->|Hne].
    + assert (s' = s) as -> by congruence. exists sb. split; [exact Hsb|exact Hnew].
    + destruct (Hprev i' s') as (sb' & H1 & H2); [lia|exact Hs'|].
      exists sb'. split; [exact H1|]. intros j Hj.
      destruct (H2 j Hj) as (value & H3 & H4). exists value. split; [exact H3|].
      rewrite Hfr; [exact H4| |exact Hne].
      eapply lookup_lt_Some; eauto.
  - rewrite Hrun. cbn [bind fst snd Nat.add] in *.
    eexists _, f32. split; [reflexivity|]. split; [reflexivity|].
    split; [exact Hl|]. intros i s Hs. apply (Hall i s); [|exact Hs].
    eapply lookup_lt_Some; eauto.
Qed.

(** The loop over the vectors: no vector overwrites a source. *)
Lemma synth_vectors_loop n :
  forall vs bufs,
  (forall v s, v ∈ vs -> s ∈ vector_attributes v ->
     (s ∉ map vector_name vs)
     /\ exists sb, bufs !! s = Some sb /\ readable n (out_buffer sb)) ->
  exists bufs',
    foldM (synth_vector n) vs bufs = Ok bufs'
    /\ (forall k, k ∉ map vector_name vs -> bufs' !! k = bufs !! k)
    /\ (forall vpre v vpost, vs = (vpre ++ v :: vpost)%list ->
          vector_name v ∉ map vector_name vpost ->
          exists vb l, bufs' !! vector_name v = Some vb /\ out_buffer vb = F32 l
                       /\ vector_entry n bufs v l).
Proof.
  induction vs as [|v vs IH]; intros bufs Hsrc.
  - exists bufs. cbn. split; [reflexivity|]. split; [auto|].
    intros [|? ?] ? ? H; discriminate H.
  - destruct (synth_vector_spec n v bufs) as (vb & l & Hrun & Hvb & Hent).
    { intros s Hs. apply (Hsrc v s); [left|exact Hs]. }
    destruct (IH (<[vector_name v := vb]> bufs)) as (bufs' & Hrun' & Hfr & Hsplit).
    { intros v' s Hv' Hs. destruct (Hsrc v' s) as (Hnot & sb & Hsb & Hr);
        [right; exact Hv'|exact Hs|].
      cbn [map] in Hnot. apply not_elem_of_cons in Hnot as [Hne Hnot].
      split; [exact Hnot|]. exists sb. rewrite lookup_insert_ne by congruence. auto. }
    exists bufs'. cbn [foldM]. rewrite Hrun. cbn [bind]. split; [exact Hrun'|]. split.
    + intros k Hk. cbn [map] in Hk. apply not_elem_of_cons in Hk as [Hk1 Hk2].
      rewrite Hfr by exact Hk2. apply lookup_insert_ne. congruence.
    + intros vpre v0 vpost Heq Hnot. destruct vpre as [|p vpre]; cbn in Heq.
      * injection Heq as <- <-. exists vb, l. rewrite Hfr by exact Hnot.
        rewrite lookup_insert_eq. auto.
      * injection Heq as <- ->.
        destruct (Hsplit vpre v0 vpost eq_refl Hnot) as (vb0 & l0 & H1 & H2 & H3 & H4).
        exists vb0, l0. split; [exact H1|]. split; [exact H2|]. split; [exact H3|].
        intros i s Hs. destruct (H4 i s Hs) as (sb & Hsb & Hj).
        exists sb. split; [|exact Hj].
        destruct (Hsrc v0 s) as (Hn & _).
        { right. apply elem_of_app. right. left. }
        { eapply list_elem_of_lookup_2; eauto. }
        cbn [map] in Hn. apply not_elem_of_cons in Hn as [Hne _].
        rewrite lookup_insert_ne in Hsb by congruence. exact Hsb.
Qed.


Lemma NoDup_app_cons_not_in {A} (l1 : list A) a l2 :
  NoDup (l1 ++ a :: l2) -> (a ∉ l1) /\ (a ∉ l2).
Proof.
  intros H. apply NoDup_app in H as (_ & Hdisj & Hnd).
  apply NoDup_cons in Hnd as [Hnot _]. split; [|exact Hnot].
  intros Hin. apply (Hdisj a Hin). left.
Qed.

(** The whole of [handleMessage] on a message it can process. *)
Lemma handleMessage_spec data :
  schema_ok data ->
  exists st out,
    decode_attributes data = Ok st
    /\ handleMessage data = Ok out
    /\ density out = fdiv (of_nat (numPoints data)) (of_nat (numOccupiedCells st))
    /\ (forall pre a post,
          attributes (pointAttributes data) = (pre ++ a :: post)%list ->
          exists ab,
            message_attributeBuffers out !! name a = Some ab
            /\ entry_of data (bytesPerPoint (pointAttributes data)) (sizes pre) a ab)
    /\ (forall vpre v vpost,
          vectors (pointAttributes data) = (vpre ++ v :: vpost)%list ->
          exists vb l,
            message_attributeBuffers out !! vector_name v = Some vb
            /\ out_buffer vb = F32 l
            /\ vector_entry (numPoints data) (message_attributeBuffers out) v l).
Proof.
  intros (Hattrs & Hlen & Hnd & Hvec).
  set (pa := pointAttributes data) in *. set (bpp := bytesPerPoint pa) in *.
  unfold output_names in Hnd.
  apply NoDup_app in Hnd as (Hnd1 & Hdisj & Hnd2).
  apply NoDup_cons in Hnd2 as [Hind Hnd2].
  destruct (decode_attributes_loop data bpp Hlen (attributes pa) initial_state Hattrs)
    as (st & Hrun & _ & _ & Hsplit).
  { cbn. unfold bpp. rewrite bytesPerPoint_sizes. lia. }
  assert (forall pre a post, attributes pa = (pre ++ a :: post)%list ->
            exists ab, attributeBuffers st !! name a = Some ab
                       /\ entry_of data bpp (sizes pre) a ab) as Hentry.
  { intros pre a post Heq. apply (Hsplit pre a post Heq).
    rewrite Heq, map_app in Hnd1. cbn [map] in Hnd1.
    apply NoDup_app_cons_not_in in Hnd1. tauto. }
  assert (forall a, a ∈ attributes pa ->
            name a <> "INDICES"%string /\ name a ∉ map vector_name (vectors pa)) as Hkey.
  { intros a Ha. assert (name a ∈ map name (attributes pa)) as Hin
      by (apply list_elem_of_fmap_2; exact Ha).
    specialize (Hdisj _ Hin). apply not_elem_of_cons in Hdisj. exact Hdisj. }
  set (bufs0 := <["INDICES"%string :=
                   {| out_buffer := U32 (indices_buffer (numPoints data));
                      preciseBuffer := None; attribute := INDICES;
                      out_offset := None; out_scale := None |}]> (attributeBuffers st)).
  assert (forall a, a ∈ attributes pa ->
            bufs0 !! name a = attributeBuffers st !! name a) as Hb0.
  { intros a Ha. unfold bufs0. apply lookup_insert_ne.
    destruct (Hkey a Ha) as [Hne _]. congruence. }
  destruct (synth_vectors_loop (numPoints data) (vectors pa) bufs0)
    as (bufs' & Hrun' & Hfr & Hvsplit).
  { intros v s Hv Hs.
    rewrite Forall_forall in Hvec. specialize (Hvec v Hv).
    rewrite Forall_forall in Hvec. specialize (Hvec s Hs).
    apply list_elem_of_fmap in Hvec as (a & -> & Ha).
    split; [apply (Hkey a Ha)|].
    apply list_elem_of_split in Ha as (pre & post & Heq).
    destruct (Hentry pre a post Heq) as (ab & Hab & Hent).
    exists ab. split; [|eapply entry_readable; exact Hent].
    rewrite Hb0; [exact Hab|]. rewrite Heq. apply elem_of_app. right. left. }
  exists st, {| message_buffer := buffer data; message_attributeBuffers := bufs';
                density := fdiv (of_nat (numPoints data)) (of_nat (numOccupiedCells st)) |}.
  split; [exact Hrun|]. split.
  { unfold handleMessage. fold pa. unfold decode_attributes. fold pa bpp.
    rewrite Hrun. cbn [bind]. fold bufs0. rewrite Hrun'. reflexivity. }
  split; [reflexivity|]. cbn [message_attributeBuffers]. split.
  - intros pre a post Heq. destruct (Hentry pre a post Heq) as (ab & Hab & Hent).
    exists ab. split; [|exact Hent].
    assert (a ∈ attributes pa) as Ha by (rewrite Heq; apply elem_of_app; right; left).
    rewrite Hfr by (apply (Hkey a Ha)). rewrite Hb0 by exact Ha. exact Hab.
  - intros vpre v vpost Heq.
    destruct (Hvsplit vpre v vpost Heq) as (vb & l & H1 & H2 & H3 & H4).
    { rewrite Heq, map_app in Hnd2. cbn [map] in Hnd2.
      apply NoDup_app_cons_not_in in Hnd2. tauto. }
    exists vb, l. split; [exact H1|]. split; [exact H2|]. split; [exact H3|].
    intros i s Hs. destruct (H4 i s Hs) as (sb & Hsb & Hj).
    exists sb. split; [|exact Hj].
    assert (v ∈ vectors pa) as Hv by (rewrite Heq; apply elem_of_app; right; left).
    rewrite Forall_forall in Hvec. specialize (Hvec v Hv).
    rewrite Forall_forall in Hvec.
    specialize (Hvec s (list_elem_of_lookup_2 _ _ _ Hs)).
    apply list_elem_of_fmap in Hvec as (a & -> & Ha).
    rewrite Hfr by (apply (Hkey a Ha)). exact Hsb.
Qed.


Lemma existsb_eqb_elem_of (s : string) (l : list string) :
  existsb (String.eqb s) l = true <-> s ∈ l.
Proof.
  rewrite existsb_exists. split.
  - intros (y & Hy & E). apply String.eqb_eq in E as ->. apply list_elem_of_In. exact Hy.
  - intros H. exists s. split; [apply list_elem_of_In; exact H|apply String.eqb_refl].
Qed.

Lemma distinctb_NoDup (l : list string) : distinctb l = true -> NoDup l.
Proof.
  induction l as [|s l IH]; cbn; intros H; [constructor|].
  apply andb_true_iff in H as [H1 H2]. constructor; [|apply IH; exact H2].
  intros Hin. apply existsb_eqb_elem_of in Hin. rewrite Hin in H1. discriminate.
Qed.

Lemma attribute_okb_ok a : attribute_okb a = true -> attribute_ok a.
Proof.
  unfold attribute_okb, attribute_ok. intros H.
  apply andb_true_iff in H as [H1 H2]. apply Nat.leb_le in H1.
  split; [exact H1|]. intros Hp Hr. rewrite Hp, Hr in H2. cbn in H2.
  destruct (type a); cbn in *; try discriminate; eauto.
Qed.

Lemma schema_okb_ok data : schema_okb data = true -> schema_ok data.
Proof.
  unfold schema_okb, schema_ok. intros H.
  apply andb_true_iff in H as [H H4]. apply andb_true_iff in H as [H H3].
  apply andb_true_iff in H as [H1 H2].
  split; [|split; [|split]].
  - apply Forall_forall. intros a Ha. apply attribute_okb_ok.
    rewrite forallb_forall in H1. apply H1. apply list_elem_of_In. exact Ha.
  - apply Nat.leb_le. exact H2.
  - apply distinctb_NoDup. exact H3.
  - apply Forall_forall. intros v Hv. apply Forall_forall. intros s Hs.
    rewrite forallb_forall in H4. specialize (H4 v (proj1 (list_elem_of_In _ _) Hv)).
    rewrite forallb_forall in H4. specialize (H4 s (proj1 (list_elem_of_In _ _) Hs)).
    apply existsb_eqb_elem_of. exact H4.
Qed.

(** C6: decoding a buffer of [numPoints] points whose schema has a position
    attribute [a] (at byte [sizes pre] of each record).  The decoder succeeds;
    the buffer it stores under the attribute's name is a [Float32Array] of
    exactly [3 * numPoints] entries; and entry [3 * j + axis] is the 32-bit
    rounding of the double-precision value
    [raw * scale[axis] + offset[axis] - min[axis]], where [raw] is the
    little-endian signed 32-bit integer read at byte [4 * axis] of the
    attribute in record [j]. *)
Theorem position_buffer_decoded data pre a post :
  schema_ok data ->
  attributes (pointAttributes data) = (pre ++ a :: post)%list ->
  is_position (name a) = true ->
  exists out ab positions,
    handleMessage data = Ok out
    /\ message_attributeBuffers out !! name a = Some ab
    /\ out_buffer ab = F32 positions
    /\ length positions = 3 * numPoints data
    /\ forall j axis, j < numPoints data -> axis < 3 ->
         exists raw,
           getInt32 (buffer data)
             (j * bytesPerPoint (pointAttributes data) + sizes pre + 4 * axis) = Ok raw
           /\ positions !! (3 * j + axis)
              = Some (fround (fsub (fadd (fmul (of_Z raw) (component axis (scale data)))
                                         (component axis (offset data)))
                                   (component axis (min data)))).
Proof.
  intros Hok Heq Hpos.
  destruct (handleMessage_spec data Hok) as (st & out & _ & Hrun & _ & Hattr & _).
  destruct (Hattr pre a post Heq) as (ab & Hab & _ & Hent).
  rewrite Hpos in Hent. destruct Hent as (positions & Hbuf & Hl & Hall).
  exists out, ab, positions. repeat (split; [assumption|]).
  intros j axis Hj Haxis.
  destruct (Hall j Hj) as (rx & ry & rz & Hx & Hy & Hz & Px & Py & Pz).
  destruct axis as [|[|[|axis]]]; [exists rx|exists ry|exists rz|lia]; auto.
Qed.

(** C4, as the code has it: a generic attribute (neither a position nor a
    colour name) of a message the decoder can process has one of the eight
    kinds with a getter, and is read with the getter of its kind.  The decoder
    stores a [Float32Array] display buffer and a precise buffer of [numPoints]
    entries each.  For a type wider than four bytes the display value is the
    32-bit rounding of [(value - rangeMin) * (1 / (rangeMax - rangeMin))], the
    precise buffer holds the value itself, and offset and scale are
    [rangeMin] and [1 / (rangeMax - rangeMin)]; otherwise offset and scale are
    0 and 1 and the display value, [(value - 0) * 1] stored in the
    [Float32Array], is the 32-bit rounding of the value itself. *)
Theorem generic_attribute_decoded data pre a post :
  schema_ok data ->
  attributes (pointAttributes data) = (pre ++ a :: post)%list ->
  is_position (name a) = false ->
  is_rgba (name a) = false ->
  has_getter (type a) = true
  /\ getterMap (type a) = Some (typed_getter (type a))
  /\ exists out ab f32 precise,
       handleMessage data = Ok out
       /\ message_attributeBuffers out !! name a = Some ab
       /\ out_buffer ab = F32 f32
       /\ preciseBuffer ab = Some precise
       /\ length f32 = numPoints data
       /\ length precise = numPoints data
       /\ (if (4 <? type_size (type a))%nat
           then out_offset ab = Some (fst (range a))
                /\ out_scale ab
                   = Some (fdiv (of_Z 1) (fsub (snd (range a)) (fst (range a))))
           else out_offset ab = Some (of_Z 0) /\ out_scale ab = Some (of_Z 1))
       /\ forall j, j < numPoints data ->
            exists value,
              typed_getter (type a) (buffer data)
                (j * bytesPerPoint (pointAttributes data) + sizes pre) = Ok value
              /\ if (4 <? type_size (type a))%nat
                 then f32 !! j
                      = Some (fround (fmul (fsub value (fst (range a)))
                                (fdiv (of_Z 1) (fsub (snd (range a)) (fst (range a))))))
                      /\ precise !! j = Some value
                 else f32 !! j = Some (fround value).
Proof.
  intros Hok Heq Hpos Hrgba.
  destruct (handleMessage_spec data Hok) as (st & out & _ & Hrun & _ & Hattr & _).
  destruct (Hattr pre a post Heq) as (ab & Hab & _ & Hent).
  rewrite Hpos, Hrgba in Hent.
  destruct Hent as (getter & f32 & precise & Hg & Hbuf & Hpre & Ho & Hs & Hl1 & Hl2 & Hall).
  assert (has_getter (type a) = true /\ getter = typed_getter (type a)) as [Hhas ->].
  { destruct (type a); cbn in Hg; try discriminate; injection Hg as <-; auto. }
  split; [exact Hhas|]. split; [exact Hg|].
  exists out, ab, f32, precise. repeat (split; [assumption|]).
  unfold pack_params in *. split.
  - destruct (4 <? type_size (type a))%nat; cbn [fst snd] in *; auto.
  - intros j Hj. destruct (Hall j Hj) as (value & Hv & Hf & Hp).
    exists value. split; [exact Hv|].
    destruct (4 <? type_size (type a))%nat eqn:Hwide; cbn [fst snd] in *.
    2: { rewrite (narrow_display (type a) _ _ _ value Hg Hv) in Hf. exact Hf. }
    split; [exact Hf|]. rewrite Hp.
    destruct (type a); cbn in Hwide; try discriminate; reflexivity.
Qed.


Lemma is_rgba_not_position n : is_rgba n = true -> is_position n = false.
Proof.
  unfold is_rgba, is_position. intros H. apply orb_true_iff in H.
  destruct H as [H|H]; apply String.eqb_eq in H; subst n; reflexivity.
Qed.

(** C9: the colour buffer of a message the decoder can process.  For every
    point [j] and channel [c] (red, green, blue), with [v] the little-endian
    16-bit value of the channel in the record, the byte stored at [4 * j + c]
    is [v / 256] (the quotient, which fits in eight bits) when [v > 255], and
    [v] itself when [v <= 255]. *)
Theorem color_channels_decoded data pre a post :
  schema_ok data ->
  attributes (pointAttributes data) = (pre ++ a :: post)%list ->
  is_rgba (name a) = true ->
  exists out ab colors,
    handleMessage data = Ok out
    /\ message_attributeBuffers out !! name a = Some ab
    /\ out_buffer ab = U8 colors
    /\ length colors = 4 * numPoints data
    /\ forall j c, j < numPoints data -> c < 3 ->
         exists v,
           getUint16 (buffer data)
             (j * bytesPerPoint (pointAttributes data) + sizes pre + 2 * c) = Ok v
           /\ (0 <= v < 65536)%Z
           /\ colors !! (4 * j + c) = Some (if (255 <? v)%Z then (v / 256)%Z else v)
           /\ (0 <= (if (255 <? v)%Z then (v / 256)%Z else v) < 256)%Z.
Proof.
  intros Hok Heq Hrgba.
  destruct (handleMessage_spec data Hok) as (st & out & _ & Hrun & _ & Hattr & _).
  destruct (Hattr pre a post Heq) as (ab & Hab & _ & Hent).
  rewrite (is_rgba_not_position _ Hrgba), Hrgba in Hent.
  destruct Hent as (colors & Hbuf & Hl & Hall).
  exists out, ab, colors. repeat (split; [assumption|]).
  intros j c Hj Hc.
  destruct (Hall j Hj) as (r & g & b & Hr & Hg & Hb & Cr & Cg & Cb & _).
  assert (forall v, (0 <= v < 65536)%Z ->
            (0 <= (if (255 <? v)%Z then (v / 256)%Z else v) < 256)%Z) as Hfit.
  { intros v Hv. destruct (Z.ltb_spec 255 v); [|lia]. split.
    - apply Z.div_pos; lia.
    - apply Z.div_lt_upper_bound; lia. }
  destruct c as [|[|[|c]]]; [exists r|exists g|exists b|lia].
  - pose proof (getUint16_range _ _ _ Hr) as Hv.
    rewrite (color_channel_value r Hv) in Cr.
    split; [exact Hr|]. split; [exact Hv|]. split; [exact Cr|apply Hfit; exact Hv].
  - pose proof (getUint16_range _ _ _ Hg) as Hv.
    rewrite (color_channel_value g Hv) in Cg.
    split; [exact Hg|]. split; [exact Hv|]. split; [exact Cg|apply Hfit; exact Hv].
  - pose proof (getUint16_range _ _ _ Hb) as Hv.
    rewrite (color_channel_value b Hv) in Cb.
    split; [exact Hb|]. split; [exact Hv|]. split; [exact Cb|apply Hfit; exact Hv].
Qed.

End DecoderFacts.

(** ** The decoder claims on concrete messages *)

Module DecoderExamples.
Import JS Num DataView Decoder.

(** A message for a node that is the box [0,3]^3 at the origin, with unit
    scale and no offset. *)
Definition message (attrs : list PointAttributeType) (vecs : list VectorAttribute)
    (buf : ArrayBuffer) (n : nat) : MessageData :=
  {| buffer := buf;
     pointAttributes := {| attributes := attrs; vectors := vecs |};
     scale := Examples.vec 1 1 1; node_name := "r";
     min := Examples.vec 0 0 0; max := Examples.vec 3 3 3;
     size := Examples.vec 3 3 3; offset := Examples.vec 0 0 0;
     numPoints := n |}.

(** One point with raw position (1, 1, 1). *)
Definition one_point : MessageData :=
  message [Examples.position_attribute] [] Examples.one_point 1.

(** Two points with raw positions (1, 2, 3) and (-1, 0, 5). *)
Definition two_points : MessageData :=
  message [Examples.position_attribute] []
    [x01; x00; x00; x00;  x02; x00; x00; x00;  x03; x00; x00; x00;
     xff; xff; xff; xff;  x00; x00; x00; x00;  x05; x00; x00; x00] 2.

(** A 64-bit integer attribute, as [parseAttributes] builds it for the type
    name "int64". *)
Definition int64_attribute : PointAttributeType :=
  new_PointAttributeType "user data" DATA_TYPE_INT64 1.

Definition one_int64 : MessageData :=
  message [int64_attribute] [] [x07; x00; x00; x00; x00; x00; x00; x00] 1.

(** A 16-bit intensity followed by a double with range [10, 18]; two points
    with intensities 513 and 7 and times 12.0 and 18.0. *)
Definition intensity : PointAttributeType :=
  new_PointAttributeType "intensity" DATA_TYPE_UINT16 1.

Definition gps_time : PointAttributeType :=
  {| name := "gps-time"; type := DATA_TYPE_DOUBLE; numElements := 1; byteSize := 8;
     range := (of_Z 10, of_Z 18) |}.

Definition intensity_and_time : MessageData :=
  message [intensity; gps_time] [{| vector_name := "T"; vector_attributes := ["gps-time"%string] |}]
    [x01; x02;  x00; x00; x00; x00; x00; x00; x28; x40;
     x07; x00;  x00; x00; x00; x00; x00; x00; x32; x40] 2.

(** Three one-byte attributes A, B, C, each holding 1, 2, 3 over three
    points, and a vector over (A, B, C). *)
Definition uint8_attribute (n : string) : PointAttributeType :=
  new_PointAttributeType n DATA_TYPE_UINT8 1.

Definition vector_ABC : VectorAttribute :=
  {| vector_name := "V"; vector_attributes := ["A"; "B"; "C"]%string |}.

Definition three_sources : MessageData :=
  message [uint8_attribute "A"; uint8_attribute "B"; uint8_attribute "C"] [vector_ABC]
    [x01; x01; x01;  x02; x02; x02;  x03; x03; x03] 3.

(** A colour attribute (three 16-bit channels) and one point with the
    channels 512, 200 and 65535. *)
Definition rgba_attribute : PointAttributeType :=
  new_PointAttributeType "rgba" DATA_TYPE_UINT16 3.

Definition one_colour : MessageData :=
  message [rgba_attribute] [] [x00; x02;  xc8; x00;  xff; xff] 1.





Definition bytes_of (name : string) (out : Message) : option (list Z) :=
  match message_attributeBuffers out !! name with
  | Some ab => match out_buffer ab with U8 l => Some l | _ => None end
  | None => None
  end.

(** The contents of an output buffer, when it is a [Float32Array]. *)
Definition floats_of (name : string) (out : Message) : option (list number) :=
  match message_attributeBuffers out !! name with
  | Some ab => match out_buffer ab with F32 l => Some l | _ => None end
  | None => None
  end.

Definition sum (l : list Z) : Z := foldr Z.add 0%Z l.

End DecoderExamples.

(** [position_buffer_decoded] for a position-only schema and two points. *)
Lemma position_buffer_decoded_witness :
  let data := DecoderExamples.two_points in
  exists out ab positions,
    Decoder.handleMessage data = JS.Ok out
    /\ Decoder.message_attributeBuffers out !! Decoder.name Examples.position_attribute
       = Some ab
    /\ Decoder.out_buffer ab = Decoder.F32 positions
    /\ length positions = 3 * Decoder.numPoints data
    /\ forall j axis, j < Decoder.numPoints data -> axis < 3 ->
         exists raw,
           DataView.getInt32 (Decoder.buffer data)
             (j * Decoder.bytesPerPoint (Decoder.pointAttributes data)
              + DecoderSpec.sizes [] + 4 * axis) = JS.Ok raw
           /\ positions !! (3 * j + axis)
              = Some (Num.fround
                        (Num.fsub
                           (Num.fadd
                              (Num.fmul (Num.of_Z raw)
                                 (DecoderSpec.component axis (Decoder.scale data)))
                              (DecoderSpec.component axis (Decoder.offset data)))
                           (DecoderSpec.component axis (Decoder.min data)))).
Proof.
  intros data.
  apply (position_buffer_decoded data [] Examples.position_attribute []).
  - apply schema_okb_ok. vm_compute. reflexivity.
  - reflexivity.
  - reflexivity.
Defined.

(** The six entries of the position buffer of the two example points. *)
Example position_buffer_of_two_points :
  match Decoder.handleMessage DecoderExamples.two_points with
  | JS.Ok out =>
      DecoderExamples.floats_of "position" out
      = Some [Num.of_Z 1; Num.of_Z 2; Num.of_Z 3; Num.of_Z (-1); Num.zero; Num.of_Z 5]
  | JS.Throw _ => False
  end.
Proof. vm_compute. reflexivity. Qed.

(** [generic_attribute_decoded] for the double attribute of the example
    schema (it follows a 16-bit attribute in every record). *)
Lemma generic_attribute_decoded_witness :
  let data := DecoderExamples.intensity_and_time in
  let a := DecoderExamples.gps_time in
  DecoderSpec.has_getter (Decoder.type a) = true
  /\ Decoder.getterMap (Decoder.type a) = Some (DecoderSpec.typed_getter (Decoder.type a))
  /\ exists out ab f32 precise,
       Decoder.handleMessage data = JS.Ok out
       /\ Decoder.message_attributeBuffers out !! Decoder.name a = Some ab
       /\ Decoder.out_buffer ab = Decoder.F32 f32
       /\ Decoder.preciseBuffer ab = Some precise
       /\ length f32 = Decoder.numPoints data
       /\ length precise = Decoder.numPoints data
       /\ (if (4 <? Decoder.type_size (Decoder.type a))%nat
           then Decoder.out_offset ab = Some (fst (Decoder.range a))
                /\ Decoder.out_scale ab
                   = Some (Num.fdiv (Num.of_Z 1)
                             (Num.fsub (snd (Decoder.range a)) (fst (Decoder.range a))))
           else Decoder.out_offset ab = Some (Num.of_Z 0)
                /\ Decoder.out_scale ab = Some (Num.of_Z 1))
       /\ forall j, j < Decoder.numPoints data ->
            exists value,
              DecoderSpec.typed_getter (Decoder.type a) (Decoder.buffer data)
                (j * Decoder.bytesPerPoint (Decoder.pointAttributes data)
                 + DecoderSpec.sizes [DecoderExamples.intensity]) = JS.Ok value
              /\ if (4 <? Decoder.type_size (Decoder.type a))%nat
                 then f32 !! j
                      = Some (Num.fround
                                (Num.fmul (Num.fsub value (fst (Decoder.range a)))
                                   (Num.fdiv (Num.of_Z 1)
                                      (Num.fsub (snd (Decoder.range a))
                                                (fst (Decoder.range a))))))
                      /\ precise !! j = Some value
                 else f32 !! j
                      = Some (Num.fround
                                (Num.fmul (Num.fsub value (Num.of_Z 0)) (Num.of_Z 1))).
Proof.
  intros data a.
  apply (generic_attribute_decoded data [DecoderExamples.intensity] a []).
  - apply schema_okb_ok. vm_compute. reflexivity.
  - reflexivity.
  - reflexivity.
  - reflexivity.
Defined.

(** The two generic attributes of the example: the 16-bit values 513 and 7
    are displayed as they are, with offset 0 and scale 1; the doubles 12 and 18
    of range [10, 18] are displayed as 0.25 and 1, with the exact values kept
    in the precise buffer. *)
Example generic_buffers_of_two_points :
  match Decoder.handleMessage DecoderExamples.intensity_and_time with
  | JS.Ok out =>
      DecoderExamples.floats_of "intensity" out = Some [Num.of_Z 513; Num.of_Z 7]
      /\ DecoderExamples.floats_of "gps-time" out
         = Some [Num.fdiv (Num.of_Z 1) (Num.of_Z 4); Num.of_Z 1]
      /\ (Decoder.preciseBuffer <$> Decoder.message_attributeBuffers out !! "gps-time")
         = Some (Some [Num.of_Z 12; Num.of_Z 18])
  | JS.Throw _ => False
  end.
Proof. vm_compute. repeat split; reflexivity. Qed.

(** C4 as stated fails on the code: the 64-bit integer kinds have a storage
    class ([Float64Array]) but no getter, and decoding a schema with such an
    attribute throws instead of writing a display value. *)
Lemma int64_attribute_is_not_decoded :
  Decoder.typedArrayMapping Decoder.DATA_TYPE_INT64 = Decoder.Float64Array
  /\ Decoder.typedArrayMapping Decoder.DATA_TYPE_UINT64 = Decoder.Float64Array
  /\ Decoder.getterMap Decoder.DATA_TYPE_INT64 = None
  /\ Decoder.getterMap Decoder.DATA_TYPE_UINT64 = None
  /\ Decoder.handleMessage DecoderExamples.one_int64 = JS.Throw JS.TypeError.
Proof. vm_compute. repeat split; reflexivity. Qed.



(** Three sources that each decode to [1, 2, 3] give the interleaved vector
    buffer [1, 1, 1, 2, 2, 2, 3, 3, 3]. *)
Example vector_of_three_sources :
  match Decoder.handleMessage DecoderExamples.three_sources with
  | JS.Ok out =>
      DecoderExamples.floats_of "A" out = Some [Num.of_Z 1; Num.of_Z 2; Num.of_Z 3]
      /\ DecoderExamples.floats_of "B" out = Some [Num.of_Z 1; Num.of_Z 2; Num.of_Z 3]
      /\ DecoderExamples.floats_of "C" out = Some [Num.of_Z 1; Num.of_Z 2; Num.of_Z 3]
      /\ DecoderExamples.floats_of "V" out
         = Some [Num.of_Z 1; Num.of_Z 1; Num.of_Z 1;
                 Num.of_Z 2; Num.of_Z 2; Num.of_Z 2;
                 Num.of_Z 3; Num.of_Z 3; Num.of_Z 3]
  | JS.Throw _ => False
  end.
Proof. vm_compute. repeat split; reflexivity. Qed.

(** A wide source: the doubles 12 and 18 of range [10, 18], normalized to
    0.25 and 1, come back as 12 and 18 in the vector buffer. *)
Example vector_of_wide_source :
  match Decoder.handleMessage DecoderExamples.intensity_and_time with
  | JS.Ok out => DecoderExamples.floats_of "T" out = Some [Num.of_Z 12; Num.of_Z 18]
  | JS.Throw _ => False
  end.
Proof. vm_compute. reflexivity. Qed.

(** [color_channels_decoded] for a colour-only schema and one point. *)
Lemma color_channels_decoded_witness :
  let data := DecoderExamples.one_colour in
  let a := DecoderExamples.rgba_attribute in
  exists out ab colors,
    Decoder.handleMessage data = JS.Ok out
    /\ Decoder.message_attributeBuffers out !! Decoder.name a = Some ab
    /\ Decoder.out_buffer ab = Decoder.U8 colors
    /\ length colors = 4 * Decoder.numPoints data
    /\ forall j c, j < Decoder.numPoints data -> c < 3 ->
         exists v,
           DataView.getUint16 (Decoder.buffer data)
             (j * Decoder.bytesPerPoint (Decoder.pointAttributes data)
              + DecoderSpec.sizes [] + 2 * c) = JS.Ok v
           /\ (0 <= v < 65536)%Z
           /\ colors !! (4 * j + c) = Some (if (255 <? v)%Z then (v / 256)%Z else v)
           /\ (0 <= (if (255 <? v)%Z then (v / 256)%Z else v) < 256)%Z.
Proof.
  intros data a.
  apply (color_channels_decoded data [] a []).
  - apply schema_okb_ok. vm_compute. reflexivity.
  - reflexivity.
  - reflexivity.
Defined.

(** A channel value of 512 decodes to 2, a value of 200 to 200 (and 65535
    to 255); the fourth byte of the point stays 0. *)
Example colour_buffer_of_one_point :
  Decoder.color_channel 512 = 2%Z
  /\ Decoder.color_channel 200 = 200%Z
  /\ match Decoder.handleMessage DecoderExamples.one_colour with
     | JS.Ok out => DecoderExamples.bytes_of "rgba" out = Some [2; 200; 255; 0]%Z
     | JS.Throw _ => False
     end.
Proof. vm_compute. repeat split; reflexivity. Qed.

(** C3, on the code: a point whose cell coordinates are not integers is not
    counted.  The point (1, 1, 1) in a node of size 3 has the cell coordinate
    32 / 3 on each axis; [toIndex] does not take its integer part, so the
    index it returns is no integer and names no element of the grid.  After
    the decode of this one point every cell is still 0 (their sum is 0, not
    [numPoints]), no cell is occupied, and the density is 1 / 0. *)
Theorem occupancy_grid_misses_point :
  match Decoder.decode_attributes DecoderExamples.one_point,
        Decoder.handleMessage DecoderExamples.one_point with
  | JS.Ok st, JS.Ok out =>
      Decoder.numPoints DecoderExamples.one_point = 1
      /\ DecoderExamples.floats_of "position" out
         = Some [Num.of_Z 1; Num.of_Z 1; Num.of_Z 1]
      /\ Num.is_integral
           (Decoder.toIndex (Decoder.size DecoderExamples.one_point)
              (Num.of_Z 1) (Num.of_Z 1) (Num.of_Z 1)) = false
      /\ Z.of_nat (length (Decoder.grid st)) = 32768%Z
      /\ DecoderExamples.sum (Decoder.grid st) = 0%Z
      /\ Decoder.numOccupiedCells st = 0
      /\ Decoder.density out = Num.infinity
  | _, _ => False
  end.
Proof. vm_compute. repeat split; reflexivity. Qed.

(** ** The claims on concrete trees *)

(** The hypotheses and the conclusion of [load_failure_clears_loading] for
    the root of the example octree when the payload file cannot be read. *)
Lemma load_failure_clears_loading_witness :
  exists n',
    Loader.heap (Examples.load Examples.fetch_no_payload 0 Examples.created) !! 0 = Some n'
    /\ Loader.loading n' = false /\ Loader.loaded n' = false
    /\ Loader.failed n' = Loader.failed Examples.root0
    /\ last (Loader.trace (Examples.load Examples.fetch_no_payload 0 Examples.created))
       = Some (Loader.ConsoleError JS.NetworkError).
Proof.
  eapply (load_failure_clears_loading Examples.octant Examples.last_digit
            Examples.sphere_of Examples.fetch_no_payload Examples.octree3
            0 Examples.created Examples.root0 JS.NetworkError).
  - vm_compute. reflexivity.
  - vm_compute. lia.
  - reflexivity.
  - vm_compute. reflexivity.
Defined.

(** C2 as stated fails on the code: the payload fetch of the root fails, the
    error reaches the [catch] block (it is logged), and the node's flags
    (loading, loaded, failed) end as (false, false, false): [failed] is not
    set. *)
Lemma failed_payload_fetch_leaves_failed_unset :
  LoaderTrace.fetches (Examples.start Examples.fetch_no_payload)
  = [Loader.Fetch Loader.hierarchy_bin 0 21; Loader.Fetch Loader.octree_bin 0 11]
  /\ last (Loader.trace (Examples.start Examples.fetch_no_payload))
     = Some (Loader.ConsoleError JS.NetworkError)
  /\ Examples.flags 0 (Examples.start Examples.fetch_no_payload)
     = Some (false, false, false).
Proof. vm_compute. repeat split; reflexivity. Qed.

(** The record (type 1, child mask 0b00000011) applied to the root. *)
Definition record_two_children : Loader.HierarchyRecord :=
  {| Loader.rec_type := 1; Loader.rec_childMask := 3; Loader.rec_numPoints := 1;
     Loader.rec_byteOffset := 0; Loader.rec_byteSize := 12 |}.

(** [parse_record_children] for the record with child mask 0b00000011 read
    at the root of the example octree. *)
Lemma parse_record_children_witness :
  let buf := Examples.record x01 x03 x01 x00 x0c in
  let st := Examples.parse_start in
  let r := record_two_children in
  exists st' cur',
    Loader.parse_record Examples.octant Examples.last_digit Examples.sphere_of buf 0 st
      = Loader.Normal st'
    /\ Loader.heap (Loader.world st') !! 0 = Some cur'
    /\ Loader.idCount (Loader.world st')
       = Loader.idCount (Loader.world st) + HierarchySpec.rank (Loader.rec_childMask r) 8
    /\ Loader.nodePos st'
       = Loader.nodePos st + HierarchySpec.rank (Loader.rec_childMask r) 8
    /\ (forall b, b < 8 ->
          if Z.testbit (Loader.rec_childMask r) (Z.of_nat b) then
            exists child c,
              Loader.children cur' !! b = Some (Some child)
              /\ Loader.idCount (Loader.world st) <= child < Loader.idCount (Loader.world st')
              /\ Loader.heap (Loader.world st') !! child = Some c
              /\ Loader.name c = String.append (Loader.name Examples.root0) (Loader.digit b)
              /\ Loader.spacing c = Num.fdiv (Loader.spacing Examples.root0) (Num.of_Z 2)
              /\ Loader.level c = (Loader.level Examples.root0 + 1)%Z
              /\ Loader.parent c = Some 0
              /\ Loader.nodes st'
                   !! (Loader.nodePos st + HierarchySpec.rank (Loader.rec_childMask r) b)
                 = Some child
          else Loader.children cur' !! b = Loader.children Examples.root0 !! b)
    /\ (forall r', r' < Loader.idCount (Loader.world st) -> r' <> 0 ->
          Loader.heap (Loader.world st') !! r' = Loader.heap (Loader.world st) !! r').
Proof.
  intros buf st r.
  apply (parse_record_children Examples.octant Examples.last_digit Examples.sphere_of
           buf 0 st r 0 Examples.root0).
  - vm_compute. reflexivity.
  - vm_compute. reflexivity.
  - vm_compute. reflexivity.
  - vm_compute. lia.
  - reflexivity.
  - vm_compute. discriminate.
Defined.

(** A chunk of exactly one leaf record with child mask 0 leaves a tree of
    exactly one node: nothing is allocated and the root has no child. *)
Example hierarchy_single_leaf :
  match Loader.parseHierarchy_loop Examples.octant Examples.last_digit Examples.sphere_of
          0 (Examples.record x00 x00 x01 x00 x0c) Examples.created with
  | Loader.Normal st =>
      Loader.idCount (Loader.world st) = 1
      /\ size (Loader.heap (Loader.world st)) = 1
      /\ Loader.child_refs 0 (Loader.world st) = []
  | Loader.Abrupt _ _ => False
  end.
Proof. vm_compute. repeat split; reflexivity. Qed.

(** A record with child mask 0b00000011 creates exactly two children, in the
    slots 0 and 1 of the root. *)
Example hierarchy_two_children :
  match Loader.parseHierarchy_loop Examples.octant Examples.last_digit Examples.sphere_of
          0 (Examples.record x01 x03 x01 x00 x0c) Examples.created with
  | Loader.Normal st =>
      Loader.idCount (Loader.world st) = 3
      /\ size (Loader.heap (Loader.world st)) = 3
      /\ option_map Loader.children (Loader.heap (Loader.world st) !! 0)
         = Some [Some 1; Some 2; None; None; None; None; None; None]
      /\ option_map Loader.name (Loader.heap (Loader.world st) !! 1) = Some "r0"%string
      /\ option_map Loader.name (Loader.heap (Loader.world st) !! 2) = Some "r1"%string
  | Loader.Abrupt _ _ => False
  end.
Proof. vm_compute. repeat split; reflexivity. Qed.


(** C1, on the code: [load] on a node that is loaded (and not loading) is not
    a no-op.  The root of a one-leaf tree is loaded once and its worker has
    answered, so its flags are (loading, loaded, failed) = (false, true,
    false); a second [load] fetches the payload range again and sets
    [loading]. *)
Theorem load_of_loaded_node_fetches_again :
  match Examples.answered 0 0 (Examples.start Examples.fetch_leaf) with
  | Some w =>
      Examples.flags 0 w = Some (false, true, false)
      /\ LoaderTrace.fetches (Examples.load Examples.fetch_leaf 0 w)
         = (LoaderTrace.fetches w ++ [Loader.Fetch Loader.octree_bin 0 11])%list
      /\ Examples.flags 0 (Examples.load Examples.fetch_leaf 0 w)
         = Some (true, true, false)
  | None => False
  end.
Proof. vm_compute. repeat split; reflexivity. Qed.

(** The tree of [Examples.fetch_parent] with its child (reference 1) loaded,
    holding a geometry and the one-time handler 7. *)
Definition tree_with_loaded_child : option Loader.World :=
  option_map (Loader.update 1 (Loader.set_oneTimeDisposeHandlers [7]))
    (Examples.answered 1 1
       (Examples.load Examples.fetch_parent 1 (Examples.start Examples.fetch_parent))).

(** C5, on the code: disposing the whole tree releases no node.  The child of
    the example tree is loaded, has a parent, a geometry and a pending one-time
    handler; after [OctreeGeometry.dispose] it still has the geometry and the
    handler, and no geometry was disposed and no handler called (while a call
    of the node's own [dispose] does both). *)
Theorem dispose_tree_releases_nothing :
  match tree_with_loaded_child with
  | Some w =>
      Examples.has_geometry 1 w = Some true
      /\ LoaderTrace.handlers_of 1 w = Some [7]
      /\ match Loader.dispose 9 w with
         | Some w' =>
             Examples.has_geometry 1 w' = Some true
             /\ LoaderTrace.handlers_of 1 w' = Some [7]
             /\ LoaderTrace.releases w' = []
         | None => False
         end
      /\ LoaderTrace.releases (Loader.node_dispose 1 w)
         = [Loader.GeometryDispose 1; Loader.HandlerCall 7]
  | None => False
  end.
Proof. vm_compute. repeat split; reflexivity. Qed.

(** * Further properties of the decoder *)

Section DecoderBehaviour.
Import JS Num DataView Decoder DecoderSpec.

(** ** What a successful run has done *)

Lemma bind_Ok {A B} (m : result A) (k : A -> result B) (b : B) :
  bind m k = Ok b -> exists a, m = Ok a /\ k a = Ok b.
Proof. destruct m as [a|e]; cbn; [eauto|discriminate]. Qed.

(** An attribute that is decoded leaves one entry, under its name, and moves
    the cursor by its byte size. *)
Lemma decode_attribute_Ok data bpp a st st' :
  decode_attribute data bpp a st = Ok st' ->
  attributeOffset st' = attributeOffset st + byteSize a
  /\ exists ab,
       attributeBuffers st' = <[name a := ab]> (attributeBuffers st)
       /\ attribute ab = a.
Proof.
  unfold decode_attribute. intros H. apply bind_Ok in H as (st1 & H1 & H2).
  injection H2 as <-. cbn [attributeOffset attributeBuffers].
  destruct (is_position (name a)).
  { apply bind_Ok in H1 as ([[g occ] positions] & _ & H1). injection H1 as <-.
    split; [reflexivity|]. eexists. split; reflexivity. }
  destruct (is_rgba (name a)).
  { apply bind_Ok in H1 as (colors & _ & H1). injection H1 as <-.
    split; [reflexivity|]. eexists. split; reflexivity. }
  destruct (getterMap (type a)) as [getter|]; [|discriminate].
  apply bind_Ok in H1 as ([f32 precise] & _ & H1). injection H1 as <-.
  split; [reflexivity|]. eexists. split; reflexivity.
Qed.

Lemma decode_attributes_keys data bpp l :
  forall st st',
  foldM (decode_attribute data bpp) l st = Ok st' ->
  forall k, is_Some (attributeBuffers st' !! k)
            <-> k ∈ map name l \/ is_Some (attributeBuffers st !! k).
Proof.
  induction l as [|a l IH]; intros st st' H k; cbn [foldM map] in *.
  - injection H as <-. rewrite elem_of_nil. tauto.
  - apply bind_Ok in H as (st1 & H1 & H2).
    apply decode_attribute_Ok in H1 as (_ & ab & Hab & _).
    rewrite (IH st1 st' H2 k), Hab, elem_of_cons.
    destruct (decide (k = name a)) as [->|Hne].
    + rewrite lookup_insert_eq. split; [intros; left; left; reflexivity|eauto].
    + rewrite lookup_insert_ne by congruence. tauto.
Qed.

(** A vector that is synthesized leaves one entry, under its name; its
    descriptor always declares three float elements. *)
Lemma synth_vector_Ok n v bufs bufs' :
  synth_vector n v bufs = Ok bufs' ->
  exists l,
    bufs' = <[vector_name v :=
                {| out_buffer := F32 l; preciseBuffer := None;
                   attribute := new_PointAttributeType (vector_name v) DATA_TYPE_FLOAT 3;
                   out_offset := None; out_scale := None |}]> bufs
    /\ length l = length (vector_attributes v) * n.
Proof.
  unfold synth_vector. intros H. apply bind_Ok in H as ([i f32] & H1 & H2).
  injection H2 as <-. exists f32. split; [reflexivity|].
  assert (forall l st st',
            foldM (vector_source n (length (vector_attributes v)) bufs) l st = Ok st' ->
            length (snd st') = length (snd st)) as Hlen.
  { clear. induction l as [|s l IH]; intros [i f32] st' H; cbn [foldM] in H.
    - injection H as <-. reflexivity.
    - apply bind_Ok in H as ([i1 f1] & H1 & H2). rewrite (IH _ _ H2). cbn [snd].
      unfold vector_source in H1. destruct (bufs !! s) as [sb|]; [|discriminate].
      apply bind_Ok in H1 as (f2 & H1 & H3). injection H3 as _ <-.
      clear - H1. revert f32 f2 H1.
      induction (seq 0 n) as [|j js IHj]; intros f32 f2 H1; cbn [foldM] in H1.
      + injection H1 as <-. reflexivity.
      + apply bind_Ok in H1 as (f3 & H3 & H4). rewrite (IHj _ _ H4).
        apply bind_Ok in H3 as (value & _ & H3). injection H3 as <-.
        apply length_insert. }
  pose proof (Hlen _ _ _ H1) as E. cbn [snd] in E. rewrite E. apply length_replicate.
Qed.

Lemma synth_vectors_keys n vs :
  forall bufs bufs',
  foldM (synth_vector n) vs bufs = Ok bufs' ->
  (forall k, is_Some (bufs' !! k) <-> k ∈ map vector_name vs \/ is_Some (bufs !! k))
  /\ (forall k, k ∉ map vector_name vs -> bufs' !! k = bufs !! k).
Proof.
  induction vs as [|v vs IH]; intros bufs bufs' H; cbn [foldM map] in *.
  - injection H as <-. split; [|reflexivity]. intros k. rewrite elem_of_nil. tauto.
  - apply bind_Ok in H as (b1 & H1 & H2).
    apply synth_vector_Ok in H1 as (l & -> & _).
    destruct (IH _ _ H2) as [Hk Hf]. split.
    + intros k. rewrite (Hk k), elem_of_cons.
      destruct (decide (k = vector_name v)) as [->|Hne].
      * rewrite lookup_insert_eq. split; [intros; left; left; reflexivity|eauto].
      * rewrite lookup_insert_ne by congruence. tauto.
    + intros k Hnot. apply not_elem_of_cons in Hnot as [Hne Hnot].
      rewrite (Hf k Hnot). apply lookup_insert_ne. congruence.
Qed.

Lemma indices_buffer_seq (n : nat) : indices_buffer n = map Z.of_nat (seq 0 n).
Proof.
  unfold indices_buffer.
  assert (forall m, m <= n ->
            foldl (fun ind i => <[i := Z.of_nat i]> ind) (replicate n 0%Z) (seq 0 m)
            = (map Z.of_nat (seq 0 m) ++ replicate (n - m) 0%Z)%list) as H.
  { induction m as [|m IH]; intros Hm.
    - cbn. rewrite Nat.sub_0_r. reflexivity.
    - rewrite seq_S, foldl_app, IH by lia. cbn [foldl Nat.add].
      replace (n - m) with (S (n - S m)) by lia. cbn [replicate].
      rewrite map_app. cbn [map]. rewrite <- app_assoc. cbn [app].
      rewrite insert_app_r_alt by (rewrite length_map, length_seq; lia).
      rewrite length_map, length_seq, Nat.sub_diag. reflexivity. }
  rewrite (H n) by lia. rewrite Nat.sub_diag. apply app_nil_r.
Qed.

Lemma handleMessage_keys data out :
  handleMessage data = Ok out ->
  forall k, is_Some (message_attributeBuffers out !! k)
            <-> k ∈ output_names (pointAttributes data).
Proof.
  unfold handleMessage. intros H. apply bind_Ok in H as (st & Hst & H).
  apply bind_Ok in H as (bufs' & Hv & H). injection H as <-.
  cbn [message_buffer message_attributeBuffers].
  intros k. destruct (synth_vectors_keys _ _ _ _ Hv) as [Hk _]. rewrite (Hk k).
  unfold output_names. rewrite elem_of_app, elem_of_cons.
  pose proof (decode_attributes_keys _ _ _ _ _ Hst k) as Ha.
  cbn [initial_state attributeBuffers] in Ha. rewrite lookup_empty in Ha.
  destruct (decide (k = "INDICES"%string)) as [->|Hne].
  - rewrite lookup_insert_eq. split; [intros _; right; left; reflexivity|eauto].
  - rewrite lookup_insert_ne by congruence. rewrite Ha.
    split; [intros [?|[?|[? ?]]]|intros [?|[?|?]]]; try discriminate; tauto.
Qed.

Lemma handleMessage_indices data out :
  handleMessage data = Ok out ->
  "INDICES"%string ∉ map vector_name (vectors (pointAttributes data)) ->
  message_attributeBuffers out !! "INDICES"%string
  = Some {| out_buffer := U32 (map Z.of_nat (seq 0 (numPoints data)));
            preciseBuffer := None; attribute := INDICES;
            out_offset := None; out_scale := None |}.
Proof.
  unfold handleMessage. intros H Hnot. apply bind_Ok in H as (st & Hst & H).
  apply bind_Ok in H as (bufs' & Hv & H). injection H as <-.
  cbn [message_attributeBuffers].
  destruct (synth_vectors_keys _ _ _ _ Hv) as [_ Hf].
  rewrite (Hf _ Hnot), lookup_insert_eq, indices_buffer_seq. reflexivity.
Qed.

(** X1: the message posted back carries the input buffer and exactly one entry
    per attribute name, the entry of the point numbers, and one entry per
    vector name. *)
Theorem output_keys_are_the_output_names data out :
  handleMessage data = Ok out ->
  message_buffer out = buffer data
  /\ forall k, is_Some (message_attributeBuffers out !! k)
               <-> k ∈ output_names (pointAttributes data).
Proof.
  intros H. split; [|exact (handleMessage_keys data out H)].
  unfold handleMessage in H. apply bind_Ok in H as (st & _ & H).
  apply bind_Ok in H as (bufs' & _ & H). injection H as <-. reflexivity.
Qed.

(** X2: the entry [INDICES] numbers the points: element [i] of its
    [Uint32Array] is [i].  An attribute of that name is overwritten by it. *)
Theorem indices_buffer_numbers_the_points data out :
  handleMessage data = Ok out ->
  "INDICES"%string ∉ map vector_name (vectors (pointAttributes data)) ->
  message_attributeBuffers out !! "INDICES"%string
  = Some {| out_buffer := U32 (map Z.of_nat (seq 0 (numPoints data)));
            preciseBuffer := None; attribute := INDICES;
            out_offset := None; out_scale := None |}.
Proof. intros H Hnot. exact (handleMessage_indices data out H Hnot). Qed.

(** X3: the fourth byte of every point of a colour buffer is never written: it
    is 0 for every point. *)
Theorem colour_alpha_is_zero data pre a post :
  schema_ok data ->
  attributes (pointAttributes data) = (pre ++ a :: post)%list ->
  is_rgba (name a) = true ->
  exists out ab colors,
    handleMessage data = Ok out
    /\ message_attributeBuffers out !! name a = Some ab
    /\ out_buffer ab = U8 colors
    /\ length colors = 4 * numPoints data
    /\ forall j, j < numPoints data -> colors !! (4 * j + 3) = Some 0%Z.
Proof.
  intros Hok Heq Hrgba.
  destruct (handleMessage_spec data Hok) as (st & out & _ & Hrun & _ & Hattr & _).
  destruct (Hattr pre a post Heq) as (ab & Hab & _ & Hent).
  rewrite (is_rgba_not_position _ Hrgba), Hrgba in Hent.
  destruct Hent as (colors & Hbuf & Hl & Hall).
  exists out, ab, colors. repeat (split; [assumption|]).
  intros j Hj. destruct (Hall j Hj) as (r & g & b & _ & _ & _ & _ & _ & _ & H0).
  exact H0.
Qed.

(** ** The occupancy grid *)

(** The points counted in a grid, the cells that are not empty, and the
    position attributes of a schema. *)
Definition cells_total (g : list Z) : Z := foldr Z.add 0%Z g.

Definition cells_occupied (g : list Z) : nat :=
  length (filter (fun c => c <> 0%Z) g).

Definition position_attributes (l : list PointAttributeType) : nat :=
  length (filter (fun a => is_position (name a) = true) l).

Lemma cells_total_app g1 g2 : cells_total (g1 ++ g2) = (cells_total g1 + cells_total g2)%Z.
Proof.
  unfold cells_total. induction g1 as [|c g1 IH]; cbn [foldr app]; [reflexivity|].
  rewrite IH. lia.
Qed.

Lemma cells_occupied_app g1 g2 :
  cells_occupied (g1 ++ g2) = cells_occupied g1 + cells_occupied g2.
Proof. unfold cells_occupied. rewrite filter_app, length_app. reflexivity. Qed.

Lemma cells_occupied_le_total g :
  Forall (fun c => (0 <= c)%Z) g ->
  (Z.of_nat (cells_occupied g) <= cells_total g)%Z /\ cells_occupied g <= length g.
Proof.
  induction 1 as [|c g Hc _ [IH1 IH2]]; [cbn; lia|].
  unfold cells_occupied in *. cbn [cells_total foldr length]. fold (cells_total g).
  rewrite filter_cons. destruct (decide (c <> 0%Z)); cbn [length]; lia.
Qed.

(** One increment: a key that names a cell adds one point to it, any other
    key changes nothing; the count read is 0 exactly when an empty cell
    became occupied. *)
Lemma grid_increment_counts g index count g' :
  grid_increment g index = (count, g') ->
  Forall (fun c => (0 <= c)%Z) g ->
  (cells_total g < 4294967295)%Z ->
  length g' = length g
  /\ Forall (fun c => (0 <= c)%Z) g'
  /\ (cells_total g <= cells_total g' <= cells_total g + 1)%Z
  /\ cells_occupied g' = cells_occupied g + (if is_zero_count count then 1 else 0).
Proof.
  unfold grid_increment. intros H Hpos Htot.
  destruct (element_of (length g) index) as [k|].
  2: { injection H as <- <-. cbn. rewrite Nat.add_0_r. repeat split; auto; lia. }
  destruct (g !! k) as [c|] eqn:Hk.
  2: { injection H as <- <-. cbn. rewrite Nat.add_0_r. repeat split; auto; lia. }
  injection H as <- <-.
  pose proof (take_drop_middle g k c Hk) as Hg.
  assert (length (take k g) = k) as Hlk.
  { rewrite length_take. apply lookup_lt_Some in Hk. lia. }
  revert Hg Hlk. generalize (take k g) (drop (S k) g). intros A B Hg Hlk.
  clear Hk. subst g. apply Forall_app in Hpos as [Hp1 Hp2].
  apply Forall_cons in Hp2 as [Hc Hp2].
  rewrite cells_total_app in Htot. cbn [cells_total foldr] in Htot.
  fold (cells_total B) in Htot.
  pose proof (cells_occupied_le_total _ Hp1) as [T1 _].
  pose proof (cells_occupied_le_total _ Hp2) as [T2 _].
  assert (((c + 1) mod 4294967296 = c + 1)%Z) as Hmod by (apply Z.mod_small; lia).
  rewrite Hmod.
  rewrite insert_app_r_alt by lia. rewrite Hlk, Nat.sub_diag. cbn [insert list_insert].
  split; [|split; [|split]].
  - rewrite !length_app. reflexivity.
  - apply Forall_app. split; [exact Hp1|]. apply Forall_cons. split; [lia|exact Hp2].
  - rewrite !cells_total_app. cbn [cells_total foldr]. lia.
  - rewrite !cells_occupied_app. unfold cells_occupied.
    rewrite !filter_cons. cbn [is_zero_count].
    destruct (Z.eqb_spec c 0) as [->|Hne].
    + destruct (decide (0 + 1 <> 0)%Z); [|lia]. destruct (decide (0 <> 0)%Z); [lia|].
      cbn [length]. lia.
    + destruct (decide (c + 1 <> 0)%Z); [|lia]. destruct (decide (c <> 0)%Z); [|lia].
      cbn [length]. lia.
Qed.

Lemma foldM_seq_inv {T} (f : nat -> T -> result T) (P : nat -> T -> Prop) n :
  forall a s s',
  foldM f (seq a n) s = Ok s' ->
  P a s ->
  (forall i t t', a <= i < a + n -> P i t -> f i t = Ok t' -> P (S i) t') ->
  P (a + n) s'.
Proof.
  induction n as [|n IH]; intros a s s' Hrun Hs Hstep; cbn [seq foldM] in Hrun.
  - injection Hrun as <-. rewrite Nat.add_0_r. exact Hs.
  - apply bind_Ok in Hrun as (t & Hf & Hrun).
    replace (a + S n) with (S a + n) by lia.
    apply (IH (S a) t s' Hrun).
    + apply (Hstep a s t); [lia|exact Hs|exact Hf].
    + intros i u u' Hi. apply Hstep. lia.
Qed.

Lemma foldM_prefix_inv {A T} (f : A -> T -> result T) (P : list A -> T -> Prop) l :
  forall pre s s',
  foldM f l s = Ok s' ->
  P pre s ->
  (forall p a t t', P p t -> f a t = Ok t' -> P (p ++ [a])%list t') ->
  P (pre ++ l)%list s'.
Proof.
  induction l as [|a l IH]; intros pre s s' Hrun Hs Hstep; cbn [foldM] in Hrun.
  - injection Hrun as <-. rewrite app_nil_r. exact Hs.
  - apply bind_Ok in Hrun as (t & Hf & Hrun).
    replace (pre ++ a :: l)%list with ((pre ++ [a]) ++ l)%list
      by (rewrite <- app_assoc; reflexivity).
    apply (IH _ t s' Hrun); [|exact Hstep]. apply (Hstep pre a s t Hs Hf).
Qed.

(** What the loops keep true of the grid after [c] increments at most. *)
Definition grid_ok (c : nat) (g : list Z) (occ : nat) : Prop :=
  length g = gridSize * gridSize * gridSize
  /\ Forall (fun c => (0 <= c)%Z) g
  /\ (cells_total g <= Z.of_nat c)%Z
  /\ occ = cells_occupied g.

Lemma position_point_grid data bpp off j c g occ positions g' occ' positions' :
  position_point data bpp off j (g, occ, positions) = Ok (g', occ', positions') ->
  (Z.of_nat c < 4294967295)%Z ->
  grid_ok c g occ -> grid_ok (S c) g' occ'.
Proof.
  unfold position_point. intros H Hc (Hl & Hpos & Htot & Hocc).
  apply bind_Ok in H as (rx & _ & H). apply bind_Ok in H as (ry & _ & H).
  apply bind_Ok in H as (rz & _ & H).
  destruct (grid_increment g _) as [count g1] eqn:Hinc. injection H as <- <- _.
  destruct (grid_increment_counts _ _ _ _ Hinc Hpos) as (Hl1 & Hp1 & Ht1 & Ho1); [lia|].
  split; [congruence|]. split; [exact Hp1|]. split; [lia|].
  rewrite Ho1, Hocc. destruct (is_zero_count count); lia.
Qed.

Lemma decode_attribute_grid data bpp a st st' c :
  decode_attribute data bpp a st = Ok st' ->
  let c' := c + (if is_position (name a) then numPoints data else 0) in
  (Z.of_nat c' < 4294967296)%Z ->
  grid_ok c (grid st) (numOccupiedCells st) ->
  grid_ok c' (grid st') (numOccupiedCells st').
Proof.
  intros H c' Hc Hok. subst c'. unfold decode_attribute in H.
  apply bind_Ok in H as (st1 & H1 & H2). injection H2 as <-. cbn [grid numOccupiedCells].
  destruct (is_position (name a)).
  - apply bind_Ok in H1 as ([[g occ] positions] & Hrun & H1). injection H1 as <-.
    cbn [grid numOccupiedCells].
    apply (foldM_seq_inv _ (fun i s => grid_ok (c + i) (fst (fst s)) (snd (fst s)))
             _ _ _ _ Hrun).
    + cbn [fst snd]. rewrite Nat.add_0_r. exact Hok.
    + intros i [[g0 occ0] p0] [[g1 occ1] p1] Hi Hprev Hstep. cbn [fst snd] in *.
      rewrite Nat.add_succ_r.
      apply (position_point_grid _ _ _ _ _ _ _ _ _ _ _ Hstep); [lia|exact Hprev].
  - rewrite Nat.add_0_r.
    destruct (is_rgba (name a)).
    + apply bind_Ok in H1 as (colors & _ & H1). injection H1 as <-. exact Hok.
    + destruct (getterMap (type a)); [|discriminate].
      apply bind_Ok in H1 as ([f32 precise] & _ & H1). injection H1 as <-. exact Hok.
Qed.

Lemma position_attributes_snoc l a :
  position_attributes (l ++ [a])
  = position_attributes l + (if is_position (name a) then 1 else 0).
Proof.
  unfold position_attributes. rewrite filter_app, length_app, filter_cons, filter_nil.
  destruct (is_position (name a)); cbn.
  - destruct (decide (true = true)); [reflexivity|congruence].
  - destruct (decide (false = true)); [discriminate|reflexivity].
Qed.

Lemma position_attributes_app l1 l2 :
  position_attributes (l1 ++ l2) = position_attributes l1 + position_attributes l2.
Proof. unfold position_attributes. rewrite filter_app, length_app. reflexivity. Qed.

Lemma empty_grid (n : nat) :
  cells_total (replicate n 0%Z) = 0%Z /\ cells_occupied (replicate n 0%Z) = 0.
Proof.
  unfold cells_total, cells_occupied. induction n as [|n [IH1 IH2]]; [split; reflexivity|].
  cbn [replicate foldr]. rewrite filter_cons.
  destruct (decide (0 <> 0)%Z); [lia|]. split; [lia|exact IH2].
Qed.

Lemma decode_attributes_grid data st :
  decode_attributes data = Ok st ->
  (Z.of_nat (numPoints data * position_attributes (attributes (pointAttributes data)))
   < 4294967296)%Z ->
  grid_ok (numPoints data * position_attributes (attributes (pointAttributes data)))
          (grid st) (numOccupiedCells st).
Proof.
  intros Hrun HP. unfold decode_attributes in Hrun.
  refine (foldM_prefix_inv _
    (fun pre s => (Z.of_nat (numPoints data * position_attributes pre) < 4294967296)%Z ->
                  grid_ok (numPoints data * position_attributes pre)
                          (grid s) (numOccupiedCells s))
    _ [] _ _ Hrun _ _ HP).
  - intros _. unfold initial_state, grid_ok. cbn [grid numOccupiedCells].
    destruct (empty_grid (gridSize * gridSize * gridSize)) as [E1 E2].
    rewrite E1, E2, length_replicate.
    split; [reflexivity|]. split; [apply Forall_replicate; lia|]. split; [lia|reflexivity].
  - intros p a t t' Hp Hstep. rewrite position_attributes_snoc. intros Hb.
    assert (numPoints data * (position_attributes p
                              + (if is_position (name a) then 1 else 0))
            = numPoints data * position_attributes p
              + (if is_position (name a) then numPoints data else 0)) as E.
    { destruct (is_position (name a)); lia. }
    rewrite E in *. apply (decode_attribute_grid _ _ _ _ _ _ Hstep); [exact Hb|].
    apply Hp. lia.
Qed.

(** X4: the occupancy count is the number of cells that are not empty.  With [P]
    position attributes in the schema (and fewer than 2^32 increments) the
    cells hold at most [numPoints * P] points in all, at most that many cells
    are occupied, and the density posted is [numPoints / numOccupiedCells].
    The grid always has [32^3] cells. *)
Theorem occupied_cells_are_counted data out :
  handleMessage data = Ok out ->
  (Z.of_nat (numPoints data * position_attributes (attributes (pointAttributes data)))
   < 4294967296)%Z ->
  exists st,
    decode_attributes data = Ok st
    /\ density out = fdiv (of_nat (numPoints data)) (of_nat (numOccupiedCells st))
    /\ length (grid st) = gridSize * gridSize * gridSize
    /\ numOccupiedCells st = cells_occupied (grid st)
    /\ (0 <= cells_total (grid st)
        <= Z.of_nat (numPoints data
                     * position_attributes (attributes (pointAttributes data))))%Z
    /\ numOccupiedCells st
       <= numPoints data * position_attributes (attributes (pointAttributes data))
    /\ numOccupiedCells st <= gridSize * gridSize * gridSize.
Proof.
  intros H HP. unfold handleMessage in H. apply bind_Ok in H as (st & Hst & H).
  apply bind_Ok in H as (bufs' & _ & H). injection H as <-. cbn [density].
  exists st. split; [exact Hst|]. split; [reflexivity|].
  destruct (decode_attributes_grid data st Hst HP) as (Hl & Hpos & Htot & Hocc).
  destruct (cells_occupied_le_total _ Hpos) as [H1 H2].
  split; [exact Hl|]. split; [exact Hocc|]. rewrite Hocc.
  split; [lia|]. split; [lia|]. rewrite <- Hl. exact H2.
Qed.

(** The number of elements of an output buffer. *)
Definition out_length (b : OutBuffer) : nat :=
  match b with F32 l => length l | U8 l => length l | U32 l => length l end.

(** X5: a node without points: the decoder posts an empty buffer for every
    attribute, for the point numbers and for every vector, and the density
    is 0 / 0. *)
Theorem no_points_decode_to_empty_buffers data :
  schema_ok data ->
  numPoints data = 0 ->
  exists out,
    handleMessage data = Ok out
    /\ density out = NaN
    /\ forall k ab, message_attributeBuffers out !! k = Some ab ->
                    out_length (out_buffer ab) = 0.
Proof.
  intros Hok Hn.
  destruct (handleMessage_spec data Hok) as (st & out & Hst & Hrun & Hd & Hattr & Hvec).
  exists out. split; [exact Hrun|].
  destruct (decode_attributes_grid data st Hst) as (_ & Hpos & Htot & Hocc).
  { rewrite Hn. cbn. lia. }
  destruct (cells_occupied_le_total _ Hpos) as [H1 _].
  assert (numOccupiedCells st = 0) as Hz by (rewrite Hn in Htot; lia).
  split; [rewrite Hd, Hn, Hz; reflexivity|].
  intros k ab Hk.
  pose proof (handleMessage_keys data out Hrun) as Hkeys.
  assert (k ∈ output_names (pointAttributes data)) as Hin by (apply Hkeys; eauto).
  destruct Hok as (_ & _ & Hnd & _). unfold output_names in Hin, Hnd.
  apply elem_of_app in Hin as [Hin|Hin].
  - apply list_elem_of_fmap in Hin as (a & -> & Ha).
    apply list_elem_of_split in Ha as (pre & post & Heq).
    destruct (Hattr pre a post Heq) as (ab' & Hab' & _ & Hent).
    assert (ab' = ab) as -> by congruence.
    destruct (is_position (name a)).
    { destruct Hent as (l & -> & Hl & _). cbn. lia. }
    destruct (is_rgba (name a)).
    { destruct Hent as (l & -> & Hl & _). cbn. lia. }
    destruct Hent as (g & l & p & _ & -> & _ & _ & _ & Hl & _). cbn. lia.
  - apply NoDup_app in Hnd as (_ & _ & Hnd). apply NoDup_cons in Hnd as [Hind Hnd].
    apply elem_of_cons in Hin as [->|Hin].
    + rewrite (handleMessage_indices data out Hrun Hind) in Hk.
      injection Hk as <-. cbn. rewrite length_map, length_seq. exact Hn.
    + apply list_elem_of_fmap in Hin as (v & -> & Hv).
      apply list_elem_of_split in Hv as (vpre & vpost & Heq).
      destruct (Hvec vpre v vpost Heq) as (vb & l & Hvb & Hbuf & Hl & _).
      assert (vb = ab) as -> by congruence. rewrite Hbuf. cbn. lia.
Qed.

(** ** A payload that is too short *)

(** An attribute the decoder has a reader for: a position, a colour, or a
    kind with a getter. *)
Definition has_reader (a : PointAttributeType) : Prop :=
  is_position (name a) = false -> is_rgba (name a) = false ->
  is_Some (getterMap (type a)).

Definition only_throws {A} (e : error) (m : result A) : Prop :=
  match m with Ok _ => True | Throw e' => e' = e end.

Lemma only_throws_bind {A B} e (m : result A) (k : A -> result B) :
  only_throws e m -> (forall a, only_throws e (k a)) -> only_throws e (bind m k).
Proof. destruct m as [a|e']; cbn; auto. Qed.

Lemma only_throws_foldM {A T} e (f : A -> T -> result T) l :
  (forall a s, only_throws e (f a s)) -> forall s, only_throws e (foldM f l s).
Proof.
  intros Hf. induction l as [|a l IH]; intros s; cbn [foldM]; [exact I|].
  apply only_throws_bind; auto.
Qed.

(** A loop one of whose turns throws whatever the state is cannot end
    normally. *)
Lemma foldM_throws {A T} e (f : A -> T -> result T) l1 x l2 :
  (forall a s, only_throws e (f a s)) ->
  (forall s, f x s = Throw e) ->
  forall s, foldM f (l1 ++ x :: l2) s = Throw e.
Proof.
  intros Hf Hx. induction l1 as [|a l1 IH]; intros s; cbn [app foldM].
  - rewrite Hx. reflexivity.
  - specialize (Hf a s). destruct (f a s) as [t|e']; cbn in *; [apply IH|congruence].
Qed.

Lemma read_bytes_only_range view off n : only_throws RangeError (read_bytes view off n).
Proof. unfold read_bytes. destruct (off + n <=? length view); cbn; auto. Qed.

Ltac only_range :=
  repeat match goal with
         | |- only_throws _ (bind (read_bytes _ _ _) _) =>
             apply only_throws_bind; [apply read_bytes_only_range|intros ?]
         | |- only_throws _ (bind _ _) => apply only_throws_bind; [|intros ?]
         | |- only_throws _ (Ok _) => exact I
         end.

Lemma getter_only_range t getter view off :
  getterMap t = Some getter -> only_throws RangeError (getter view off).
Proof.
  intros Hg. destruct t; cbn in Hg; try discriminate; injection Hg as <-;
    unfold as_number, getInt8, getInt16, getInt32, getUint8, getUint16, getUint32,
           getFloat32, getFloat64;
    only_range.
Qed.

Lemma getter_short t getter (view : ArrayBuffer) off :
  getterMap t = Some getter -> length view < off + type_size t ->
  getter view off = Throw RangeError.
Proof.
  intros Hg Hlen. destruct t; cbn in Hg, Hlen; try discriminate; injection Hg as <-;
    unfold as_number, getInt8, getInt16, getInt32, getUint8, getUint16, getUint32,
           getFloat32, getFloat64;
    rewrite read_bytes_throw by lia; reflexivity.
Qed.

Lemma position_point_only_range data bpp off j s :
  only_throws RangeError (position_point data bpp off j s).
Proof.
  destruct s as [[g occ] p]. unfold position_point, getInt32.
  only_range. destruct (grid_increment _ _). exact I.
Qed.

Lemma position_point_short data bpp off j s :
  length (buffer data) < j * bpp + off + 12 ->
  position_point data bpp off j s = Throw RangeError.
Proof.
  intros Hlen. destruct s as [[g occ] p]. unfold position_point, getInt32.
  destruct (read_bytes (buffer data) (j * bpp + off + 0) 4) as [b0|e0] eqn:H0; cbn [bind].
  2: { pose proof (read_bytes_only_range (buffer data) (j * bpp + off + 0) 4) as H.
       rewrite H0 in H. cbn in H. congruence. }
  destruct (read_bytes (buffer data) (j * bpp + off + 4) 4) as [b1|e1] eqn:H1; cbn [bind].
  2: { pose proof (read_bytes_only_range (buffer data) (j * bpp + off + 4) 4) as H.
       rewrite H1 in H. cbn in H. congruence. }
  rewrite read_bytes_throw by lia. reflexivity.
Qed.

Lemma rgba_point_only_range data bpp off j s :
  only_throws RangeError (rgba_point data bpp off j s).
Proof.
  unfold rgba_point, getUint16.
  only_range.
Qed.

Lemma rgba_point_short data bpp off j s :
  length (buffer data) < j * bpp + off + 6 ->
  rgba_point data bpp off j s = Throw RangeError.
Proof.
  intros Hlen. unfold rgba_point, getUint16.
  destruct (read_bytes (buffer data) (j * bpp + off + 0) 2) as [b0|e0] eqn:H0; cbn [bind].
  2: { pose proof (read_bytes_only_range (buffer data) (j * bpp + off + 0) 2) as H.
       rewrite H0 in H. cbn in H. congruence. }
  destruct (read_bytes (buffer data) (j * bpp + off + 2) 2) as [b1|e1] eqn:H1; cbn [bind].
  2: { pose proof (read_bytes_only_range (buffer data) (j * bpp + off + 2) 2) as H.
       rewrite H1 in H. cbn in H. congruence. }
  rewrite read_bytes_throw by lia. reflexivity.
Qed.

Lemma generic_point_only_range data a getter bpp off j s :
  getterMap (type a) = Some getter ->
  only_throws RangeError (generic_point data a getter bpp off j s).
Proof.
  intros Hg. destruct s as [f32 precise]. unfold generic_point.
  apply only_throws_bind; [eapply getter_only_range; eauto|intros ?; exact I].
Qed.

(** An attribute with a reader is decoded or throws a [RangeError]. *)
Lemma decode_attribute_only_range data bpp a st :
  has_reader a -> only_throws RangeError (decode_attribute data bpp a st).
Proof.
  intros Hr. unfold decode_attribute. apply only_throws_bind; [|intros ?; exact I].
  destruct (is_position (name a)) eqn:Hpos.
  { apply only_throws_bind.
    - apply only_throws_foldM. intros. apply position_point_only_range.
    - intros [[? ?] ?]. exact I. }
  destruct (is_rgba (name a)) eqn:Hrgba.
  { apply only_throws_bind; [|intros ?; exact I].
    apply only_throws_foldM. intros. apply rgba_point_only_range. }
  destruct (Hr Hpos Hrgba) as [getter Hg]. rewrite Hg.
  apply only_throws_bind.
  - apply only_throws_foldM. intros. eapply generic_point_only_range; eauto.
  - intros [? ?]. exact I.
Qed.

(** The attribute whose bytes of the last point lie beyond the buffer is not
    decoded. *)
Lemma decode_attribute_short data bpp a st :
  has_reader a ->
  0 < numPoints data ->
  length (buffer data) < (numPoints data - 1) * bpp + attributeOffset st + read_width a ->
  decode_attribute data bpp a st = Throw RangeError.
Proof.
  intros Hr Hn Hlen. unfold decode_attribute, read_width in *.
  assert (seq 0 (numPoints data)
          = (seq 0 (numPoints data - 1) ++ (numPoints data - 1) :: [])%list) as Hseq.
  { replace (numPoints data) with (S (numPoints data - 1)) at 1 by lia.
    rewrite seq_S. reflexivity. }
  rewrite Hseq.
  destruct (is_position (name a)) eqn:Hpos.
  { rewrite (foldM_throws RangeError); [reflexivity| |].
    - intros. apply position_point_only_range.
    - intros s. apply position_point_short. lia. }
  destruct (is_rgba (name a)) eqn:Hrgba.
  { rewrite (foldM_throws RangeError); [reflexivity| |].
    - intros. apply rgba_point_only_range.
    - intros s. apply rgba_point_short. lia. }
  destruct (Hr Hpos Hrgba) as [getter Hg]. rewrite Hg.
  rewrite (foldM_throws RangeError); [reflexivity| |].
  - intros. eapply generic_point_only_range; eauto.
  - intros [f32 precise]. unfold generic_point.
    rewrite (getter_short _ _ _ _ Hg) by lia. reflexivity.
Qed.

Lemma decode_attributes_short data bpp pre a post :
  Forall has_reader (pre ++ [a]) ->
  0 < numPoints data ->
  forall st,
  length (buffer data)
    < (numPoints data - 1) * bpp + (attributeOffset st + sizes pre) + read_width a ->
  foldM (decode_attribute data bpp) (pre ++ a :: post) st = Throw RangeError.
Proof.
  intros Hr Hn. induction pre as [|p pre IH]; intros st Hlen; cbn [app foldM].
  - apply Forall_cons in Hr as [Ha _]. cbn [sizes foldr] in Hlen.
    rewrite decode_attribute_short; [reflexivity|exact Ha|exact Hn|lia].
  - cbn [app] in Hr. apply Forall_cons in Hr as [Hp Hr].
    pose proof (decode_attribute_only_range data bpp p st Hp) as Hc.
    destruct (decode_attribute data bpp p st) as [st1|e] eqn:Hstep; cbn in Hc |- *.
    + apply decode_attribute_Ok in Hstep as [Ho _]. apply (IH Hr).
      rewrite Ho. cbn [sizes foldr] in Hlen. fold (sizes pre) in Hlen. lia.
    + congruence.
Qed.

(** X6: a payload that ends before the bytes the decoder reads of the last point
    makes [handleMessage] throw a [RangeError]: no message is posted.  The
    attributes up to the one that cannot be read must have a reader (else the
    missing getter is reported first). *)
Theorem short_payload_throws_RangeError data pre a post :
  attributes (pointAttributes data) = (pre ++ a :: post)%list ->
  Forall has_reader (pre ++ [a]) ->
  0 < numPoints data ->
  length (buffer data)
    < (numPoints data - 1) * bytesPerPoint (pointAttributes data)
      + sizes pre + read_width a ->
  handleMessage data = Throw RangeError.
Proof.
  intros Heq Hr Hn Hlen. unfold handleMessage, decode_attributes. rewrite Heq.
  rewrite (decode_attributes_short data _ pre a post Hr Hn); [reflexivity|].
  cbn [initial_state attributeOffset]. lia.
Qed.

(** ** Vectors and their sources *)

Lemma foldM_app_Ok {A T} (f : A -> T -> result T) l1 l2 s s' :
  foldM f (l1 ++ l2) s = Ok s' ->
  exists t, foldM f l1 s = Ok t /\ foldM f l2 t = Ok s'.
Proof.
  revert s. induction l1 as [|a l1 IH]; intros s H; cbn [app foldM] in *.
  - eauto.
  - apply bind_Ok in H as (t & Hf & H). rewrite Hf. cbn [bind]. apply IH. exact H.
Qed.

(** The sources of a vector that is synthesized all have an entry. *)
Lemma vector_sources_present n k bufs l :
  forall st st',
  foldM (vector_source n k bufs) l st = Ok st' ->
  forall s, s ∈ l -> is_Some (bufs !! s).
Proof.
  induction l as [|a l IH]; intros st st' H s Hs; [apply elem_of_nil in Hs; contradiction|].
  cbn [foldM] in H. apply bind_Ok in H as (st1 & H1 & H2).
  apply elem_of_cons in Hs as [->|Hs]; [|eapply IH; eauto].
  destruct st as [i f32]. unfold vector_source in H1.
  destruct (bufs !! a); [eauto|discriminate].
Qed.

(** X7: a message is decoded only when every source of every vector names an
    attribute of the schema, [INDICES], or a vector synthesized before. *)
Theorem decoded_vectors_have_their_sources data out vpre v vpost s :
  handleMessage data = Ok out ->
  vectors (pointAttributes data) = (vpre ++ v :: vpost)%list ->
  s ∈ vector_attributes v ->
  s ∈ output_names {| attributes := attributes (pointAttributes data);
                      vectors := vpre |}.
Proof.
  unfold handleMessage. intros H Heq Hs. apply bind_Ok in H as (st & Hst & H).
  apply bind_Ok in H as (bufs' & Hv & _). rewrite Heq in Hv.
  apply foldM_app_Ok in Hv as (b1 & Hpre & Hv). cbn [foldM] in Hv.
  apply bind_Ok in Hv as (b2 & Hsyn & _). unfold synth_vector in Hsyn.
  apply bind_Ok in Hsyn as ([i f32] & Hsrc & _).
  pose proof (vector_sources_present _ _ _ _ _ _ Hsrc s Hs) as Hsome.
  destruct (synth_vectors_keys _ _ _ _ Hpre) as [Hk _]. apply Hk in Hsome.
  unfold output_names. cbn [attributes vectors]. rewrite elem_of_app, elem_of_cons.
  destruct Hsome as [Hin|Hsome]; [tauto|].
  destruct (decide (s = "INDICES"%string)) as [->|Hne]; [tauto|].
  rewrite lookup_insert_ne in Hsome by congruence.
  apply (decode_attributes_keys _ _ _ _ _ Hst) in Hsome as [Hin|Hsome]; [tauto|].
  cbn [initial_state attributeBuffers] in Hsome. rewrite lookup_empty in Hsome.
  destruct Hsome as [? ?]. discriminate.
Qed.

Lemma foldM_app {A T} (f : A -> T -> result T) l1 l2 s :
  foldM f (l1 ++ l2) s = bind (foldM f l1 s) (foldM f l2).
Proof.
  revert s. induction l1 as [|a l1 IH]; intros s; cbn [app foldM]; [reflexivity|].
  destruct (f a s) as [t|e]; cbn [bind]; [apply IH|reflexivity].
Qed.

(** The message with the vectors [vs] in place of its own. *)
Definition with_vectors (vs : list VectorAttribute) (data : MessageData) : MessageData :=
  {| buffer := buffer data;
     pointAttributes := {| attributes := attributes (pointAttributes data);
                           vectors := vs |};
     scale := scale data; node_name := node_name data; min := min data;
     max := max data; size := size data; offset := offset data;
     numPoints := numPoints data |}.

(** X8: a vector one of whose sources has no entry makes [handleMessage] throw a
    [TypeError], when the message is one the decoder can process up to that
    vector and the sources before the missing one are attributes. *)
Theorem unknown_vector_source_throws_TypeError data vpre v vpost spre s spost :
  schema_ok (with_vectors vpre data) ->
  vectors (pointAttributes data) = (vpre ++ v :: vpost)%list ->
  vector_attributes v = (spre ++ s :: spost)%list ->
  Forall (fun s' => s' ∈ map name (attributes (pointAttributes data))) spre ->
  s ∉ output_names (pointAttributes (with_vectors vpre data)) ->
  handleMessage data = Throw TypeError.
Proof.
  intros Hok Heq Hsrc Hpre Hnot.
  destruct (handleMessage_spec _ Hok) as (st & out0 & Hst & Hrun0 & _ & Hattr & _).
  pose proof (handleMessage_keys _ _ Hrun0) as Hkeys.
  unfold handleMessage in Hrun0 |- *.
  change (decode_attributes (with_vectors vpre data)) with (decode_attributes data) in *.
  rewrite Hst in Hrun0 |- *. cbn [bind] in Hrun0 |- *.
  cbn [with_vectors numPoints pointAttributes vectors] in Hrun0.
  apply bind_Ok in Hrun0 as (b1 & Hvpre & Hout). injection Hout as <-.
  cbn [message_attributeBuffers] in Hkeys.
  rewrite Heq, foldM_app, Hvpre. cbn [bind foldM].
  assert (synth_vector (numPoints data) v b1 = Throw TypeError) as ->; [|reflexivity].
  unfold synth_vector. rewrite Hsrc, foldM_app.
  set (k := length (spre ++ s :: spost)).
  destruct (foldM_list_total (vector_source (numPoints data) k b1)
              (fun p st => fst st = p /\ length (snd st) = k * numPoints data)
              spre 0 (0, replicate (k * numPoints data) zero))
    as ([i f32] & Hrun & Hi & Hl).
  { cbn [fst snd]. split; [reflexivity|apply length_replicate]. }
  { intros i s' [i0 f0] Hs' [Hi0 Hl0]. cbn [fst snd] in *. subst i0.
    rewrite Forall_forall in Hpre.
    assert (s' ∈ map name (attributes (pointAttributes data))) as Hin.
    { apply Hpre. eapply list_elem_of_lookup_2; eauto. }
    apply list_elem_of_fmap in Hin as (a & -> & Ha).
    apply list_elem_of_split in Ha as (pre & post & Hsplit).
    destruct (Hattr pre a post Hsplit) as (ab & Hab & Hent).
    cbn [message_attributeBuffers] in Hab.
    destruct (vector_source_spec (numPoints data) k b1 (name a) ab i f0 Hab)
      as (f1 & Hf1 & Hl1 & _).
    - exact (entry_readable _ _ _ _ _ Hent).
    - apply lookup_lt_Some in Hs'. subst k. rewrite length_app. lia.
    - exact Hl0.
    - exists (S i, f1). cbn [fst snd]. rewrite Nat.add_0_l in *. auto. }
  rewrite Hrun. cbn [bind foldM]. unfold vector_source at 1.
  destruct (b1 !! s) as [sb|] eqn:Hs; [|reflexivity].
  exfalso. apply Hnot. apply Hkeys. eauto.
Qed.

(** ** The buffers of a generic attribute *)

(** X9: the precise buffer of a generic attribute holds, for every point and
    every kind that has a getter, exactly the value the getter returned: the
    typed array chosen for the kind loses nothing of it. *)
Theorem precise_buffer_keeps_the_values data pre a post :
  schema_ok data ->
  attributes (pointAttributes data) = (pre ++ a :: post)%list ->
  is_position (name a) = false ->
  is_rgba (name a) = false ->
  exists out ab precise,
    handleMessage data = Ok out
    /\ message_attributeBuffers out !! name a = Some ab
    /\ preciseBuffer ab = Some precise
    /\ length precise = numPoints data
    /\ forall j, j < numPoints data ->
         exists value,
           typed_getter (type a) (buffer data)
             (j * bytesPerPoint (pointAttributes data) + sizes pre) = Ok value
           /\ precise !! j = Some value.
Proof.
  intros Hok Heq Hpos Hrgba.
  destruct (handleMessage_spec data Hok) as (st & out & _ & Hrun & _ & Hattr & _).
  destruct (Hattr pre a post Heq) as (ab & Hab & _ & Hent).
  rewrite Hpos, Hrgba in Hent.
  destruct Hent as (getter & f32 & precise & Hg & _ & Hpre & _ & _ & _ & Hl2 & Hall).
  assert (getter = typed_getter (type a)) as Hget.
  { destruct (type a); cbn in Hg; try discriminate; injection Hg as <-; reflexivity. }
  exists out, ab, precise. repeat (split; [assumption|]).
  intros j Hj. destruct (Hall j Hj) as (value & Hv & _ & Hp).
  exists value. split; [rewrite <- Hget; exact Hv|].
  rewrite Hp. f_equal. exact (getter_value_stored _ _ _ _ _ Hg Hv).
Qed.

(** X10: for a float attribute and for the integer kinds of at most 16 bits the
    display buffer holds the value read itself: the store into the
    [Float32Array] rounds nothing away. *)
Theorem display_value_is_exact data pre a post :
  schema_ok data ->
  attributes (pointAttributes data) = (pre ++ a :: post)%list ->
  is_position (name a) = false ->
  is_rgba (name a) = false ->
  fits_float32 (type a) = true ->
  exists out ab f32,
    handleMessage data = Ok out
    /\ message_attributeBuffers out !! name a = Some ab
    /\ out_buffer ab = F32 f32
    /\ forall j, j < numPoints data ->
         exists value,
           typed_getter (type a) (buffer data)
             (j * bytesPerPoint (pointAttributes data) + sizes pre) = Ok value
           /\ f32 !! j = Some value.
Proof.
  intros Hok Heq Hpos Hrgba Hfit.
  destruct (handleMessage_spec data Hok) as (st & out & _ & Hrun & _ & Hattr & _).
  destruct (Hattr pre a post Heq) as (ab & Hab & _ & Hent).
  rewrite Hpos, Hrgba in Hent.
  destruct Hent as (getter & f32 & precise & Hg & Hbuf & _ & _ & _ & _ & _ & Hall).
  assert (getter = typed_getter (type a)) as Hget.
  { destruct (type a); cbn in Hg; try discriminate; injection Hg as <-; reflexivity. }
  exists out, ab, f32. repeat (split; [assumption|]).
  intros j Hj. destruct (Hall j Hj) as (value & Hv & Hf & _).
  exists value. split; [rewrite <- Hget; exact Hv|].
  rewrite Hf. f_equal.
  assert ((4 <? type_size (type a))%nat = false) as Hnarrow.
  { destruct (type a); cbn in Hfit |- *; try discriminate; reflexivity. }
  unfold pack_params. rewrite Hnarrow. cbn [fst snd].
  rewrite (narrow_display _ _ _ _ _ Hg Hv).
  exact (getter_value_float32 _ _ _ _ _ Hfit Hg Hv).
Qed.

End DecoderBehaviour.

(** ** The properties above on concrete messages *)

Module DecoderCases.
Import JS Num DataView Decoder.

(** A schema of a position and a colour, and a node without points. *)
Definition no_points : MessageData :=
  DecoderExamples.message [Examples.position_attribute; DecoderExamples.rgba_attribute]
    [] [] 0.

(** One point of a position-only schema whose payload lacks its last byte. *)
Definition truncated_point : MessageData :=
  DecoderExamples.message [Examples.position_attribute] []
    [x01; x00; x00; x00;  x01; x00; x00; x00;  x01; x00; x00] 1.

(** A vector over the attribute A and a name that is no attribute. *)
Definition vector_AZ : VectorAttribute :=
  {| vector_name := "V"; vector_attributes := ["A"; "Z"]%string |}.

Definition unknown_source : MessageData :=
  DecoderExamples.message [DecoderExamples.uint8_attribute "A"] [vector_AZ] [x01] 1.

(** A byte attribute named like the geometry attribute of the colours, and
    the colours, in both orders; one point. *)
Definition colour_clash : MessageData :=
  DecoderExamples.message [DecoderExamples.uint8_attribute "color";
                           DecoderExamples.rgba_attribute] []
    [x07;  x00; x02;  xc8; x00;  xff; xff] 1.

Definition colour_clash_reversed : MessageData :=
  DecoderExamples.message [DecoderExamples.rgba_attribute;
                           DecoderExamples.uint8_attribute "color"] []
    [x00; x02;  xc8; x00;  xff; xff;  x07] 1.

(** The item size of the [color] attribute of the geometry built from the
    reply to a message. *)
Definition colour_item_size (data : MessageData) : option nat :=
  match handleMessage data with
  | Ok reply =>
      match Loader.geometry_attributes
              (Loader.build_geometry (Loader.property_order (pointAttributes data))
                 (message_attributeBuffers reply)) !! "color"%string with
      | Some attribute => Some (Loader.itemSize attribute)
      | None => None
      end
  | Throw _ => None
  end.

End DecoderCases.

(** Two properties that become the same geometry attribute: the one the
    worker created last is the one the geometry keeps. *)
Example later_property_stays :
  DecoderCases.colour_item_size DecoderCases.colour_clash = Some 4
  /\ DecoderCases.colour_item_size DecoderCases.colour_clash_reversed = Some 1.
Proof. vm_compute. split; reflexivity. Qed.

(** [output_keys_are_the_output_names] on an example message. *)
Lemma output_keys_are_the_output_names_witness :
  exists out,
    Decoder.handleMessage DecoderExamples.three_sources = JS.Ok out
    /\ Decoder.message_buffer out = Decoder.buffer DecoderExamples.three_sources
    /\ forall k, is_Some (Decoder.message_attributeBuffers out !! k)
                 <-> k ∈ DecoderSpec.output_names
                           (Decoder.pointAttributes DecoderExamples.three_sources).
Proof.
  destruct (Decoder.handleMessage DecoderExamples.three_sources) as [out|e] eqn:H.
  - exists out. split; [reflexivity|].
    exact (output_keys_are_the_output_names DecoderExamples.three_sources out H).
  - vm_compute in H. discriminate H.
Defined.

(** [indices_buffer_numbers_the_points] on an example message. *)
Lemma indices_buffer_numbers_the_points_witness :
  exists out,
    Decoder.handleMessage DecoderExamples.three_sources = JS.Ok out
    /\ Decoder.message_attributeBuffers out !! "INDICES"%string
       = Some {| Decoder.out_buffer := Decoder.U32 [0; 1; 2]%Z;
                 Decoder.preciseBuffer := None; Decoder.attribute := Decoder.INDICES;
                 Decoder.out_offset := None; Decoder.out_scale := None |}.
Proof.
  destruct (Decoder.handleMessage DecoderExamples.three_sources) as [out|e] eqn:H.
  - exists out. split; [reflexivity|].
    apply (indices_buffer_numbers_the_points DecoderExamples.three_sources out H).
    intros Hin. apply elem_of_cons in Hin as [Hin|Hin]; [discriminate Hin|].
    apply elem_of_nil in Hin. exact Hin.
  - vm_compute in H. discriminate H.
Defined.

(** [colour_alpha_is_zero] on an example message. *)
Lemma colour_alpha_is_zero_witness :
  let data := DecoderExamples.one_colour in
  exists out ab colors,
    Decoder.handleMessage data = JS.Ok out
    /\ Decoder.message_attributeBuffers out !! "rgba"%string = Some ab
    /\ Decoder.out_buffer ab = Decoder.U8 colors
    /\ length colors = 4 * Decoder.numPoints data
    /\ forall j, j < Decoder.numPoints data -> colors !! (4 * j + 3) = Some 0%Z.
Proof.
  intros data.
  apply (colour_alpha_is_zero data [] DecoderExamples.rgba_attribute []).
  - apply schema_okb_ok. vm_compute. reflexivity.
  - reflexivity.
  - reflexivity.
Defined.

(** [occupied_cells_are_counted] on an example message. *)
Lemma occupied_cells_are_counted_witness :
  let data := DecoderExamples.two_points in
  exists out st,
    Decoder.handleMessage data = JS.Ok out
    /\ Decoder.decode_attributes data = JS.Ok st
    /\ Decoder.numOccupiedCells st = cells_occupied (Decoder.grid st)
    /\ Decoder.numOccupiedCells st <= 2.
Proof.
  intros data.
  destruct (Decoder.handleMessage data) as [out|e] eqn:H.
  - destruct (occupied_cells_are_counted data out H)
      as (st & Hst & _ & _ & Hocc & _ & Hle & _).
    + vm_compute. reflexivity.
    + exists out, st. split; [reflexivity|]. split; [exact Hst|]. split; [exact Hocc|].
      exact Hle.
  - vm_compute in H. discriminate H.
Defined.

(** [no_points_decode_to_empty_buffers] on an example message. *)
Lemma no_points_decode_to_empty_buffers_witness :
  exists out,
    Decoder.handleMessage DecoderCases.no_points = JS.Ok out
    /\ Decoder.density out = Num.NaN
    /\ forall k ab, Decoder.message_attributeBuffers out !! k = Some ab ->
                    out_length (Decoder.out_buffer ab) = 0.
Proof.
  apply (no_points_decode_to_empty_buffers DecoderCases.no_points).
  - apply schema_okb_ok. vm_compute. reflexivity.
  - reflexivity.
Defined.

(** [short_payload_throws_RangeError] on an example message. *)
Lemma short_payload_throws_RangeError_witness :
  Decoder.handleMessage DecoderCases.truncated_point = JS.Throw JS.RangeError.
Proof.
  apply (short_payload_throws_RangeError DecoderCases.truncated_point
           [] Examples.position_attribute []).
  - reflexivity.
  - constructor; [|constructor].
    intros Hpos. vm_compute in Hpos. discriminate Hpos.
  - vm_compute. lia.
  - vm_compute. lia.
Defined.

(** [decoded_vectors_have_their_sources] on an example message. *)
Lemma decoded_vectors_have_their_sources_witness :
  "B"%string ∈ DecoderSpec.output_names
                 {| Decoder.attributes :=
                      Decoder.attributes
                        (Decoder.pointAttributes DecoderExamples.three_sources);
                    Decoder.vectors := [] |}.
Proof.
  destruct (Decoder.handleMessage DecoderExamples.three_sources) as [out|e] eqn:H.
  - apply (decoded_vectors_have_their_sources DecoderExamples.three_sources out
             [] DecoderExamples.vector_ABC [] "B" H eq_refl).
    right. left.
  - vm_compute in H. discriminate H.
Defined.

(** [unknown_vector_source_throws_TypeError] on an example message. *)
Lemma unknown_vector_source_throws_TypeError_witness :
  Decoder.handleMessage DecoderCases.unknown_source = JS.Throw JS.TypeError.
Proof.
  apply (unknown_vector_source_throws_TypeError DecoderCases.unknown_source
           [] DecoderCases.vector_AZ [] ["A"%string] "Z" []).
  - apply schema_okb_ok. vm_compute. reflexivity.
  - reflexivity.
  - reflexivity.
  - constructor; [left|constructor].
  - intros Hin. repeat (apply elem_of_cons in Hin as [Hin|Hin]; [discriminate Hin|]).
    apply elem_of_nil in Hin. exact Hin.
Defined.

(** [precise_buffer_keeps_the_values] on an example message. *)
Lemma precise_buffer_keeps_the_values_witness :
  let data := DecoderExamples.intensity_and_time in
  exists out ab precise,
    Decoder.handleMessage data = JS.Ok out
    /\ Decoder.message_attributeBuffers out !! "intensity"%string = Some ab
    /\ Decoder.preciseBuffer ab = Some precise
    /\ length precise = Decoder.numPoints data
    /\ forall j, j < Decoder.numPoints data ->
         exists value,
           DecoderSpec.typed_getter Decoder.DATA_TYPE_UINT16 (Decoder.buffer data)
             (j * Decoder.bytesPerPoint (Decoder.pointAttributes data)
              + DecoderSpec.sizes []) = JS.Ok value
           /\ precise !! j = Some value.
Proof.
  intros data.
  apply (precise_buffer_keeps_the_values data [] DecoderExamples.intensity
           [DecoderExamples.gps_time]).
  - apply schema_okb_ok. vm_compute. reflexivity.
  - reflexivity.
  - reflexivity.
  - reflexivity.
Defined.

(** [display_value_is_exact] on an example message. *)
Lemma display_value_is_exact_witness :
  let data := DecoderExamples.intensity_and_time in
  exists out ab f32,
    Decoder.handleMessage data = JS.Ok out
    /\ Decoder.message_attributeBuffers out !! "intensity"%string = Some ab
    /\ Decoder.out_buffer ab = Decoder.F32 f32
    /\ forall j, j < Decoder.numPoints data ->
         exists value,
           DecoderSpec.typed_getter Decoder.DATA_TYPE_UINT16 (Decoder.buffer data)
             (j * Decoder.bytesPerPoint (Decoder.pointAttributes data)
              + DecoderSpec.sizes []) = JS.Ok value
           /\ f32 !! j = Some value.
Proof.
  intros data.
  apply (display_value_is_exact data [] DecoderExamples.intensity
           [DecoderExamples.gps_time]).
  - apply schema_okb_ok. vm_compute. reflexivity.
  - reflexivity.
  - reflexivity.
  - reflexivity.
  - reflexivity.
Defined.

(** * The loader: further behaviour *)

Section LoaderBehaviour.
Import JS Num DataView Loader HierarchySpec.

Variable createChildAABB : Box3 -> nat -> Box3.
Variable getIndexFromName : string -> Z.
Variable getBoundingSphere : Box3 -> Sphere.
Variable fetch : File -> Z -> Z -> result ArrayBuffer.
Variable octree : OctreeGeometry.

Local Abbreviation parse_record :=
  (Loader.parse_record createChildAABB getIndexFromName getBoundingSphere).
Local Abbreviation parseHierarchy_loop :=
  (Loader.parseHierarchy_loop createChildAABB getIndexFromName getBoundingSphere).

(** ** A record without a node *)

Lemma loopM_app {A T} (f : A -> T -> outcome T) l1 l2 s :
  loopM f (l1 ++ l2) s = andThen (loopM f l1 s) (loopM f l2).
Proof.
  revert s. induction l1 as [|a l1 IH]; intros s; cbn [app loopM]; [reflexivity|].
  destruct (f a s) as [t|e t]; cbn [andThen]; [apply IH|reflexivity].
Qed.

(** X11: the work list of [parseHierarchy] holds a node for record [i] only
    when the records before it announced enough children.  The first record
    that has none makes the parse throw a [TypeError] (a field of [undefined]
    is written); the records before it have been written on their nodes. *)
Theorem record_without_node_throws_TypeError node w buf k i :
  start_ok node w ->
  length buf = bytesPerNode * k -> (Z.of_nat k < 4294967296)%Z ->
  i < k ->
  (forall j, j < i -> j < announced buf j) ->
  announced buf i <= i ->
  exists st,
    parseHierarchy_loop node buf w = Abrupt TypeError st
    /\ nodePos st = announced buf i
    /\ forall j, j < i -> applied buf st j.
Proof.
  intros Hok Hlen Hk Hi Hwf Horphan. unfold Loader.parseHierarchy_loop.
  destruct (array_length_ok_multiple buf k Hlen Hk) as [-> ->].
  replace k with (i + S (k - S i)) by lia.
  rewrite seq_app, loopM_app. cbn [seq].
  destruct (loopM_seq_total (parse_record buf)
           (fun i st => worklist_ok st /\ nodePos st = announced buf i
                        /\ forall j, j < i -> applied buf st j) i 0
           {| world := w; nodes := {[ 0 := node ]}; nodePos := 1 |})
    as (st & Hst & Hinv).
  - split; [apply initial_worklist_ok; exact Hok|]. split; [reflexivity|]. intros; lia.
  - intros j t Hj (H1 & H2 & H3).
    destruct (read_record_ok buf k j Hlen) as [r Hr]; [lia|].
    destruct H1 as (Hdom & Hrefs & Hinj).
    destruct (proj2 (Hdom j)) as [current Hcur]; [rewrite H2; apply Hwf; lia|].
    destruct (Hrefs _ _ Hcur) as (Hlt & n & Hn & Hl).
    assert (exists t', parse_record buf j t = Normal t') as [t' Ht'].
    { destruct (Z.eq_dec (rec_type r) 2%Z) as [Hp|Hp].
      - eexists. eapply parse_record_proxy; eauto.
      - destruct (parse_record_expands createChildAABB getIndexFromName
                    getBoundingSphere buf j t r current n Hr Hcur Hn Hlt Hl Hp)
          as (t' & Ht' & _). eauto. }
    exists t'. split; [exact Ht'|].
    eapply parse_record_step; eauto. split; [|split]; assumption.
  - rewrite Hst. cbn [andThen loopM Nat.add]. cbn [Nat.add] in Hinv.
    destruct Hinv as ((Hdom & _ & _) & Hpos & Happlied).
    exists st. split; [|split; assumption].
    unfold Loader.parse_record.
    destruct (read_record_ok buf k i Hlen Hi) as [r ->].
    destruct (nodes st !! i) as [current|] eqn:Hn; [|reflexivity].
    assert (i < nodePos st) by (apply Hdom; eauto). lia.
Qed.

(** ** The first request *)

Local Abbreviation load :=
  (Loader.load createChildAABB getIndexFromName getBoundingSphere fetch octree).
Local Abbreviation load_try :=
  (Loader.load_try createChildAABB getIndexFromName getBoundingSphere fetch octree).
Local Abbreviation loadHierarchy :=
  (Loader.loadHierarchy createChildAABB getIndexFromName getBoundingSphere fetch).

(** [w'] has the root of [w] and its trace, followed by further events. *)
Definition grows (w w' : World) : Prop :=
  root w' = root w /\ exists rest, trace w' = (trace w ++ rest)%list.

Lemma grows_refl w : grows w w.
Proof. split; [reflexivity|]. exists []. rewrite app_nil_r. reflexivity. Qed.

Lemma grows_trans w1 w2 w3 : grows w1 w2 -> grows w2 w3 -> grows w1 w3.
Proof.
  intros [R1 [r1 T1]] [R2 [r2 T2]]. split; [congruence|].
  exists (r1 ++ r2)%list. rewrite T2, T1, app_assoc. reflexivity.
Qed.

Lemma grows_same w w' : root w' = root w -> trace w' = trace w -> grows w w'.
Proof.
  intros R T. split; [exact R|]. exists []. rewrite app_nil_r. exact T.
Qed.

Lemma grows_emit e w : grows w (emit e w).
Proof. split; [reflexivity|]. exists [e]. reflexivity. Qed.

Lemma grows_add_child current mask st b :
  grows (world st)
        (world (Loader.add_child createChildAABB getIndexFromName getBoundingSphere
                  current mask st b)).
Proof.
  unfold Loader.add_child. destruct (childExists mask b); [|apply grows_refl].
  destruct (heap (world st) !! current) as [cur|]; [|apply grows_refl].
  apply grows_same; reflexivity.
Qed.

Lemma grows_add_children current mask l :
  forall st,
  grows (world st)
        (world (foldl (Loader.add_child createChildAABB getIndexFromName
                         getBoundingSphere current mask) st l)).
Proof.
  induction l as [|b l IH]; intros st; cbn [foldl]; [apply grows_refl|].
  eapply grows_trans; [apply grows_add_child|apply IH].
Qed.

Lemma grows_parse_record buf i st :
  grows (world st) (world (state_of (parse_record buf i st))).
Proof.
  unfold Loader.parse_record.
  destruct (read_record buf i) as [r|]; [|apply grows_refl].
  destruct (nodes st !! i) as [current|]; [|apply grows_refl].
  destruct (heap (world st) !! current) as [cur|]; [|apply grows_refl].
  destruct (rec_type r =? 2)%Z; cbn [state_of world].
  - apply grows_same; reflexivity.
  - eapply grows_trans; [|apply grows_add_children]. apply grows_same; reflexivity.
Qed.

Lemma grows_loopM buf l :
  forall st, grows (world st) (world (state_of (loopM (parse_record buf) l st))).
Proof.
  induction l as [|i l IH]; intros st; cbn [loopM state_of]; [apply grows_refl|].
  pose proof (grows_parse_record buf i st) as H.
  destruct (parse_record buf i st) as [t|e t]; cbn [andThen state_of] in *.
  - eapply grows_trans; [exact H|apply IH].
  - exact H.
Qed.

Lemma grows_parseHierarchy node buf w :
  grows w (state_of (Loader.parseHierarchy createChildAABB getIndexFromName
                       getBoundingSphere node buf w)).
Proof.
  unfold Loader.parseHierarchy, Loader.parseHierarchy_loop.
  destruct (array_length_ok (length buf)); [|apply grows_refl].
  pose proof (grows_loopM buf (seq 0 (length buf / bytesPerNode))
                {| world := w; nodes := {[ 0 := node ]}; nodePos := 1 |}) as H.
  cbn [world] in H.
  destruct (loopM _ _ _) as [t|e t]; exact H.
Qed.

Lemma grows_getWorker type w : grows w (snd (getWorker type w)).
Proof.
  unfold getWorker. destruct (last (workers w)); cbn [snd].
  - apply grows_same; reflexivity.
  - split; [reflexivity|]. eexists. reflexivity.
Qed.

(** What [load] does after the hierarchy of the node is there. *)
Lemma grows_payload node w :
  grows w
    (state_of
       match heap w !! node with
       | None => Abrupt TypeError w
       | Some n =>
           match fetch_payload fetch n w with
           | (Throw e, w2) => Abrupt e w2
           | (Ok buf, w2) =>
               let '(worker, w3) := getWorker (encoding octree) w2 in
               Normal (emit (PostMessage worker (make_message octree n buf)) w3)
           end
       end).
Proof.
  destruct (heap w !! node) as [n|]; [|apply grows_refl].
  assert (grows w (snd (fetch_payload fetch n w))) as Hp.
  { unfold fetch_payload. destruct (byteSize n =? 0)%Z; apply grows_emit. }
  destruct (fetch_payload fetch n w) as [[buf|e] w2]; cbn [snd state_of] in *;
    [|exact Hp].
  pose proof (grows_getWorker (encoding octree) w2) as Hw.
  destruct (getWorker (encoding octree) w2) as [worker w3]. cbn [snd state_of] in *.
  eapply grows_trans; [exact Hp|]. eapply grows_trans; [exact Hw|]. apply grows_emit.
Qed.

Lemma grows_load_catch node e w : grows w (load_catch node e w).
Proof.
  unfold load_catch. split; [reflexivity|]. eexists. cbn [trace emit update set_heap].
  rewrite <- app_assoc. reflexivity.
Qed.

(** A [load] of a proxy node that is not loading begins by asking for the
    hierarchy chunk of the node. *)
Lemma load_proxy_asks_for_its_chunk node w n :
  heap w !! node = Some n -> loading n = false -> nodeType n = 2%Z ->
  root (load node w) = root w
  /\ exists rest,
       trace (load node w)
       = (trace w ++ Fetch hierarchy_bin (hierarchyByteOffset n)
                       (hierarchyByteOffset n + hierarchyByteSize n - 1) :: rest)%list.
Proof.
  intros Hn Hl Ht. unfold Loader.load. rewrite Hn, Hl. cbn [orb].
  set (w0 := update node (set_loading true) w).
  set (w1 := emit (Fetch hierarchy_bin (hierarchyByteOffset n)
                     (hierarchyByteOffset n + hierarchyByteSize n - 1)) w0).
  assert (grows w1 (state_of (load_try node w0))) as Hg.
  { unfold Loader.load_try.
    assert (heap w0 !! node = Some (set_loading true n)) as H0.
    { unfold w0, update. cbn [heap set_heap]. rewrite lookup_alter_eq, Hn. reflexivity. }
    rewrite H0. cbn [nodeType set_loading]. rewrite Ht. cbn [Z.eqb Pos.eqb].
    unfold Loader.loadHierarchy. rewrite H0.
    cbn [hierarchyByteOffset hierarchyByteSize set_loading]. fold w1.
    destruct (fetch hierarchy_bin _ _) as [buf|e]; [|apply grows_refl].
    pose proof (grows_parseHierarchy node buf w1) as Hp.
    destruct (Loader.parseHierarchy _ _ _ node buf w1) as [w2|e w2];
      cbn [andThen state_of] in *; [|exact Hp].
    eapply grows_trans; [exact Hp|]. apply grows_payload. }
  assert (grows w1 match load_try node w0 with
                   | Normal w' => w'
                   | Abrupt e w' => load_catch node e w'
                   end) as [Hr [rest Hrest]].
  { destruct (load_try node w0) as [w'|e w']; cbn [state_of] in Hg; [exact Hg|].
    eapply grows_trans; [exact Hg|apply grows_load_catch]. }
  split; [rewrite Hr; reflexivity|].
  exists rest. rewrite Hrest. unfold w1, w0. cbn [trace emit update set_heap].
  rewrite <- app_assoc. reflexivity.
Qed.

(** X18: [OctreeLoader.load], once the metadata is read: the root is the node
    of reference 0 and stays the root, and the first thing asked of the
    transport is the first [firstChunkSize] bytes of the hierarchy file, whatever
    happens afterwards. *)
Theorem first_request_is_the_first_chunk :
  root (OctreeLoader_load createChildAABB getIndexFromName getBoundingSphere fetch
          octree empty_world) = Some 0
  /\ exists rest,
       trace (OctreeLoader_load createChildAABB getIndexFromName getBoundingSphere
                fetch octree empty_world)
       = Fetch hierarchy_bin 0 (firstChunkSize octree - 1) :: rest.
Proof.
  unfold OctreeLoader_load, create_root, alloc. cbn [idCount empty_world].
  match goal with
  | |- context [Loader.load _ _ _ _ _ 0 ?W] =>
      destruct (load_proxy_asks_for_its_chunk 0 W
                  (set_spacing (octree_spacing octree)
                     (set_hierarchyByteSize (firstChunkSize octree)
                        (set_nodeType 2
                           (new_OctreeGeometryNode getIndexFromName getBoundingSphere
                              0 "r" (octree_boundingBox octree))))))
        as [Hr [rest Hrest]]
  end.
  - unfold update. cbn [heap set_heap]. rewrite !lookup_alter_eq, lookup_insert_eq.
    reflexivity.
  - reflexivity.
  - reflexivity.
  - split; [rewrite Hr; reflexivity|]. exists rest. rewrite Hrest. reflexivity.
Qed.

(** ** A node without payload *)

Lemma getWorker_heap type w : heap (snd (getWorker type w)) = heap w.
Proof. unfold getWorker. destruct (last (workers w)); reflexivity. Qed.

(** X19: a node that has points but a payload of zero bytes (and is not a
    proxy).  [load] warns, fetches nothing and posts a message with an empty
    buffer and the point count of the node; the decoder throws a
    [RangeError] on it at the first attribute, so no answer ever arrives: the
    node stays [loading], and every later [load] of it returns at the
    guard. *)
Theorem empty_payload_is_never_answered node w n a post :
  heap w !! node = Some n ->
  loading n = false -> nodeType n <> 2%Z ->
  byteSize n = 0%Z -> (0 < numPoints n)%Z ->
  Decoder.attributes (octree_pointAttributes octree) = a :: post ->
  has_reader a ->
  exists worker w3,
    getWorker (encoding octree)
      (emit (ConsoleWarn (name n)) (update node (set_loading true) w)) = (worker, w3)
    /\ load node w
       = emit (PostMessage worker (make_message octree (set_loading true n) [])) w3
    /\ Decoder.handleMessage (make_message octree (set_loading true n) [])
       = Throw RangeError
    /\ heap (load node w) !! node = Some (set_loading true n)
    /\ load node (load node w) = load node w.
Proof.
  intros Hn Hl Ht Hs Hp Ha Hr.
  set (w0 := update node (set_loading true) w).
  assert (heap w0 !! node = Some (set_loading true n)) as H0.
  { unfold w0, update. cbn [heap set_heap]. rewrite lookup_alter_eq, Hn. reflexivity. }
  destruct (getWorker (encoding octree) (emit (ConsoleWarn (name n)) w0))
    as [worker w3] eqn:Hw.
  assert (load node w
          = emit (PostMessage worker (make_message octree (set_loading true n) [])) w3)
    as Hload.
  { unfold Loader.load. rewrite Hn, Hl. cbn [orb]. fold w0.
    unfold Loader.load_try. rewrite H0. cbn [nodeType set_loading].
    apply Z.eqb_neq in Ht. rewrite Ht. cbn [andThen]. rewrite H0.
    unfold fetch_payload. cbn [byteSize set_loading name]. rewrite Hs. cbn [Z.eqb].
    rewrite Hw. reflexivity. }
  assert (heap (load node w) !! node = Some (set_loading true n)) as Hheap.
  { rewrite Hload. cbn [heap emit].
    pose proof (getWorker_heap (encoding octree) (emit (ConsoleWarn (name n)) w0)) as E.
    rewrite Hw in E. cbn [snd] in E. rewrite E. exact H0. }
  exists worker, w3. split; [reflexivity|]. split; [exact Hload|].
  split; [|split; [exact Hheap|]].
  - unfold Decoder.handleMessage, Decoder.decode_attributes.
    cbn [Decoder.pointAttributes make_message]. rewrite Ha.
    rewrite (decode_attributes_short _ _ [] a post); [reflexivity| | |].
    + constructor; [exact Hr|constructor].
    + cbn [Decoder.numPoints make_message Loader.numPoints set_loading]. lia.
    + cbn [Decoder.buffer make_message length Decoder.initial_state
           Decoder.attributeOffset DecoderSpec.sizes foldr].
      assert (0 < DecoderSpec.read_width a) as Hwidth.
      { unfold DecoderSpec.read_width.
        destruct (Decoder.is_position _); [lia|]. destruct (Decoder.is_rgba _); [lia|].
        destruct (Decoder.type a); cbn; lia. }
      match goal with |- 0 < ?p + _ + _ => generalize p end. intros; lia.
  - unfold Loader.load at 1. rewrite Hheap. reflexivity.
Qed.

End LoaderBehaviour.

Section WorkerPool.
Import JS Num DataView Loader.

(** ** The worker pool *)

(** X12: a worker given back to the pool is the next one handed out, whatever
    encoding is asked for, and the pool is then as it was before: no worker
    is created. *)
Theorem released_worker_is_reused (type : Encoding) (worker : nat) (w : World) :
  getWorker type (releaseWorker worker w) = (worker, w).
Proof.
  unfold getWorker, releaseWorker. cbn [workers set_workers].
  rewrite last_snoc, removelast_last. destruct w; reflexivity.
Qed.

(** X13: [NodeLoader.dispose] terminates the workers of the pool, each once and
    in pool order, and empties the pool; the nodes are not touched, and a
    second call does nothing more. *)
Theorem loader_dispose_terminates_the_pool (w : World) :
  trace (loader_dispose w) = (trace w ++ map Terminate (workers w))%list
  /\ workers (loader_dispose w) = []
  /\ loader_disposed (loader_dispose w) = true
  /\ heap (loader_dispose w) = heap w
  /\ loader_dispose (loader_dispose w) = loader_dispose w.
Proof.
  unfold loader_dispose.
  destruct (trace_emit_all Terminate (workers w) w) as [Ht Hh].
  cbn [trace workers loader_disposed heap foldl].
  repeat split; assumption.
Qed.

(** X14: a worker that is decoding when the loader is disposed is not in the
    pool, so it is not terminated; when its answer arrives it is put into the
    pool of the disposed loader and handed out again. *)
Theorem busy_worker_survives_dispose (type : Encoding) (w : World) :
  workers w = [] ->
  let worker := fst (getWorker type w) in
  let w' := releaseWorker worker (loader_dispose (snd (getWorker type w))) in
  worker = workerCount w
  /\ trace w' = (trace w ++ [NewWorker worker type])%list
  /\ loader_disposed w' = true
  /\ workers w' = [worker]
  /\ fst (getWorker type w') = worker.
Proof.
  intros Hw. unfold getWorker at 1 2 3. rewrite Hw. cbn.
  repeat split; reflexivity.
Qed.

End WorkerPool.

Section Replies.
Import JS Num DataView Loader.

Variable octree : OctreeGeometry.

(** ** The properties of a reply *)

Lemma first_occurrences_spec l :
  forall seen k, k ∈ first_occurrences seen l <-> k ∈ l /\ k ∉ seen.
Proof.
  induction l as [|a l IH]; intros seen k; cbn [first_occurrences].
  - split; [intros H; inversion H|intros [H _]; inversion H].
  - destruct (existsb (String.eqb a) seen) eqn:E.
    + apply existsb_eqb_elem_of in E. rewrite IH, elem_of_cons.
      split; [tauto|]. intros [[->|H] Hn]; [contradiction|tauto].
    + assert (a ∉ seen) as Ha.
      { intros H. apply existsb_eqb_elem_of in H. congruence. }
      rewrite elem_of_cons, IH, !elem_of_cons. split.
      * intros [->|[H Hn]]; [tauto|]. split; [tauto|]. intros Hs. apply Hn. tauto.
      * intros [[->|H] Hn]; [tauto|].
        destruct (decide (k = a)) as [->|Hne]; [tauto|]. right. split; [exact H|].
        intros [?|?]; [contradiction|contradiction].
Qed.

Lemma first_occurrences_NoDup l : forall seen, NoDup (first_occurrences seen l).
Proof.
  induction l as [|a l IH]; intros seen; cbn [first_occurrences]; [constructor|].
  destruct (existsb (String.eqb a) seen); [apply IH|].
  constructor; [|apply IH]. rewrite first_occurrences_spec, elem_of_cons. tauto.
Qed.

Lemma insert_index_perm k l : insert_index k l ≡ₚ k :: l.
Proof.
  induction l as [|h t IH]; cbn [insert_index]; [reflexivity|].
  destruct (fst k <=? fst h)%N; [reflexivity|]. rewrite IH. apply Permutation_swap.
Qed.

Lemma sorted_indices_perm l : foldr insert_index [] l ≡ₚ l.
Proof.
  induction l as [|k l IH]; cbn [foldr]; [reflexivity|].
  rewrite insert_index_perm, IH. reflexivity.
Qed.

Lemma split_by_index (l : list string) :
  (map snd (omap (fun k => match array_index k with
                           | Some n => Some (n, k)
                           | None => None
                           end) l)
   ++ List.filter (fun k => match array_index k with Some _ => false | None => true end) l)
  ≡ₚ l.
Proof.
  induction l as [|k l IH]; [reflexivity|]. cbn [omap list_omap List.filter].
  destruct (array_index k); cbn [map snd app].
  - constructor. exact IH.
  - rewrite <- Permutation_middle. constructor. exact IH.
Qed.

(** The order of the visit is an arrangement of the keys created. *)
Lemma property_order_perm pa :
  property_order pa ≡ₚ first_occurrences [] (DecoderSpec.output_names pa).
Proof.
  unfold property_order, DecoderSpec.output_names. cbv zeta.
  rewrite sorted_indices_perm. apply split_by_index.
Qed.

Lemma geometry_key_position property b :
  fst (geometry_attribute property b) = "position"%string -> property = "position"%string.
Proof.
  unfold geometry_attribute.
  destruct (String.eqb_spec property "position"); [auto|].
  destruct (String.eqb_spec property "rgba"); [discriminate|].
  destruct (String.eqb_spec property "NORMAL"); [discriminate|].
  destruct (String.eqb_spec property "INDICES"); [discriminate|]. auto.
Qed.

(** The attribute a geometry holds under a key that only one visited
    property maps to. *)
Lemma build_geometry_lookup order buffers property b :
  property ∈ order -> buffers !! property = Some b ->
  (forall p' b', p' ∈ order -> buffers !! p' = Some b' ->
     fst (geometry_attribute p' b') = fst (geometry_attribute property b) ->
     p' = property) ->
  geometry_attributes (build_geometry order buffers)
    !! fst (geometry_attribute property b)
  = Some (snd (geometry_attribute property b)).
Proof.
  unfold build_geometry. cbn [geometry_attributes].
  induction order as [|x l IH] using rev_ind; intros Hin Hb Huniq; [inversion Hin|].
  rewrite foldl_app. cbn [foldl].
  destruct (decide (x = property)) as [->|Hne].
  - rewrite Hb. apply lookup_insert_eq.
  - assert (property ∈ l) as Hl.
    { apply elem_of_app in Hin as [H|H]; [exact H|].
      apply list_elem_of_singleton in H. congruence. }
    destruct (buffers !! x) as [b'|] eqn:Hx.
    + rewrite lookup_insert_ne.
      * apply IH; [exact Hl|exact Hb|]. intros p' b2 Hp'. apply Huniq.
        apply elem_of_app. left. exact Hp'.
      * intros E. apply Hne. apply (Huniq x b'); [|exact Hx|exact E].
        apply elem_of_app. right. apply list_elem_of_singleton. reflexivity.
    + apply IH; [exact Hl|exact Hb|]. intros p' b2 Hp'. apply Huniq.
      apply elem_of_app. left. exact Hp'.
Qed.

(** A geometry has no attribute under a key that no visited property maps
    to. *)
Lemma build_geometry_absent order buffers key :
  (forall p b, p ∈ order -> buffers !! p = Some b ->
     fst (geometry_attribute p b) <> key) ->
  geometry_attributes (build_geometry order buffers) !! key = None.
Proof.
  unfold build_geometry. cbn [geometry_attributes].
  induction order as [|x l IH] using rev_ind; intros Hno; [apply lookup_empty|].
  rewrite foldl_app. cbn [foldl].
  assert (forall p b, p ∈ l -> buffers !! p = Some b ->
                      fst (geometry_attribute p b) <> key) as Hl.
  { intros p b Hp. apply Hno. apply elem_of_app. left. exact Hp. }
  destruct (buffers !! x) as [b'|] eqn:Hx; [|exact (IH Hl)].
  rewrite lookup_insert_ne; [exact (IH Hl)|].
  apply (Hno x b'); [|exact Hx].
  apply elem_of_app. right. apply list_elem_of_singleton. reflexivity.
Qed.

(** X20: when several visited properties become the same geometry attribute
    (a generic attribute called [color] and the colours [rgba], say), the
    geometry keeps the one visited last: [setAttribute] overwrites.  [p] is
    a property none of whose successors in the visit maps to its key. *)
Theorem last_property_of_a_key_stays order1 p order2 buffers b :
  buffers !! p = Some b ->
  (forall p' b', p' ∈ order2 -> buffers !! p' = Some b' ->
     fst (geometry_attribute p' b') <> fst (geometry_attribute p b)) ->
  geometry_attributes (build_geometry (order1 ++ p :: order2) buffers)
    !! fst (geometry_attribute p b)
  = Some (snd (geometry_attribute p b)).
Proof.
  unfold build_geometry. cbn [geometry_attributes]. intros Hb.
  induction order2 as [|x l IH] using rev_ind; intros Hno.
  - rewrite foldl_app. cbn [foldl]. rewrite Hb. apply lookup_insert_eq.
  - change (order1 ++ p :: l ++ [x])%list with (order1 ++ (p :: l) ++ [x])%list.
    rewrite app_assoc, foldl_app. cbn [foldl].
    assert (forall p' b', p' ∈ l -> buffers !! p' = Some b' ->
              fst (geometry_attribute p' b') <> fst (geometry_attribute p b)) as Hl.
    { intros p' b' Hp'. apply Hno. apply elem_of_app. left. exact Hp'. }
    destruct (buffers !! x) as [b'|] eqn:Hx; [|exact (IH Hl)].
    rewrite lookup_insert_ne; [exact (IH Hl)|].
    apply (Hno x b'); [|exact Hx].
    apply elem_of_app. right. apply list_elem_of_singleton. reflexivity.
Qed.

Lemma reply_keys n buf out :
  Decoder.handleMessage (make_message octree n buf) = Ok out ->
  NoDup (property_order (octree_pointAttributes octree))
  /\ forall k, k ∈ property_order (octree_pointAttributes octree)
               <-> is_Some (Decoder.message_attributeBuffers out !! k).
Proof.
  intros H. pose proof (property_order_perm (octree_pointAttributes octree)) as Hp.
  split.
  - rewrite Hp. apply first_occurrences_NoDup.
  - intros k. rewrite (handleMessage_keys _ _ H k). cbn [Decoder.pointAttributes make_message].
    rewrite Hp, first_occurrences_spec. split; [tauto|].
    intros Hk. split; [exact Hk|]. intros Hn. inversion Hn.
Qed.


(** X16: the node after its worker has answered.  It is loaded, neither
    loading nor failed, holds the density of the reply and a geometry, and
    the worker is back at the end of the pool.  The geometry has an attribute
    [position] exactly when the schema has an attribute or a vector of that
    very name; it is then a view of three floats per item on the buffer
    decoded under that name.  (A schema that calls its positions
    [POSITION_CARTESIAN] gives a geometry without [position].) *)
Theorem answered_node_holds_the_geometry node worker n0 n buf out w :
  heap w !! node = Some n0 ->
  Decoder.handleMessage (make_message octree n buf) = Ok out ->
  exists n' g,
    heap (onmessage octree node worker out w) !! node = Some n'
    /\ loaded n' = true /\ loading n' = false /\ failed n' = false
    /\ density n' = Decoder.density out
    /\ geometry n' = Some g
    /\ workers (onmessage octree node worker out w) = (workers w ++ [worker])%list
    /\ trace (onmessage octree node worker out w) = trace w
    /\ (forall b, Decoder.message_attributeBuffers out !! "position"%string = Some b ->
          geometry_attributes g !! "position"%string
          = Some {| array := Decoder.out_buffer b; array_kind := Decoder.Float32Array;
                    itemSize := 3; normalized := false; potree := None |})
    /\ ("position"%string ∉ DecoderSpec.output_names (octree_pointAttributes octree) ->
          geometry_attributes g !! "position"%string = None).
Proof.
  intros Hn Hrun.
  destruct (reply_keys n buf out Hrun) as [_ Hkeys].
  unfold onmessage. cbv zeta. unfold releaseWorker, update.
  cbn [heap set_heap set_workers workers trace].
  rewrite !lookup_alter_eq, Hn. cbn [fmap option_fmap option_map].
  eexists. eexists. split; [reflexivity|].
  cbn [loaded loading failed density geometry set_failed set_loading set_loaded
       set_geometry set_density].
  repeat (split; [reflexivity|]). split.
  - intros b Hb.
    apply (build_geometry_lookup _ _ "position"%string b).
    + apply Hkeys. eauto.
    + exact Hb.
    + intros p' b' _ _ E. apply (geometry_key_position p' b'). exact E.
  - intros Hnot. apply build_geometry_absent. intros p b Hp Hb E.
    apply geometry_key_position in E. subst p.
    apply Hnot. apply (handleMessage_keys _ _ Hrun). eauto.
Qed.

End Replies.

Section Traversal.
Import JS Num DataView Loader.

(** ** Traversal *)

(** The nodes of the subtree of [r] down to depth [d], each before its
    descendants, the children of a node from the last slot to the first. *)
Fixpoint descent (d : nat) (w : World) (r : nat) : list nat :=
  match d with
  | O => [r]
  | S d' => r :: concat (map (descent d' w) (rev (child_refs r w)))
  end.

(** The subtree of [r] has no node below depth [d]. *)
Fixpoint height_le (d : nat) (w : World) (r : nat) : Prop :=
  match d with
  | O => child_refs r w = []
  | S d' => Forall (height_le d' w) (child_refs r w)
  end.

Lemma height_le_S d w : forall r, height_le d w r -> height_le (S d) w r.
Proof.
  induction d as [|d IH]; intros r H.
  - cbn in H |- *. rewrite H. constructor.
  - cbn [height_le] in H |- *. eapply Forall_impl; [exact H|]. exact IH.
Qed.

Lemma descent_S d w : forall r, height_le d w r -> descent (S d) w r = descent d w r.
Proof.
  induction d as [|d IH]; intros r H.
  - cbn in H |- *. rewrite H. reflexivity.
  - cbn [height_le] in H. cbn [descent] in IH |- *. f_equal. f_equal.
    apply Forall_rev in H. induction H as [|c cs Hc _ IHcs]; [reflexivity|].
    cbn [map]. rewrite IHcs. f_equal. exact (IH c Hc).
Qed.

Section Callback.

(** A callback that leaves the children of every node as they are. *)
Variable cb : nat -> World -> World.
Hypothesis cb_children : forall x y w, child_refs y (cb x w) = child_refs y w.

Lemma descent_cb d x w : forall r, descent d (cb x w) r = descent d w r.
Proof.
  induction d as [|d IH]; intros r; cbn [descent]; [reflexivity|].
  rewrite cb_children. f_equal. f_equal. apply map_ext. exact IH.
Qed.

Lemma height_le_cb d x w : forall r, height_le d w r -> height_le d (cb x w) r.
Proof.
  induction d as [|d IH]; intros r H; cbn [height_le] in *; rewrite cb_children.
  - exact H.
  - eapply Forall_impl; [exact H|]. exact IH.
Qed.

Lemma traverse_loop_descent d :
  forall fuel stack w,
  Forall (height_le d w) stack ->
  length (concat (map (descent d w) (rev stack))) < fuel ->
  traverse_loop fuel cb stack w
  = Some (foldl (fun w x => cb x w) w (concat (map (descent d w) (rev stack)))).
Proof.
  induction fuel as [|fuel IH]; intros stack w Hh Hfuel; [lia|].
  cbn [traverse_loop].
  destruct stack as [|x s _] using rev_ind; [reflexivity|].
  rewrite last_snoc, removelast_last, cb_children.
  apply Forall_app in Hh as [Hs Hx]. apply Forall_cons in Hx as [Hx _].
  rewrite rev_unit in Hfuel |- *. cbn [map concat] in Hfuel |- *.
  assert (descent d w x = x :: concat (map (descent d w) (rev (child_refs x w)))
          /\ Forall (height_le d w) (child_refs x w)) as [Hd Hc].
  { destruct d as [|d'].
    - cbn in Hx. rewrite Hx. split; [reflexivity|constructor].
    - cbn [height_le] in Hx. split.
      + cbn [descent]. f_equal. f_equal. apply Forall_rev in Hx.
        induction Hx as [|c cs Hc _ IHcs]; [reflexivity|].
        cbn [map]. rewrite IHcs. f_equal. symmetry. exact (descent_S d' w c Hc).
      + eapply Forall_impl; [exact Hx|]. intros c. apply height_le_S. }
  rewrite Hd in Hfuel |- *. cbn [app foldl length] in Hfuel |- *.
  rewrite IH.
  - rewrite rev_app_distr, map_app, concat_app.
    rewrite !(map_ext _ _ (descent_cb d x w)). reflexivity.
  - apply Forall_app. split; eapply Forall_impl; eauto using height_le_cb.
  - rewrite rev_app_distr, map_app, concat_app.
    rewrite !(map_ext _ _ (descent_cb d x w)). lia.
Qed.

(** X17: [traverse(cb, true)] calls [cb] on the node and on every node of its
    subtree, each once, a node before its descendants and the children of a
    node from the last slot to the first, when [cb] leaves the children of
    the nodes alone and the subtree has depth at most [d].  Without
    [includeSelf] (or with [false]) nothing is visited at all. *)
Theorem traverse_visits_the_subtree d fuel this w :
  height_le d w this ->
  length (descent d w this) < fuel ->
  traverse fuel this cb (Some true) w
    = Some (foldl (fun w x => cb x w) w (descent d w this))
  /\ traverse fuel this cb (Some false) w = Some w
  /\ traverse fuel this cb None w = Some w.
Proof.
  intros Hh Hfuel. unfold traverse. split.
  - rewrite (traverse_loop_descent d fuel [this] w).
    + cbn [rev app map concat]. rewrite app_nil_r. reflexivity.
    + constructor; [exact Hh|constructor].
    + cbn [rev app map concat]. rewrite app_nil_r. exact Hfuel.
  - destruct fuel; [lia|]. split; reflexivity.
Qed.

End Callback.

Lemma node_dispose_children x y w : child_refs y (node_dispose x w) = child_refs y w.
Proof.
  unfold node_dispose. destruct (heap w !! x) as [n|] eqn:Hn; [|reflexivity].
  destruct (geometry n); [|reflexivity]. destruct (parent n); [|reflexivity].
  match goal with
  | |- context [foldl ?F ?W ?L] =>
      destruct (trace_emit_all HandlerCall L W) as [_ Hh]
  end.
  unfold child_refs, update in *. cbn [heap set_heap emit] in *. rewrite Hh.
  destruct (decide (x = y)) as [->|Hne].
  - rewrite !lookup_alter_eq, Hn. reflexivity.
  - rewrite !lookup_alter_ne by exact Hne. reflexivity.
Qed.

End Traversal.

(** ** Concrete cases for the loader *)

Module LoaderCases.
Import JS Num DataView.

(** A chunk of two records whose first record announces no child. *)
Definition childless_then_more : list byte :=
  (Examples.record x00 x00 x01 x00 x0c ++ Examples.record x00 x00 x01 x0c x0c)%list.

(** The tree of [Examples.fetch_parent] after the first load: the root
    (reference 0) and its child in slot 0 (reference 1). *)
Definition parent_tree : Loader.World := Examples.start Examples.fetch_parent.

(** The root of [Examples.created] with one point. *)
Definition root_with_a_point : Loader.OctreeGeometryNode :=
  Loader.set_numPoints 1 Examples.root0.

(** The root of [Examples.created] as a record of type 0 with one point and
    a payload of zero bytes leaves it. *)
Definition hollow_root : Loader.OctreeGeometryNode :=
  Loader.set_numPoints 1 (Loader.set_nodeType 0 Examples.root0).

Definition hollow : Loader.World :=
  Loader.update 0 (fun _ => hollow_root) Examples.created.

End LoaderCases.

(** [record_without_node_throws_TypeError] on a chunk of two records for a
    root without children. *)
Lemma record_without_node_throws_TypeError_witness :
  exists st,
    Loader.parseHierarchy_loop Examples.octant Examples.last_digit Examples.sphere_of 0
      LoaderCases.childless_then_more Examples.created = Loader.Abrupt JS.TypeError st
    /\ Loader.nodePos st = announced LoaderCases.childless_then_more 1
    /\ forall j, j < 1 -> applied LoaderCases.childless_then_more st j.
Proof.
  apply (record_without_node_throws_TypeError Examples.octant Examples.last_digit
           Examples.sphere_of 0 Examples.created LoaderCases.childless_then_more 2 1).
  - split; [vm_compute; lia|]. exists Examples.root0. split; reflexivity.
  - reflexivity.
  - lia.
  - lia.
  - intros j Hj. assert (j = 0) as -> by lia. vm_compute. lia.
  - vm_compute. lia.
Defined.

(** [busy_worker_survives_dispose] on a loader that has no worker yet. *)
Lemma busy_worker_survives_dispose_witness :
  let w' := Loader.releaseWorker 0
              (Loader.loader_dispose (snd (Loader.getWorker Loader.DEFAULT Loader.empty_world))) in
  Loader.trace w' = [Loader.NewWorker 0 Loader.DEFAULT]
  /\ Loader.loader_disposed w' = true
  /\ Loader.workers w' = [0].
Proof.
  destruct (busy_worker_survives_dispose Loader.DEFAULT Loader.empty_world eq_refl)
    as (_ & Ht & Hd & Hw & _).
  split; [exact Ht|]. split; [exact Hd|exact Hw].
Defined.


(** [answered_node_holds_the_geometry] on the root of the position-only
    octree. *)
Lemma answered_node_holds_the_geometry_witness :
  exists out n' g,
    Decoder.handleMessage
      (Loader.make_message Examples.octree3 LoaderCases.root_with_a_point
         Examples.one_point) = JS.Ok out
    /\ Loader.heap (Loader.onmessage Examples.octree3 0 0 out Examples.created) !! 0
       = Some n'
    /\ Loader.loaded n' = true /\ Loader.loading n' = false
    /\ Loader.geometry n' = Some g
    /\ forall b, Decoder.message_attributeBuffers out !! "position"%string = Some b ->
         Loader.geometry_attributes g !! "position"%string
         = Some {| Loader.array := Decoder.out_buffer b;
                   Loader.array_kind := Decoder.Float32Array;
                   Loader.itemSize := 3; Loader.normalized := false;
                   Loader.potree := None |}.
Proof.
  destruct (Decoder.handleMessage
              (Loader.make_message Examples.octree3 LoaderCases.root_with_a_point
                 Examples.one_point)) as [out|e] eqn:H.
  - destruct (answered_node_holds_the_geometry Examples.octree3 0 0 Examples.root0
                LoaderCases.root_with_a_point Examples.one_point out Examples.created
                eq_refl H)
      as (n' & g & Hn & Hl & Hg & _ & _ & Hgeo & _ & _ & Hpos & _).
    exists out, n', g. split; [reflexivity|]. split; [exact Hn|].
    split; [exact Hl|]. split; [exact Hg|]. split; [exact Hgeo|exact Hpos].
  - vm_compute in H. discriminate H.
Defined.

(** [traverse_visits_the_subtree] with the callback of
    [OctreeGeometry.dispose] on the example tree: with [includeSelf] the root
    and then its child are visited. *)
Lemma traverse_visits_the_subtree_witness :
  Loader.traverse 3 0 Loader.node_dispose (Some true) LoaderCases.parent_tree
  = Some (Loader.node_dispose 1 (Loader.node_dispose 0 LoaderCases.parent_tree))
  /\ Loader.traverse 3 0 Loader.node_dispose None LoaderCases.parent_tree
     = Some LoaderCases.parent_tree.
Proof.
  destruct (traverse_visits_the_subtree Loader.node_dispose node_dispose_children
              1 3 0 LoaderCases.parent_tree) as (Hself & _ & Hnone).
  - cbn [height_le]. 
    replace (Loader.child_refs 0 LoaderCases.parent_tree) with [1] by (vm_compute; reflexivity).
    constructor; [vm_compute; reflexivity|constructor].
  - vm_compute. lia.
  - split; [|exact Hnone]. rewrite Hself.
    replace (descent 1 LoaderCases.parent_tree 0) with [0; 1] by (vm_compute; reflexivity).
    reflexivity.
Defined.

(** [empty_payload_is_never_answered] on the position-only octree. *)
Lemma empty_payload_is_never_answered_witness :
  Decoder.handleMessage
    (Loader.make_message Examples.octree3
       (Loader.set_loading true LoaderCases.hollow_root) []) = JS.Throw JS.RangeError
  /\ Loader.heap (Examples.load Examples.fetch_leaf 0 LoaderCases.hollow) !! 0
     = Some (Loader.set_loading true LoaderCases.hollow_root)
  /\ Examples.load Examples.fetch_leaf 0
       (Examples.load Examples.fetch_leaf 0 LoaderCases.hollow)
     = Examples.load Examples.fetch_leaf 0 LoaderCases.hollow.
Proof.
  destruct (empty_payload_is_never_answered Examples.octant Examples.last_digit
              Examples.sphere_of Examples.fetch_leaf Examples.octree3 0
              LoaderCases.hollow LoaderCases.hollow_root
              Examples.position_attribute [])
    as (worker & w3 & _ & _ & Hthrow & Hheap & Hagain).
  - reflexivity.
  - reflexivity.
  - discriminate.
  - reflexivity.
  - reflexivity.
  - reflexivity.
  - intros Hpos. vm_compute in Hpos. discriminate Hpos.
  - split; [exact Hthrow|]. split; [exact Hheap|exact Hagain].
Defined.

(** [last_property_of_a_key_stays] on the reply for a schema with a byte
    attribute [color] followed by the colours: the geometry attribute [color]
    is the view of the colours. *)
Lemma last_property_of_a_key_stays_witness :
  exists out b,
    Decoder.handleMessage DecoderCases.colour_clash = JS.Ok out
    /\ Decoder.message_attributeBuffers out !! "rgba"%string = Some b
    /\ Loader.geometry_attributes
         (Loader.build_geometry
            (Loader.property_order (Decoder.pointAttributes DecoderCases.colour_clash))
            (Decoder.message_attributeBuffers out)) !! "color"%string
       = Some {| Loader.array := Decoder.out_buffer b;
                 Loader.array_kind := Decoder.Uint8Array;
                 Loader.itemSize := 4; Loader.normalized := true;
                 Loader.potree := None |}.
Proof.
  destruct (Decoder.handleMessage DecoderCases.colour_clash) as [out|e] eqn:H.
  - destruct (proj2 (handleMessage_keys _ _ H "rgba"%string)) as [b Hb].
    { vm_compute. apply list_elem_of_In. right. left. reflexivity. }
    exists out, b. split; [reflexivity|]. split; [exact Hb|].
    replace (Loader.property_order (Decoder.pointAttributes DecoderCases.colour_clash))
      with (["color"%string] ++ "rgba"%string :: ["INDICES"%string])%list
      by (vm_compute; reflexivity).
    apply (last_property_of_a_key_stays ["color"%string] "rgba"%string
             ["INDICES"%string] (Decoder.message_attributeBuffers out) b Hb).
    intros p' b' Hp' _. apply list_elem_of_singleton in Hp'. subst p'.
    vm_compute. discriminate.
  - vm_compute in H. discriminate H.
Defined.
